(** * Bertrand oligopoly (open_spiel/games/bertrand_oligopoly)

    A shallow embedding of [bertrand_oligopoly.cc] / [bertrand_oligopoly.h]:
    the repeated simultaneous-move price game, its state transition
    [DoApplyActions], the terminal outcome [Returns] and the observer that
    renders a state into named tensor blocks.

    Number model.  Integers are [Z].  An [Action] is a 64-bit integer and
    the two places of [DoApplyActions] that store one in an [int] keep its
    low 32 bits ([to_int]); the implicit conversion [double -> int] of the
    winner loop is [double_to_int].  The C++ [double] fields are real numbers [R] and
    [exp] is the real exponential, so the rounding of binary64 is outside
    this development; its overflow to infinity and NaN are modelled
    separately, for the round profit, in the section on binary64 below. *)

From Stdlib Require Import ZArith Reals Lra Lia String.
From stdpp Require Import base list gmap.

#[global] Instance R_inhabited : Inhabited R := populate 0%R.

(** ** Framework constants

    [Player], [Action] and the special player ids are declared by the
    framework ([spiel_utils.h], [spiel_globals.h], [observer.h]), whose
    sources are not part of this repository's game files. *)

(** Modelled from the spec: the framework's [Action] type is missing; the
    spec gives a joint action as a sequence of integers, and the framework
    declares [Action] as a 64-bit integer, wider than the [int] that
    [DoApplyActions] copies each entry into. *)
Abbreviation Action := Z (only parsing).

(** Modelled from the spec: the framework's [PlayerId] enumeration is
    missing; this is the id of the chance player, a negative number distinct
    from the three below. *)
Definition kChancePlayerId : Z := -1.

(** Modelled from the spec: the framework's [PlayerId] enumeration is
    missing; this is the "simultaneous" token [currentPlayer] returns while
    the state awaits a joint action. *)
Definition kSimultaneousPlayerId : Z := -2.

(** Modelled from the spec: the framework's [PlayerId] enumeration is
    missing; this is the NONE marker of [winSequence], not a player index. *)
Definition kInvalidPlayer : Z := -3.

(** Modelled from the spec: the framework's [PlayerId] enumeration is
    missing; this is the "terminal" token [currentPlayer] returns once the
    state is terminal. *)
Definition kTerminalPlayerId : Z := -4.

(** [INT_MAX] and [INT_MIN] of [<climits>] for a 32-bit [int]. *)
Definition INT_MAX : Z := 2147483647.
Definition INT_MIN : Z := -2147483648.

(** The conversion of a wider integer to [int], as in
    [const int action = actions[p]]: the low 32 bits, read as a two's
    complement number. *)
Definition to_int (a : Z) : Z := ((a + 2147483648) mod 4294967296 - 2147483648)%Z.

(** [ReturnsType] of the header. *)
Inductive ReturnsType := kWinLoss | kPointDifference | kTotalPoints.

(** Modelled from the spec: the framework's [PrivateInfoType]
    ([observer.h]) is missing; [kSinglePlayer] is the spec's
    [privateToRequester]. *)
Inductive PrivateInfoType := kNone | kSinglePlayer | kAllPlayers.

(** Modelled from the spec: the framework's [IIGObservationType]
    ([observer.h]) is missing; the spec names the flags [publicInfo],
    [perfectRecall] and [privateToRequester]. *)
Record IIGObservationType := {
  public_info : bool;
  perfect_recall : bool;
  private_info : PrivateInfoType
}.

(** Modelled from the spec: the observation type of the default observer is
    a framework constant; it is the private view without recall, with the
    public information. *)
Definition kDefaultObsType : IIGObservationType :=
  {| public_info := true; perfect_recall := false; private_info := kSinglePlayer |}.

(** Modelled from the spec: the observation type of the information-state
    observer is a framework constant; it is the perfect-recall private view,
    with the public information. *)
Definition kInfoStateObsType : IIGObservationType :=
  {| public_info := true; perfect_recall := true; private_info := kSinglePlayer |}.

(** Header defaults. *)
Definition kDefaultNumPlayers : nat := 2.
Definition kDefaultNumOptions : Z := 15.
Definition kDefaultNumTurns : Z := 100.
Definition kDefaultIntervalSize : R := 0.1.
Definition kDefaultMarginalCost : Z := 1.
Definition kDefaultHorizontalDifferentiation : R := 0.25.
Definition kDefaultOutsideGood : Z := 0.
Definition kDefaultReturnsType : ReturnsType := kTotalPoints.
Definition kDefaultImpInfo : bool := false.
Definition kDefaultEgocentric : bool := false.

(** ** The game descriptor *)

Record BertrandOligopolyGame := {
  g_num_options_ : Z;
  g_num_turns_ : Z;
  g_interval_size_ : R;
  g_marginal_cost_ : Z;
  g_horizontal_differentiation_ : R;
  g_outside_good_ : Z;
  g_num_players_ : nat;
  g_returns_type_ : ReturnsType;
  g_impinfo_ : bool;
  g_egocentric_ : bool
}.

Definition NumPlayers (g : BertrandOligopolyGame) : nat := g_num_players_ g.
Definition NumOptions (g : BertrandOligopolyGame) : Z := g_num_options_ g.
Definition NumRounds (g : BertrandOligopolyGame) : Z := g_num_turns_ g.
Definition IsImpInfo (g : BertrandOligopolyGame) : bool := g_impinfo_ g.

(** ** The state *)

(** The conversion [double -> int] of C++, as in [max_points = points_[p]]:
    truncation toward zero.  When the truncated value does not fit an [int]
    the language leaves the conversion undefined; the value taken here is
    the one the conversion instruction of x86-64 gives, [INT_MIN]. *)
Definition truncate (x : R) : Z :=
  if Rle_dec 0 x then Int_part x else (- Int_part (- x))%Z.

Definition double_to_int (x : R) : Z :=
  let t := truncate x in
  if ((INT_MIN <=? t) && (t <=? INT_MAX))%Z then t else INT_MIN.

(** Fields of [BertrandOligopolyState], in the order of the header, after
    [game_] and [num_players_] which the class inherits from [State]. *)
Record BertrandOligopolyState := {
  game_ : BertrandOligopolyGame;
  num_players_ : nat;
  num_options_ : Z;
  num_turns_ : Z;
  interval_size_ : R;
  marginal_cost_ : Z;
  horizontal_differentiation_ : R;
  vertical_differentiation_ : list R;
  outside_good_ : Z;
  returns_type_ : ReturnsType;
  impinfo_ : bool;
  egocentric_ : bool;
  monopoly_price_ : R;
  nash_price_ : R;
  interval_ : R * R;
  step_size_ : R;
  net_profit_ : list R;
  current_player_ : Z;
  winners_ : gset nat;
  current_turn_ : Z;
  points_ : list R;
  win_sequence_ : list Z;
  actions_history_ : list (list Action)
}.

(** The seven fields that [DoApplyActions] assigns. *)
Definition update (s : BertrandOligopolyState)
    (np : list R) (cp : Z) (w : gset nat) (ct : Z) (pts : list R)
    (ws : list Z) (ah : list (list Action)) : BertrandOligopolyState :=
  {| game_ := game_ s;
     num_players_ := num_players_ s;
     num_options_ := num_options_ s;
     num_turns_ := num_turns_ s;
     interval_size_ := interval_size_ s;
     marginal_cost_ := marginal_cost_ s;
     horizontal_differentiation_ := horizontal_differentiation_ s;
     vertical_differentiation_ := vertical_differentiation_ s;
     outside_good_ := outside_good_ s;
     returns_type_ := returns_type_ s;
     impinfo_ := impinfo_ s;
     egocentric_ := egocentric_ s;
     monopoly_price_ := monopoly_price_ s;
     nash_price_ := nash_price_ s;
     interval_ := interval_ s;
     step_size_ := step_size_ s;
     net_profit_ := np;
     current_player_ := cp;
     winners_ := w;
     current_turn_ := ct;
     points_ := pts;
     win_sequence_ := ws;
     actions_history_ := ah |}.

Definition set_net_profit_ (f : list R -> list R) (s : BertrandOligopolyState) :=
  update s (f (net_profit_ s)) (current_player_ s) (winners_ s) (current_turn_ s)
    (points_ s) (win_sequence_ s) (actions_history_ s).
Definition set_current_player_ (v : Z) (s : BertrandOligopolyState) :=
  update s (net_profit_ s) v (winners_ s) (current_turn_ s)
    (points_ s) (win_sequence_ s) (actions_history_ s).
Definition set_winners_ (f : gset nat -> gset nat) (s : BertrandOligopolyState) :=
  update s (net_profit_ s) (current_player_ s) (f (winners_ s)) (current_turn_ s)
    (points_ s) (win_sequence_ s) (actions_history_ s).
Definition set_current_turn_ (f : Z -> Z) (s : BertrandOligopolyState) :=
  update s (net_profit_ s) (current_player_ s) (winners_ s) (f (current_turn_ s))
    (points_ s) (win_sequence_ s) (actions_history_ s).
Definition set_points_ (f : list R -> list R) (s : BertrandOligopolyState) :=
  update s (net_profit_ s) (current_player_ s) (winners_ s) (current_turn_ s)
    (f (points_ s)) (win_sequence_ s) (actions_history_ s).
Definition set_win_sequence_ (f : list Z -> list Z) (s : BertrandOligopolyState) :=
  update s (net_profit_ s) (current_player_ s) (winners_ s) (current_turn_ s)
    (points_ s) (f (win_sequence_ s)) (actions_history_ s).
Definition set_actions_history_
    (f : list (list Action) -> list (list Action)) (s : BertrandOligopolyState) :=
  update s (net_profit_ s) (current_player_ s) (winners_ s) (current_turn_ s)
    (points_ s) (win_sequence_ s) (f (actions_history_ s)).

(** ** A state monad with fatal errors

    A member function that mutates the state runs in [M]: it receives the
    state and gives back a result and the state it leaves.  [SpielFatalError]
    (raised by a failed [SPIEL_CHECK]) gives back [None] and the state as it
    is at that point, so that what was mutated before the failure shows. *)
Definition M (A : Type) : Type :=
  BertrandOligopolyState -> option A * BertrandOligopolyState.

Definition ret {A} (a : A) : M A := fun s => (Some a, s).
Definition bind {A B} (m : M A) (k : A -> M B) : M B :=
  fun s => match m s with
           | (Some a, s') => k a s'
           | (None, s') => (None, s')
           end.
Definition gets {A} (f : BertrandOligopolyState -> A) : M A := fun s => (Some (f s), s).
Definition modify (f : BertrandOligopolyState -> BertrandOligopolyState) : M unit :=
  fun s => (Some tt, f s).
Definition get : M BertrandOligopolyState := fun s => (Some s, s).
Definition SpielFatalError {A} : M A := fun s => (None, s).
Definition SPIEL_CHECK (b : bool) : M unit := if b then ret tt else SpielFatalError.

Declare Scope m_scope.
Delimit Scope m_scope with M.
Notation "x <- m ;; k" := (bind m (fun x => k))
  (at level 100, m at next level, right associativity) : m_scope.
Notation "m ;; k" := (bind m (fun _ => k))
  (at level 100, right associativity) : m_scope.
Open Scope m_scope.

(** [for (p = 0; p < n; ++p) body(p)]: the body run on each index in turn. *)
Fixpoint for_ {X} (l : list X) (body : X -> M unit) : M unit :=
  match l with
  | [] => ret tt
  | x :: l' => body x ;; for_ l' body
  end.

(** A loop that also carries a local variable of type [A]. *)
Fixpoint for_acc {X A} (l : list X) (body : A -> X -> M A) (a : A) : M A :=
  match l with
  | [] => ret a
  | x :: l' => a' <- body a x ;; for_acc l' body a'
  end.

(** ** Construction *)

(** [BertrandOligopolyState::BertrandOligopolyState]; the base class [State]
    sets [num_players_] to [game->NumPlayers()]. *)
Definition BertrandOligopolyState_new (game : BertrandOligopolyGame) (num_options num_turns : Z)
    (interval_size : R) (marginal_cost : Z) (horizontal_differentiation : R)
    (outside_good : Z) (impinfo egocentric : bool) (returns_type : ReturnsType)
    : option BertrandOligopolyState :=
  if (1 <? num_options)%Z then
    let nash_price := 1.47292%R in
    let monopoly_price := 1.92498%R in
    let first := (nash_price - interval_size * (monopoly_price - nash_price))%R in
    let second := (monopoly_price + interval_size * (monopoly_price - nash_price))%R in
    let num_players := NumPlayers game in
    Some {| game_ := game;
            num_players_ := num_players;
            num_options_ := num_options;
            num_turns_ := num_turns;
            interval_size_ := interval_size;
            marginal_cost_ := marginal_cost;
            horizontal_differentiation_ := horizontal_differentiation;
            vertical_differentiation_ := replicate num_players 2%R;
            outside_good_ := outside_good;
            returns_type_ := returns_type;
            impinfo_ := impinfo;
            egocentric_ := egocentric;
            monopoly_price_ := monopoly_price;
            nash_price_ := nash_price;
            interval_ := (first, second);
            step_size_ := ((second - first) / IZR (num_options - 1))%R;
            net_profit_ := replicate num_players 0%R;
            current_player_ := kSimultaneousPlayerId;
            winners_ := ∅;
            current_turn_ := 0;
            points_ := replicate num_players 0%R;
            win_sequence_ := [];
            actions_history_ := [] |}
  else None.

(** ** Applying a joint action *)

(** The scan for the lowest price: the local variables [min_price],
    [num_min_prices] and [min_actor] after the loop body has run on player
    [p] whose action is [a]. *)
Definition lowest_step (st : Z * Z * Z) (p : nat) (a : Action) : Z * Z * Z :=
  let '(min_price, num_min_prices, min_actor) := st in
  if (a <? min_price)%Z then (to_int a, 1%Z, Z.of_nat p)
  else if (a =? min_price)%Z then (min_price, (num_min_prices + 1)%Z, min_actor)
  else (min_price, num_min_prices, min_actor).

Definition lowest_price (actions : list Action) : Z * Z * Z :=
  foldl (fun st p => lowest_step st p (actions !!! p))
        (INT_MAX, 0%Z, (-1)%Z) (seq 0 (length actions)).

(** [price = (actions[p] * step_size_) + interval_.first]. *)
Definition price_of (s : BertrandOligopolyState) (a : Action) : R :=
  (IZR a * step_size_ s + (interval_ s).1)%R.

(** [exp((vertical_differentiation_[p] - price) / horizontal_differentiation_)]. *)
Definition demand_term (s : BertrandOligopolyState) (p : nat) (a : Action) : R :=
  exp ((vertical_differentiation_ s !!! p - price_of s a)
       / horizontal_differentiation_ s).

(** The local [demand_denominator] after its loop. *)
Definition demand_denominator (s : BertrandOligopolyState) (actions : list Action) : R :=
  foldl (fun d p => (d + demand_term s p (actions !!! p))%R)
        (exp (IZR (outside_good_ s) / horizontal_differentiation_ s))
        (seq 0 (length actions)).

(** The value assigned to [net_profit_[p]]. *)
Definition profit (s : BertrandOligopolyState) (actions : list Action) (p : nat) : R :=
  ((price_of s (actions !!! p) - IZR (marginal_cost_ s))
   * demand_term s p (actions !!! p) / demand_denominator s actions)%R.

(** One iteration of the winner loop; [max_points] is the local [int]. *)
Definition winner_step (max_points : Z) (p : nat) : M Z :=
  pts <- gets points_ ;;
  if Rgt_dec (pts !!! p) (IZR max_points) then
    modify (set_winners_ (fun _ => ∅)) ;;
    let max_points' := double_to_int (pts !!! p) in
    modify (set_winners_ (fun w => {[p]} ∪ w)) ;;
    ret max_points'
  else if Req_dec_T (pts !!! p) (IZR max_points) then
    modify (set_winners_ (fun w => {[p]} ∪ w)) ;;
    ret max_points
  else ret max_points.

(** [BertrandOligopolyState::DoApplyActions]. *)
Definition DoApplyActions (actions : list Action) : M unit :=
  (* Check the actions are valid. *)
  n <- gets num_players_ ;;
  SPIEL_CHECK (Nat.eqb (length actions) n) ;;
  for_ (seq 0 n) (fun p =>
    let action := to_int (actions !!! p) in
    num_options <- gets num_options_ ;;
    SPIEL_CHECK (0 <=? action)%Z ;;
    SPIEL_CHECK (action <? num_options)%Z) ;;
  (* Find the lowest price *)
  let '(min_price, num_min_prices, min_actor) := lowest_price actions in
  (if (num_min_prices =? 1)%Z
   then modify (set_win_sequence_ (fun ws => ws ++ [min_actor]))
   else modify (set_win_sequence_ (fun ws => ws ++ [kInvalidPlayer]))) ;;
  (* do payouts for each actor *)
  denominator <- gets (fun s => demand_denominator s actions) ;;
  for_ (seq 0 (length actions)) (fun p =>
    s <- get ;;
    let price := price_of s (actions !!! p) in
    let v := ((price - IZR (marginal_cost_ s)) * demand_term s p (actions !!! p)
              / denominator)%R in
    modify (set_net_profit_ (fun np => <[p := v]> np)) ;;
    np <- gets net_profit_ ;;
    modify (set_points_ (fun pts => <[p := (pts !!! p + np !!! p)%R]> pts))) ;;
  (* Add these actions to the history. *)
  modify (set_actions_history_ (fun ah => ah ++ [actions])) ;;
  (* Next player's turn. *)
  modify (set_current_turn_ Z.succ) ;;
  current_turn <- gets current_turn_ ;;
  num_turns <- gets num_turns_ ;;
  if (current_turn =? num_turns)%Z then
    (* Game over - determine winner. *)
    n <- gets num_players_ ;;
    for_acc (seq 0 n) winner_step (-1)%Z ;;
    modify (set_current_player_ kTerminalPlayerId)
  else ret tt.

(** [BertrandOligopolyState::IsTerminal]. *)
Definition IsTerminal (s : BertrandOligopolyState) : bool :=
  (current_player_ s =? kTerminalPlayerId)%Z.

(** [BertrandOligopolyState::LegalActions].  The joint-action and chance
    branches hand over to the framework ([LegalFlatJointActions],
    [LegalChanceOutcomes]), which is outside this file; they are kept as
    such.  A player index out of range is a fatal error. *)
Inductive LegalActionsResult :=
| Moves (movelist : list Action)
| LegalFlatJointActions
| LegalChanceOutcomes
| LegalActionsFatal.

Definition LegalActions (s : BertrandOligopolyState) (player : Z) : LegalActionsResult :=
  if (current_player_ s =? kTerminalPlayerId)%Z then Moves []
  else if (player =? kSimultaneousPlayerId)%Z then LegalFlatJointActions
  else if (player =? kChancePlayerId)%Z then LegalChanceOutcomes
  else if negb (0 <=? player)%Z then LegalActionsFatal
  else if negb (player <? Z.of_nat (num_players_ s))%Z then LegalActionsFatal
  else Moves (Z.of_nat <$> seq 0 (Z.to_nat (num_options_ s))).

(** ** Returns *)

(** The [kPointDifference] branch: first loop, on [(returns, sum)]. *)
Definition point_difference_copy (pts : list R) (st : list R * R) (p : nat) : list R * R :=
  let '(returns, sum) := st in
  (<[p := pts !!! p]> returns, (sum + pts !!! p)%R).

(** [BertrandOligopolyState::Returns]. *)
Definition Returns (s : BertrandOligopolyState) : list R :=
  let n := num_players_ s in
  if negb (IsTerminal s) then replicate n 0%R
  else match returns_type_ s with
  | kWinLoss =>
      if Nat.eqb (size (winners_ s)) n then replicate n 0%R
      else
        let num_winners := Z.of_nat (size (winners_ s)) in
        let num_losers := (Z.of_nat n - num_winners)%Z in
        foldl (fun returns winner => <[winner := (1 / IZR num_winners)%R]> returns)
              (replicate n (-1 / IZR num_losers)%R)
              (elements (winners_ s))
  | kPointDifference =>
      let '(returns, sum) :=
        foldl (point_difference_copy (points_ s)) (replicate n 0%R, 0%R) (seq 0 n) in
      foldl (fun returns p => <[p := (returns !!! p - sum / INR n)%R]> returns)
            returns (seq 0 n)
  | kTotalPoints =>
      foldl (fun returns p => <[p := points_ s !!! p]> returns)
            (replicate n 0%R) (seq 0 n)
  end.

(** ** The observers *)

Record BertrandOligopolyObserver := {
  iig_obs_type_ : IIGObservationType;
  obs_egocentric_ : bool
}.

(** [BertrandOligopolyGame::MakeObserver], called by the constructor with the
    parameter [egocentric] set to the game's own flag. *)
Definition MakeObserver (g : BertrandOligopolyGame) (iig_obs_type : option IIGObservationType)
    (egocentric_param : option bool) : BertrandOligopolyObserver :=
  {| iig_obs_type_ := default kDefaultObsType iig_obs_type;
     obs_egocentric_ := default (g_egocentric_ g) egocentric_param |}.

Definition default_observer_ (g : BertrandOligopolyGame) : BertrandOligopolyObserver :=
  MakeObserver g (Some kDefaultObsType) (Some (g_egocentric_ g)).
Definition info_state_observer_ (g : BertrandOligopolyGame) : BertrandOligopolyObserver :=
  MakeObserver g (Some kInfoStateObsType) (Some (g_egocentric_ g)).
Definition private_observer_ (g : BertrandOligopolyGame) : BertrandOligopolyObserver :=
  MakeObserver g
    (Some {| public_info := false; perfect_recall := false; private_info := kSinglePlayer |})
    (Some (g_egocentric_ g)).
Definition public_observer_ (g : BertrandOligopolyGame) : BertrandOligopolyObserver :=
  MakeObserver g
    (Some {| public_info := true; perfect_recall := false; private_info := kNone |})
    (Some (g_egocentric_ g)).

(** [BertrandOligopolyGame::NewInitialState]. *)
Definition NewInitialState (g : BertrandOligopolyGame) : option BertrandOligopolyState :=
  BertrandOligopolyState_new g (g_num_options_ g) (g_num_turns_ g)
    (g_interval_size_ g) (g_marginal_cost_ g) (g_horizontal_differentiation_ g)
    (g_outside_good_ g) (g_impinfo_ g) (g_egocentric_ g) (g_returns_type_ g).

(** [InformationStateTensorShape] and [ObservationTensorShape]. *)
Definition InformationStateTensorShape (g : BertrandOligopolyGame) : list Z :=
  [(Z.of_nat (g_num_players_ g) * g_num_options_ g)%Z].
Definition ObservationTensorShape (g : BertrandOligopolyGame) : list Z :=
  [(Z.of_nat (g_num_players_ g) * g_num_options_ g)%Z].

(** ** Tensors

    The allocator hands out named blocks of a given shape, zero-filled; a
    block is kept as its name, its shape and its cells in row-major order.
    A write at a negative index or past the end of a block is outside the
    C++ language's defined behaviour; here an index past the end leaves the
    block as it is and a negative index counts as 0, and the statements below
    only concern indices inside the block. *)
Record Block := {
  block_name : string;
  block_shape : list Z;
  block_data : list R
}.

Definition shape_size (shape : list Z) : Z := foldr Z.mul 1%Z shape.

(** [allocator->Get(name, shape)]. *)
Definition Allocator_Get (name : string) (shape : list Z) : Block :=
  {| block_name := name; block_shape := shape;
     block_data := replicate (Z.to_nat (shape_size shape)) 0%R |}.

(** [out.at(i) = v] and [out.at(i, j) = v]. *)
Definition at1 (out : Block) (i : nat) (v : R) : Block :=
  {| block_name := block_name out; block_shape := block_shape out;
     block_data := <[i := v]> (block_data out) |}.
Definition at2 (out : Block) (i j : nat) (v : R) : Block :=
  {| block_name := block_name out; block_shape := block_shape out;
     block_data := <[(i * Z.to_nat (block_shape out !!! 1%nat) + j)%nat := v]> (block_data out) |}.

(** [WritePointsTotal]: the loop runs [NumPlayers] times with
    [NextPlayer] advancing the count [n] and the player [p]. *)
Definition WritePointsTotal (g : BertrandOligopolyGame) (s : BertrandOligopolyState)
    (player : nat) : Block :=
  let out := Allocator_Get "point_totals" [Z.of_nat (NumPlayers g)] in
  fst (foldl (fun '(out, p) n =>
                (at1 out n (points_ s !!! p), ((p + 1) mod num_players_ s)%nat))
             (out, player) (seq 0 (NumPlayers g))).

(** [WriteWinSequence]. *)
Definition one_hot_of (o : BertrandOligopolyObserver) (g : BertrandOligopolyGame)
    (w : Z) (player : nat) : Z :=
  if obs_egocentric_ o
  then Z.rem (Z.of_nat (NumPlayers g) + w - Z.of_nat player) (Z.of_nat (NumPlayers g))
  else w.

Definition WriteWinSequence (o : BertrandOligopolyObserver) (g : BertrandOligopolyGame)
    (s : BertrandOligopolyState) (player : nat) : Block :=
  let out := Allocator_Get "win_sequence" [NumRounds g; Z.of_nat (NumPlayers g)] in
  foldl (fun out i =>
           if negb (win_sequence_ s !!! i =? kInvalidPlayer)%Z then
             at2 out i (Z.to_nat (one_hot_of o g (win_sequence_ s !!! i) player)) 1%R
           else out)
        out (seq 0 (length (win_sequence_ s))).

(** [WritePlayerActionSequence]. *)
Definition WritePlayerActionSequence (g : BertrandOligopolyGame)
    (s : BertrandOligopolyState) (player : nat) : Block :=
  let out := Allocator_Get "player_action_sequence" [NumRounds g; NumOptions g] in
  foldl (fun out round =>
           at2 out round (Z.to_nat ((actions_history_ s !!! round) !!! player)) 1%R)
        out (seq 0 (length (actions_history_ s))).

(** [BertrandOligopolyObserver::WriteTensor]: the blocks obtained from the
    allocator, in the order they are requested; [None] when a check on
    [player] fails. *)
Definition WriteTensor (o : BertrandOligopolyObserver)
    (s : BertrandOligopolyState) (player : Z) : option (list Block) :=
  let g := game_ s in
  if negb (0 <=? player)%Z then None
  else if negb (player <? Z.of_nat (NumPlayers g))%Z then None
  else
    let imp_info := IsImpInfo g in
    let pub_info := public_info (iig_obs_type_ o) in
    let perf_rec := perfect_recall (iig_obs_type_ o) in
    let priv_one := match private_info (iig_obs_type_ o) with
                    | kSinglePlayer => true | _ => false end in
    let pl := Z.to_nat player in
    Some ((if pub_info then [WritePointsTotal g s pl] else [])
          ++ (if imp_info && pub_info then [WriteWinSequence o g s pl] else [])
          ++ (if imp_info && perf_rec && priv_one
              then [WritePlayerActionSequence g s pl] else [])).

(** The number of cells of all blocks a call obtained. *)
Definition written_size (blocks : list Block) : nat :=
  foldr (fun b acc => (length (block_data b) + acc)%nat) 0%nat blocks.

(** [State::InformationStateTensor] and [State::ObservationTensor] hand the
    game's observers the state itself. *)
Definition InformationStateTensor (s : BertrandOligopolyState) (player : Z) :=
  WriteTensor (info_state_observer_ (game_ s)) s player.
Definition ObservationTensor (s : BertrandOligopolyState) (player : Z) :=
  WriteTensor (default_observer_ (game_ s)) s player.

(** ** What one application leaves behind

    The effect of [DoApplyActions], statement by statement, as a function on
    states; [DoApplyActions_run] below shows that the monadic program
    computes exactly this when its checks pass. *)

(** What the checks of [DoApplyActions] test: one entry per player, each of
    which, copied into an [int], lies in [[0, num_options_)]. *)
Definition checked_actionsb (s : BertrandOligopolyState) (actions : list Action) : bool :=
  Nat.eqb (length actions) (num_players_ s)
  && forallb (fun p => (0 <=? to_int (actions !!! p))%Z
                       && (to_int (actions !!! p) <? num_options_ s)%Z)
             (seq 0 (num_players_ s)).

Definition checked_actions (s : BertrandOligopolyState) (actions : list Action) : Prop :=
  length actions = num_players_ s
  /\ forall (p : nat) (a : Action),
       actions !! p = Some a -> (0 <= to_int a < num_options_ s)%Z.

(** A valid joint action: one entry per player, each in [[0, num_options_)]. *)
Definition valid_actionsb (s : BertrandOligopolyState) (actions : list Action) : bool :=
  Nat.eqb (length actions) (num_players_ s)
  && forallb (fun p => (0 <=? actions !!! p)%Z && (actions !!! p <? num_options_ s)%Z)
             (seq 0 (num_players_ s)).

Definition valid_actions (s : BertrandOligopolyState) (actions : list Action) : Prop :=
  length actions = num_players_ s
  /\ forall (p : nat) (a : Action), actions !! p = Some a -> (0 <= a < num_options_ s)%Z.

(** The entry pushed on [win_sequence_]. *)
Definition win_entry (actions : list Action) : Z :=
  let '(min_price, num_min_prices, min_actor) := lowest_price actions in
  if (num_min_prices =? 1)%Z then min_actor else kInvalidPlayer.

(** One iteration of the payout loop. *)
Definition payout_step (actions : list Action) (denominator : R)
    (s : BertrandOligopolyState) (p : nat) : BertrandOligopolyState :=
  let price := price_of s (actions !!! p) in
  let v := ((price - IZR (marginal_cost_ s)) * demand_term s p (actions !!! p)
            / denominator)%R in
  let s1 := set_net_profit_ (fun np => <[p := v]> np) s in
  set_points_ (fun pts => <[p := (pts !!! p + net_profit_ s1 !!! p)%R]> pts) s1.

(** One iteration of the winner loop on [(max_points, winners_)]. *)
Definition winner_scan (pts : list R) (st : Z * gset nat) (p : nat) : Z * gset nat :=
  let '(max_points, w) := st in
  if Rgt_dec (pts !!! p) (IZR max_points) then (double_to_int (pts !!! p), {[p]} ∪ ∅)
  else if Req_dec_T (pts !!! p) (IZR max_points) then (max_points, {[p]} ∪ w)
  else (max_points, w).

Definition find_winners (pts : list R) (n : nat) (w : gset nat) : gset nat :=
  (foldl (winner_scan pts) ((-1)%Z, w) (seq 0 n)).2.

Definition apply_result (s : BertrandOligopolyState) (actions : list Action)
    : BertrandOligopolyState :=
  let s1 := set_win_sequence_ (fun ws => ws ++ [win_entry actions]) s in
  let s2 := foldl (payout_step actions (demand_denominator s1 actions)) s1
                  (seq 0 (length actions)) in
  let s3 := set_actions_history_ (fun ah => ah ++ [actions]) s2 in
  let s4 := set_current_turn_ Z.succ s3 in
  if (current_turn_ s4 =? num_turns_ s4)%Z then
    set_current_player_ kTerminalPlayerId
      (set_winners_ (fun _ => find_winners (points_ s4) (num_players_ s4) (winners_ s4)) s4)
  else s4.

(** The payout loop on the two vectors it assigns, [(net_profit_, points_)];
    the other fields it reads are those of [s]. *)
Definition payout_value (s : BertrandOligopolyState) (actions : list Action)
    (denominator : R) (p : nat) : R :=
  ((price_of s (actions !!! p) - IZR (marginal_cost_ s))
   * demand_term s p (actions !!! p) / denominator)%R.

Definition payout_lists (s : BertrandOligopolyState) (actions : list Action)
    (denominator : R) (st : list R * list R) (p : nat) : list R * list R :=
  let np' := <[p := payout_value s actions denominator p]> st.1 in
  (np', <[p := (st.2 !!! p + np' !!! p)%R]> st.2).

(** ** Well-formed and reachable states *)

(** What the constructor establishes about the per-player vectors. *)
Definition wf (s : BertrandOligopolyState) : Prop :=
  length (net_profit_ s) = num_players_ s
  /\ length (points_ s) = num_players_ s
  /\ vertical_differentiation_ s = replicate (num_players_ s) 2%R.

(** The states of a play of game [g]: the initial state, and what a valid
    joint action (every entry one of the player's legal actions) applied to
    a state that is not terminal leaves. *)
Inductive reachable (g : BertrandOligopolyGame) : BertrandOligopolyState -> Prop :=
| reachable_init (s0 : BertrandOligopolyState) :
    NewInitialState g = Some s0 -> reachable g s0
| reachable_step (s s' : BertrandOligopolyState) (actions : list Action) :
    reachable g s -> IsTerminal s = false ->
    valid_actions s actions ->
    DoApplyActions actions s = (Some tt, s') -> reachable g s'.

(** A run: joint actions applied one after the other, whether or not a
    state on the way is terminal. *)
Definition play (history : list (list Action)) : M unit := for_ history DoApplyActions.

(** What every state left by a run satisfies, whether or not the run went on
    past the terminal state. *)
Definition run_inv (s : BertrandOligopolyState) : Prop :=
  wf s /\ (IsTerminal s = true -> (num_turns_ s <= current_turn_ s)%Z).

(** The state [BertrandOligopolyState_new] builds for a game, without the
    check on [num_options]. *)
Definition initial_state (g : BertrandOligopolyGame) : BertrandOligopolyState :=
  let first := (1.47292 - g_interval_size_ g * (1.92498 - 1.47292))%R in
  let second := (1.92498 + g_interval_size_ g * (1.92498 - 1.47292))%R in
  {| game_ := g;
     num_players_ := g_num_players_ g;
     num_options_ := g_num_options_ g;
     num_turns_ := g_num_turns_ g;
     interval_size_ := g_interval_size_ g;
     marginal_cost_ := g_marginal_cost_ g;
     horizontal_differentiation_ := g_horizontal_differentiation_ g;
     vertical_differentiation_ := replicate (g_num_players_ g) 2%R;
     outside_good_ := g_outside_good_ g;
     returns_type_ := g_returns_type_ g;
     impinfo_ := g_impinfo_ g;
     egocentric_ := g_egocentric_ g;
     monopoly_price_ := 1.92498%R;
     nash_price_ := 1.47292%R;
     interval_ := (first, second);
     step_size_ := ((second - first) / IZR (g_num_options_ g - 1))%R;
     net_profit_ := replicate (g_num_players_ g) 0%R;
     current_player_ := kSimultaneousPlayerId;
     winners_ := ∅;
     current_turn_ := 0;
     points_ := replicate (g_num_players_ g) 0%R;
     win_sequence_ := [];
     actions_history_ := [] |}.

(** ** Who set the lowest price *)

(** Player [p] plays an action that no other action undercuts. *)
Definition attains_min (actions : list Action) (p : nat) : Prop :=
  exists a, actions !! p = Some a /\ forall q b, actions !! q = Some b -> (a <= b)%Z.

Definition unique_min (actions : list Action) (p : nat) : Prop :=
  attains_min actions p /\ forall q, attains_min actions q -> q = p.

Definition tied_min (actions : list Action) : Prop :=
  exists p q, p <> q /\ attains_min actions p /\ attains_min actions q.

(** The invariant of the scan after [m] players. *)
Definition lowest_inv (actions : list Action) (m : nat) (st : Z * Z * Z) : Prop :=
  let '(min_price, num_min_prices, min_actor) := st in
  (forall q b, (q < m)%nat -> actions !! q = Some b -> (min_price <= b)%Z)
  /\ num_min_prices
     = Z.of_nat (length (filter (fun q => actions !!! q = min_price) (seq 0 m)))
  /\ (m = 0%nat -> min_price = INT_MAX)
  /\ ((0 < m)%nat ->
      exists j, (j < m)%nat /\ min_actor = Z.of_nat j /\ actions !! j = Some min_price).

(** ** The logit demand model, as the specification states it

    [denominator = exp(outsideGoodUtility / h) + sum_q exp((vertical - price[q]) / h)]
    and [profit[p] = (price[p] - marginalCost) * exp((vertical - price[p]) / h)
    / denominator], for one [vertical] shared by all players. *)

(** The sum of a vector of doubles. *)
Definition sum_R (l : list R) : R := foldr Rplus 0%R l.

Definition logit_denominator (outside_good_utility h vertical : R) (prices : list R) : R :=
  (exp (outside_good_utility / h)
   + sum_R ((fun price => exp ((vertical - price) / h)) <$> prices))%R.

Definition logit_profit (marginal_cost outside_good_utility h vertical : R)
    (prices : list R) (p : nat) : R :=
  ((prices !!! p - marginal_cost) * exp ((vertical - prices !!! p) / h)
   / logit_denominator outside_good_utility h vertical prices)%R.

(** ** Maximal points *)

(** Player [p] holds the maximum of [pts]. *)
Definition holds_max (pts : list R) (p : nat) : Prop :=
  exists x, pts !! p = Some x /\ forall q y, pts !! q = Some y -> (y <= x)%R.

(** ** The win_sequence tensor, as the specification states it *)

(** The column holding the 1.0 of a round won by [w], seen by [requester]. *)
Definition win_column (egocentric : bool) (n : nat) (w : Z) (requester : nat) : Z :=
  if egocentric then ((Z.of_nat n + w - Z.of_nat requester) mod Z.of_nat n)%Z else w.

(** The cell of row [i], column [c]. *)
Definition win_cell (egocentric : bool) (n : nat) (win_sequence : list Z)
    (requester i c : nat) : R :=
  match win_sequence !! i with
  | Some w =>
      if (w =? kInvalidPlayer)%Z then 0%R
      else if (Z.of_nat c =? win_column egocentric n w requester)%Z then 1%R else 0%R
  | None => 0%R
  end.

(** Every recorded winner is NONE or a player index. *)
Definition winners_recorded (n : nat) (win_sequence : list Z) : Prop :=
  forall i w, win_sequence !! i = Some w ->
    w = kInvalidPlayer \/ (0 <= w < Z.of_nat n)%Z.

(** Two blocks of the same name, shape and number of cells. *)
Definition same_extent (a b : Block) : Prop :=
  block_name a = block_name b
  /\ block_shape a = block_shape b
  /\ length (block_data a) = length (block_data b).

(** ** Concrete games used in the examples *)

(** A two-player game with the header's defaults for the cost and demand
    parameters. *)
Definition game_with (num_options num_turns : Z) (returns_type : ReturnsType)
    (impinfo egocentric : bool) : BertrandOligopolyGame :=
  {| g_num_options_ := num_options;
     g_num_turns_ := num_turns;
     g_interval_size_ := kDefaultIntervalSize;
     g_marginal_cost_ := kDefaultMarginalCost;
     g_horizontal_differentiation_ := kDefaultHorizontalDifferentiation;
     g_outside_good_ := kDefaultOutsideGood;
     g_num_players_ := kDefaultNumPlayers;
     g_returns_type_ := returns_type;
     g_impinfo_ := impinfo;
     g_egocentric_ := egocentric |}.

(** The game with the header's default parameters. *)
Definition default_game : BertrandOligopolyGame :=
  game_with kDefaultNumOptions kDefaultNumTurns kDefaultReturnsType
            kDefaultImpInfo kDefaultEgocentric.

(** The default game with the imperfect-information variant on. *)
Definition imperfect_default_game : BertrandOligopolyGame :=
  game_with kDefaultNumOptions kDefaultNumTurns kDefaultReturnsType true kDefaultEgocentric.

(** The default game with no round to play. *)
Definition zero_round_game : BertrandOligopolyGame :=
  game_with kDefaultNumOptions 0 kDefaultReturnsType kDefaultImpInfo kDefaultEgocentric.

(** Five price levels, one round. *)
Definition one_round_game : BertrandOligopolyGame :=
  game_with 5 1 kDefaultReturnsType kDefaultImpInfo kDefaultEgocentric.

(** Five price levels, one round, imperfect information, egocentric view. *)
Definition egocentric_one_round_game : BertrandOligopolyGame :=
  game_with 5 1 kDefaultReturnsType true true.

(** Five price levels, one round, scored by win/loss, and a terminal state
    of that game in which player 0 alone is in winners_. *)
Definition win_loss_game : BertrandOligopolyGame :=
  game_with 5 1 kWinLoss kDefaultImpInfo kDefaultEgocentric.

Definition win_loss_final : BertrandOligopolyState :=
  update (initial_state win_loss_game) [2%R; 1%R] kTerminalPlayerId {[0%nat]} 1
         [2%R; 1%R] [0%Z] [[0%Z; 4%Z]].

(** ** The rest of the game descriptor *)

(** The derived attributes the game constructor computes: [interval_] and
    [step_size_], from the same two reference prices as the state. *)
Definition g_interval_ (g : BertrandOligopolyGame) : R * R :=
  let nash_price := 1.47292%R in
  let monopoly_price := 1.92498%R in
  ((nash_price - g_interval_size_ g * (monopoly_price - nash_price))%R,
   (monopoly_price + g_interval_size_ g * (monopoly_price - nash_price))%R).

Definition g_step_size_ (g : BertrandOligopolyGame) : R :=
  (((g_interval_ g).2 - (g_interval_ g).1) / IZR (g_num_options_ g - 1))%R.

(** [BertrandOligopolyGame::MinUtility]. *)
Definition MinUtility (g : BertrandOligopolyGame) : R :=
  match g_returns_type_ g with
  | kWinLoss => (-1)%R
  | kPointDifference => 0%R
  | kTotalPoints =>
      if Rlt_dec ((g_interval_ g).1 - IZR (g_marginal_cost_ g)) 0
      then (((g_interval_ g).1 - IZR (g_marginal_cost_ g)) * IZR (g_num_turns_ g))%R
      else 0%R
  end.

(** [BertrandOligopolyGame::MaxUtility]. *)
Definition MaxUtility (g : BertrandOligopolyGame) : R :=
  match g_returns_type_ g with
  | kWinLoss => 1%R
  | kPointDifference => ((1.92498 - IZR (g_marginal_cost_ g)) * IZR (g_num_turns_ g))%R
  | kTotalPoints => ((1.92498 - IZR (g_marginal_cost_ g)) * IZR (g_num_turns_ g))%R
  end.

(** [BertrandOligopolyGame::UtilitySum]: [None] is [absl::nullopt]. *)
Definition UtilitySum (g : BertrandOligopolyGame) : option R :=
  match g_returns_type_ g with
  | kTotalPoints => None
  | _ => Some 0%R
  end.

(** [MaxGameLength], [NumDistinctActions], [MaxChanceOutcomes] and
    [MaxChanceNodesInHistory]. *)
Definition MaxGameLength (g : BertrandOligopolyGame) : Z := g_num_turns_ g.
Definition NumDistinctActions (g : BertrandOligopolyGame) : Z := g_num_options_ g.
Definition MaxChanceOutcomes (g : BertrandOligopolyGame) : Z := 0.
Definition MaxChanceNodesInHistory (g : BertrandOligopolyGame) : Z := 0.

(** [ParseReturnsType]: [None] is the fatal error on an unrecognized name. *)
Definition ParseReturnsType (returns_type_str : string) : option ReturnsType :=
  if String.eqb returns_type_str "win_loss" then Some kWinLoss
  else if String.eqb returns_type_str "point_difference" then Some kPointDifference
  else if String.eqb returns_type_str "total_points" then Some kTotalPoints
  else None.

(** ** The rest of the state *)

(** [BertrandOligopolyState::CurrentPlayer]. *)
Definition CurrentPlayer (s : BertrandOligopolyState) : Z := current_player_ s.

(** [BertrandOligopolyState::NextPlayer]: the new [(count, player)]. *)
Definition NextPlayer (s : BertrandOligopolyState) (count player : nat) : nat * nat :=
  ((count + 1)%nat, ((player + 1) mod num_players_ s)%nat).

(** [BertrandOligopolyState::Clone]: the copy constructor copies every field
    by value. *)
Definition Clone (s : BertrandOligopolyState) : BertrandOligopolyState := s.

(** ** Relations used in the statements below *)

(** Two states with the same fixed parameters: every field that
    [DoApplyActions] only reads. *)
Definition same_params (s s' : BertrandOligopolyState) : Prop :=
  game_ s' = game_ s
  /\ num_players_ s' = num_players_ s
  /\ num_options_ s' = num_options_ s
  /\ num_turns_ s' = num_turns_ s
  /\ interval_size_ s' = interval_size_ s
  /\ marginal_cost_ s' = marginal_cost_ s
  /\ horizontal_differentiation_ s' = horizontal_differentiation_ s
  /\ vertical_differentiation_ s' = vertical_differentiation_ s
  /\ outside_good_ s' = outside_good_ s
  /\ returns_type_ s' = returns_type_ s
  /\ interval_ s' = interval_ s
  /\ step_size_ s' = step_size_ s.

(** The share of demand of player [p]. *)
Definition share (s : BertrandOligopolyState) (actions : list Action) (p : nat) : R :=
  (demand_term s p (actions !!! p) / demand_denominator s actions)%R.

(** The share of demand left to the outside good. *)
Definition outside_share (s : BertrandOligopolyState) (actions : list Action) : R :=
  (exp (IZR (outside_good_ s) / horizontal_differentiation_ s)
   / demand_denominator s actions)%R.

(** Action [a] is among the legal actions of [player]. *)
Definition is_legal (s : BertrandOligopolyState) (player : Z) (a : Action) : Prop :=
  exists movelist, LegalActions s player = Moves movelist /\ a ∈ movelist.

(** Five price levels, one round, scored by win/loss, with a marginal cost
    of 5, above every price of the grid. *)
Definition costly_game : BertrandOligopolyGame :=
  {| g_num_options_ := 5;
     g_num_turns_ := 1;
     g_interval_size_ := kDefaultIntervalSize;
     g_marginal_cost_ := 5;
     g_horizontal_differentiation_ := kDefaultHorizontalDifferentiation;
     g_outside_good_ := kDefaultOutsideGood;
     g_num_players_ := kDefaultNumPlayers;
     g_returns_type_ := kWinLoss;
     g_impinfo_ := kDefaultImpInfo;
     g_egocentric_ := kDefaultEgocentric |}.

(** Every entry of [pts] is a non-negative whole number that fits an [int]. *)
Definition whole_points (pts : list R) : Prop :=
  forall p x, pts !! p = Some x -> exists z, (0 <= z <= INT_MAX)%Z /\ x = IZR z.

(** A state of the default game holding given points, as the winner loop
    finds it. *)
Definition state_with_points (pts : list R) : BertrandOligopolyState :=
  update (initial_state (game_with 5 1 kWinLoss false false))
         [0%R; 0%R] kSimultaneousPlayerId ∅ 1 pts [] [].


(** Five price levels, one round, scored by point difference. *)
Definition point_difference_game : BertrandOligopolyGame :=
  game_with 5 1 kPointDifference kDefaultImpInfo kDefaultEgocentric.

(** ** Two players seen from either seat *)

(** The entry of [win_sequence_] once the two players change seats. *)
Definition other_player (w : Z) : Z :=
  if (w =? kInvalidPlayer)%Z then kInvalidPlayer else (1 - w)%Z.

(** Two states of the same game that differ by the players changing seats. *)
Definition mirrored (s s' : BertrandOligopolyState) : Prop :=
  same_params s s'
  /\ points_ s' = reverse (points_ s)
  /\ win_sequence_ s' = other_player <$> win_sequence_ s
  /\ actions_history_ s' = reverse <$> actions_history_ s.

(** What a run of a two-player game keeps. *)
Definition two_player_inv (s : BertrandOligopolyState) : Prop :=
  wf s
  /\ num_players_ s = 2%nat
  /\ NumPlayers (game_ s) = 2%nat
  /\ (num_options_ s <= INT_MAX)%Z
  /\ winners_recorded 2 (win_sequence_ s)
  /\ Forall (fun actions : list Action => length actions = 2%nat) (actions_history_ s).

(** ** binary64 beyond the real numbers

    The round profit once more, on doubles that can overflow: a value is a
    real number, an infinity or NaN, and an operation whose exact result
    exceeds the largest double in magnitude gives an infinity, as IEEE 754
    has it.  The rounding of a result inside the range, and the sign of
    zero, are still left out: a finite result here is the exact one, and the
    threshold is [DBL_MAX] itself rather than half a unit in the last place
    above it, which the statements below do not come near. *)
Inductive double :=
| Finite (x : R)
| Infinity (negative : bool)
| NaN.

(** [DBL_MAX] of [<cfloat>], (2^53 - 1) * 2^971. *)
Definition DBL_MAX : R := IZR (9007199254740991 * 2 ^ 971).

(** The double an operation returns when its exact result is [x]. *)
Definition overflow (x : R) : double :=
  if Rlt_dec DBL_MAX x then Infinity false
  else if Rlt_dec x (- DBL_MAX) then Infinity true
  else Finite x.

Definition negative_R (x : R) : bool := if Rlt_dec x 0 then true else false.

Definition d_neg (a : double) : double :=
  match a with
  | Finite x => Finite (- x)
  | Infinity n => Infinity (negb n)
  | NaN => NaN
  end.

Definition d_add (a b : double) : double :=
  match a, b with
  | NaN, _ | _, NaN => NaN
  | Finite x, Finite y => overflow (x + y)
  | Infinity n, Finite _ | Finite _, Infinity n => Infinity n
  | Infinity n, Infinity m => if Bool.eqb n m then Infinity n else NaN
  end.

Definition d_sub (a b : double) : double := d_add a (d_neg b).

Definition d_mul (a b : double) : double :=
  match a, b with
  | NaN, _ | _, NaN => NaN
  | Finite x, Finite y => overflow (x * y)
  | Infinity n, Finite x | Finite x, Infinity n =>
      if Req_dec_T x 0 then NaN else Infinity (xorb n (negative_R x))
  | Infinity n, Infinity m => Infinity (xorb n m)
  end.

Definition d_div (a b : double) : double :=
  match a, b with
  | NaN, _ | _, NaN => NaN
  | Finite x, Finite y =>
      if Req_dec_T y 0
      then (if Req_dec_T x 0 then NaN else Infinity (negative_R x))
      else overflow (x / y)
  | Finite _, Infinity _ => Finite 0
  | Infinity n, Finite y => Infinity (xorb n (negative_R y))
  | Infinity _, Infinity _ => NaN
  end.

(** [exp] of [<cmath>]. *)
Definition d_exp (a : double) : double :=
  match a with
  | Finite x => overflow (exp x)
  | Infinity false => Infinity false
  | Infinity true => Finite 0
  | NaN => NaN
  end.

(** The conversion of an integer to [double]. *)
Definition d_of_int (z : Z) : double := Finite (IZR z).

(** [std::isfinite]. *)
Definition is_finite (a : double) : Prop := exists x, a = Finite x.

(** The payout of [DoApplyActions] on these doubles; the fields of the
    state hold finite doubles. *)
Definition price_d (s : BertrandOligopolyState) (a : Action) : double :=
  d_add (d_mul (d_of_int a) (Finite (step_size_ s))) (Finite (interval_ s).1).

Definition demand_term_d (s : BertrandOligopolyState) (p : nat) (a : Action) : double :=
  d_exp (d_div (d_sub (Finite (vertical_differentiation_ s !!! p)) (price_d s a))
               (Finite (horizontal_differentiation_ s))).

Definition demand_denominator_d (s : BertrandOligopolyState) (actions : list Action)
    : double :=
  foldl (fun d p => d_add d (demand_term_d s p (actions !!! p)))
        (d_exp (d_div (d_of_int (outside_good_ s))
                      (Finite (horizontal_differentiation_ s))))
        (seq 0 (length actions)).

Definition profit_d (s : BertrandOligopolyState) (actions : list Action) (p : nat)
    : double :=
  d_div (d_mul (d_sub (price_d s (actions !!! p)) (d_of_int (marginal_cost_ s)))
               (demand_term_d s p (actions !!! p)))
        (demand_denominator_d s actions).

(** Parameters for which no exponential of the payout overflows; the
    header's defaults lie inside. *)
Definition moderate_parameters (g : BertrandOligopolyGame) : Prop :=
  (1 / 100 <= g_horizontal_differentiation_ g)%R
  /\ (-1 / 2 <= g_interval_size_ g <= 10)%R
  /\ (-1000000 <= g_marginal_cost_ g <= 1000000)%Z
  /\ (-5 <= g_outside_good_ g <= 5)%Z
  /\ (Z.of_nat (g_num_players_ g) <= 1000000)%Z.

(** Five price levels, one round, the header's defaults otherwise, and a
    small positive horizontal differentiation. *)
Definition steep_game : BertrandOligopolyGame :=
  {| g_num_options_ := 5;
     g_num_turns_ := 1;
     g_interval_size_ := kDefaultIntervalSize;
     g_marginal_cost_ := kDefaultMarginalCost;
     g_horizontal_differentiation_ := 0.0005;
     g_outside_good_ := kDefaultOutsideGood;
     g_num_players_ := kDefaultNumPlayers;
     g_returns_type_ := kDefaultReturnsType;
     g_impinfo_ := kDefaultImpInfo;
     g_egocentric_ := kDefaultEgocentric |}.
(** ** Loops in the monad *)

Lemma for_pure {X} (f : BertrandOligopolyState -> X -> BertrandOligopolyState)
    (body : X -> M unit) (l : list X) :
  (forall x s, body x s = (Some tt, f s x)) ->
  forall s, for_ l body s = (Some tt, foldl f s l).
Proof.
  intros Hbody. induction l as [|x l IH]; intros s; simpl; [reflexivity|].
  unfold bind. rewrite Hbody. apply IH.
Qed.

Lemma for_check {X} (c : BertrandOligopolyState -> X -> bool)
    (body : X -> M unit) (l : list X) (s : BertrandOligopolyState) :
  (forall x, body x s = (if c s x then Some tt else None, s)) ->
  for_ l body s = (if forallb (c s) l then Some tt else None, s).
Proof.
  intros Hbody. induction l as [|x l IH]; simpl; [reflexivity|].
  unfold bind. rewrite Hbody. destruct (c s x); simpl; [apply IH | reflexivity].
Qed.

Lemma for_acc_winner (l : list nat) :
  forall (s : BertrandOligopolyState) (mp : Z),
    for_acc l winner_step mp s
    = (Some (foldl (winner_scan (points_ s)) (mp, winners_ s) l).1,
       set_winners_ (fun _ => (foldl (winner_scan (points_ s)) (mp, winners_ s) l).2) s).
Proof.
  induction l as [|p l IH]; intros s mp; simpl.
  - unfold ret, set_winners_. destruct s; reflexivity.
  - unfold bind at 1. unfold winner_step at 1. unfold bind, gets, modify, ret.
    destruct (Rgt_dec (points_ s !!! p) (IZR mp)) as [Hgt|Hgt].
    + rewrite IH. simpl. reflexivity.
    + destruct (Req_dec_T (points_ s !!! p) (IZR mp)) as [Heq|Heq].
      * rewrite IH. simpl. reflexivity.
      * rewrite IH. reflexivity.
Qed.

(** ** [DoApplyActions] computes [apply_result] or fails on the spot *)

Lemma DoApplyActions_run (s : BertrandOligopolyState) (actions : list Action) :
  DoApplyActions actions s
  = if checked_actionsb s actions then (Some tt, apply_result s actions) else (None, s).
Proof.
  unfold DoApplyActions, checked_actionsb.
  unfold bind at 1. unfold gets at 1.
  unfold bind at 1. unfold SPIEL_CHECK at 1.
  destruct (Nat.eqb (length actions) (num_players_ s)) eqn:En; simpl; [|reflexivity].
  unfold ret at 1. unfold bind at 1.
  rewrite (for_check
    (fun s p => (0 <=? to_int (actions !!! p))%Z
                && (to_int (actions !!! p) <? num_options_ s)%Z)).
  2:{ intros p. unfold bind, gets, SPIEL_CHECK, ret, SpielFatalError.
      destruct (0 <=? to_int (actions !!! p))%Z; simpl; [|reflexivity].
      destruct (to_int (actions !!! p) <? num_options_ s)%Z; reflexivity. }
  destruct (forallb _ _); [|reflexivity].
  unfold apply_result, win_entry.
  destruct (lowest_price actions) as [[min_price num_min_prices] min_actor].
  assert (H1 : (if (num_min_prices =? 1)%Z
                then modify (set_win_sequence_ (fun ws => ws ++ [min_actor]))
                else modify (set_win_sequence_ (fun ws => ws ++ [kInvalidPlayer]))) s
               = (Some tt, set_win_sequence_
                    (fun ws => ws ++ [if (num_min_prices =? 1)%Z
                                      then min_actor else kInvalidPlayer]) s))
    by (destruct (num_min_prices =? 1)%Z; reflexivity).
  unfold bind at 1. rewrite H1. clear H1.
  set (s1 := set_win_sequence_ _ s).
  unfold bind at 1. unfold gets at 1. unfold bind at 1.
  rewrite (for_pure (payout_step actions (demand_denominator s1 actions)))
    by (intros; reflexivity).
  set (s2 := foldl _ s1 _).
  unfold bind at 1. unfold modify at 1.
  unfold bind at 1. unfold modify at 1.
  set (s4 := set_current_turn_ Z.succ _).
  unfold bind at 1. unfold gets at 1. unfold bind at 1. unfold gets at 1.
  destruct (current_turn_ s4 =? num_turns_ s4)%Z; [|reflexivity].
  unfold bind at 1. unfold gets at 1. unfold bind at 1.
  rewrite for_acc_winner. reflexivity.
Qed.

(** ** The payout loop *)

Lemma payout_fold (actions : list Action) (d : R) (l : list nat) :
  forall s : BertrandOligopolyState,
    foldl (payout_step actions d) s l
    = let NP := foldl (payout_lists s actions d) (net_profit_ s, points_ s) l in
      update s NP.1 (current_player_ s) (winners_ s) (current_turn_ s) NP.2
             (win_sequence_ s) (actions_history_ s).
Proof.
  induction l as [|p l IH]; intros s.
  - destruct s; reflexivity.
  - simpl foldl. rewrite IH. reflexivity.
Qed.

Lemma payout_lists_fold (s : BertrandOligopolyState) (actions : list Action) (d : R)
    (np pts : list R) (m : nat) :
  (m <= length np)%nat -> (m <= length pts)%nat ->
  foldl (payout_lists s actions d) (np, pts) (seq 0 m)
  = ((payout_value s actions d <$> seq 0 m) ++ drop m np,
     ((fun p => (pts !!! p + payout_value s actions d p)%R) <$> seq 0 m) ++ drop m pts).
Proof.
  induction m as [|m IH]; intros Hnp Hpts.
  - simpl. rewrite !drop_0. reflexivity.
  - rewrite seq_S, foldl_app, IH by lia. simpl.
    unfold payout_lists. simpl.
    destruct (lookup_lt_is_Some_2 np m) as [x Hx]; [lia|].
    destruct (lookup_lt_is_Some_2 pts m) as [y Hy]; [lia|].
    assert (Hl1 : length (payout_value s actions d <$> seq 0 m) = m)
      by (rewrite length_fmap, length_seq; reflexivity).
    assert (Hl2 : length ((fun p => (pts !!! p + payout_value s actions d p)%R) <$> seq 0 m) = m)
      by (rewrite length_fmap, length_seq; reflexivity).
    rewrite (drop_S np x m Hx), (drop_S pts y m Hy).
    rewrite !insert_app_r_alt by lia. rewrite Hl1, Hl2, Nat.sub_diag. simpl.
    rewrite !fmap_app. simpl. rewrite <- !app_assoc. simpl.
    f_equal. f_equal. f_equal.
    rewrite !list_lookup_total_middle by (symmetry; assumption).
    rewrite (list_lookup_total_correct pts m y Hy). reflexivity.
Qed.

(** ** The fields after one application *)

Lemma apply_result_eq (s : BertrandOligopolyState) (actions : list Action) :
  wf s -> length actions = num_players_ s ->
  apply_result s actions
  = let n := num_players_ s in
    let pts := (fun p => (points_ s !!! p + profit s actions p)%R) <$> seq 0 n in
    let over := (Z.succ (current_turn_ s) =? num_turns_ s)%Z in
    update s (profit s actions <$> seq 0 n)
      (if over then kTerminalPlayerId else current_player_ s)
      (if over then find_winners pts n (winners_ s) else winners_ s)
      (Z.succ (current_turn_ s)) pts
      (win_sequence_ s ++ [win_entry actions])
      (actions_history_ s ++ [actions]).
Proof.
  intros (Hnp & Hpts & _) Hlen. unfold apply_result.
  rewrite payout_fold. cbn zeta.
  rewrite Hlen.
  change (net_profit_ (set_win_sequence_ _ s)) with (net_profit_ s).
  change (points_ (set_win_sequence_ _ s)) with (points_ s).
  rewrite payout_lists_fold by lia.
  rewrite (drop_ge (net_profit_ s)), (drop_ge (points_ s)), !app_nil_r by lia.
  cbn [fst snd]. unfold set_actions_history_, set_current_turn_, set_winners_,
    set_current_player_, set_win_sequence_. simpl.
  destruct (Z.succ (current_turn_ s) =? num_turns_ s)%Z; reflexivity.
Qed.

Lemma apply_result_wf (s : BertrandOligopolyState) (actions : list Action) :
  wf s -> length actions = num_players_ s -> wf (apply_result s actions).
Proof.
  intros Hwf Hlen. rewrite apply_result_eq by assumption.
  destruct Hwf as (Hnp & Hpts & Hv). unfold wf. simpl.
  rewrite !length_fmap, !length_seq. auto.
Qed.

Lemma checked_actionsb_length (s : BertrandOligopolyState) (actions : list Action) :
  checked_actionsb s actions = true -> length actions = num_players_ s.
Proof.
  unfold checked_actionsb. intros H. apply andb_prop in H as [H _].
  apply Nat.eqb_eq. exact H.
Qed.

Lemma checked_actionsb_spec (s : BertrandOligopolyState) (actions : list Action) :
  checked_actionsb s actions = true <-> checked_actions s actions.
Proof.
  unfold checked_actionsb, checked_actions.
  rewrite andb_true_iff, Nat.eqb_eq, forallb_forall.
  split.
  - intros [Hlen Hall]. split; [exact Hlen|]. intros p a Hp.
    assert (Hlt : (p < num_players_ s)%nat)
      by (rewrite <- Hlen; eapply lookup_lt_Some; eassumption).
    specialize (Hall p). rewrite in_seq in Hall. specialize (Hall ltac:(lia)).
    rewrite (list_lookup_total_correct _ _ _ Hp) in Hall.
    apply andb_prop in Hall as [H1 H2]. lia.
  - intros [Hlen Hall]. split; [exact Hlen|]. intros p Hp. apply in_seq in Hp.
    destruct (lookup_lt_is_Some_2 actions p) as [a Ha]; [lia|].
    rewrite (list_lookup_total_correct _ _ _ Ha).
    specialize (Hall p a Ha). apply andb_true_intro. split; lia.
Qed.

(** An integer that fits an [int] is copied unchanged. *)
Lemma to_int_small (a : Z) : (INT_MIN <= a <= INT_MAX)%Z -> to_int a = a.
Proof.
  unfold INT_MIN, INT_MAX, to_int. intros Ha.
  rewrite Z.mod_small by lia. lia.
Qed.

Lemma to_int_range (a : Z) : (INT_MIN <= to_int a <= INT_MAX)%Z.
Proof.
  unfold INT_MIN, INT_MAX, to_int.
  pose proof (Z.mod_pos_bound (a + 2147483648) 4294967296 ltac:(lia)). lia.
Qed.

(** A valid joint action passes the checks: [num_options_] is an [int]. *)
Lemma valid_actions_checked (s : BertrandOligopolyState) (actions : list Action) :
  (num_options_ s <= INT_MAX)%Z -> valid_actions s actions -> checked_actions s actions.
Proof.
  intros Hmax [Hlen Hall]. split; [exact Hlen|]. intros p a Hp.
  specialize (Hall p a Hp).
  rewrite to_int_small by (unfold INT_MIN, INT_MAX in *; lia). exact Hall.
Qed.

Lemma DoApplyActions_valid (s : BertrandOligopolyState) (actions : list Action) :
  (num_options_ s <= INT_MAX)%Z -> valid_actions s actions ->
  DoApplyActions actions s = (Some tt, apply_result s actions).
Proof.
  intros Hmax Hvalid. rewrite DoApplyActions_run.
  rewrite (proj2 (checked_actionsb_spec s actions)); [reflexivity|].
  apply valid_actions_checked; assumption.
Qed.

(** A run of [DoApplyActions] that returns has passed the checks. *)
Lemma DoApplyActions_Some (s s' : BertrandOligopolyState) (actions : list Action) :
  DoApplyActions actions s = (Some tt, s') ->
  s' = apply_result s actions /\ checked_actions s actions.
Proof.
  rewrite DoApplyActions_run. destruct (checked_actionsb s actions) eqn:Hv; [|discriminate].
  intros [= <-]. split; [reflexivity|]. apply checked_actionsb_spec. exact Hv.
Qed.

Lemma valid_actionsb_spec (s : BertrandOligopolyState) (actions : list Action) :
  valid_actionsb s actions = true <-> valid_actions s actions.
Proof.
  unfold valid_actionsb, valid_actions. rewrite andb_true_iff, Nat.eqb_eq, forallb_forall.
  split.
  - intros [Hlen Hall]. split; [exact Hlen|]. intros p a Hp.
    assert (Hlt : (p < num_players_ s)%nat)
      by (rewrite <- Hlen; eapply lookup_lt_Some; eassumption).
    specialize (Hall p). rewrite in_seq in Hall. specialize (Hall ltac:(lia)).
    rewrite (list_lookup_total_correct _ _ _ Hp) in Hall.
    apply andb_prop in Hall as [H1 H2]. lia.
  - intros [Hlen Hall]. split; [exact Hlen|]. intros p Hp. apply in_seq in Hp.
    destruct (lookup_lt_is_Some_2 actions p) as [a Ha]; [lia|].
    rewrite (list_lookup_total_correct _ _ _ Ha).
    specialize (Hall p a Ha). apply andb_true_intro. split; lia.
Qed.

Lemma NewInitialState_wf (g : BertrandOligopolyGame) (s0 : BertrandOligopolyState) :
  NewInitialState g = Some s0 -> wf s0.
Proof.
  unfold NewInitialState, BertrandOligopolyState_new.
  destruct (1 <? g_num_options_ g)%Z; [|discriminate].
  intros [= <-]. unfold wf. simpl. rewrite !length_replicate. auto.
Qed.

Lemma reachable_wf (g : BertrandOligopolyGame) (s : BertrandOligopolyState) :
  reachable g s -> wf s.
Proof.
  induction 1 as [s0 H0 | s s' actions _ IH _ Hvalid Hrun].
  - eapply NewInitialState_wf; eassumption.
  - apply DoApplyActions_Some in Hrun as [-> _].
    apply apply_result_wf; [exact IH | exact (proj1 Hvalid)].
Qed.

(** ** The scan for the lowest price *)

Lemma filter_none {A} (P : A -> Prop) `{forall x, Decision (P x)} (l : list A) :
  (forall x, x ∈ l -> ~ P x) -> filter P l = [].
Proof.
  induction l as [|x l IH]; intros Hl; [reflexivity|].
  rewrite filter_cons_False by (apply Hl; left).
  apply IH. intros y Hy. apply Hl. right. exact Hy.
Qed.

Lemma lowest_price_inv (actions : list Action) (m : nat) :
  (forall q b, actions !! q = Some b -> (0 <= b < INT_MAX)%Z) ->
  (m <= length actions)%nat ->
  lowest_inv actions m
    (foldl (fun st p => lowest_step st p (actions !!! p))
           (INT_MAX, 0%Z, (-1)%Z) (seq 0 m)).
Proof.
  intros Hmax. induction m as [|m IH]; intros Hm.
  - simpl. repeat split; try lia.
  - rewrite seq_S, foldl_app. simpl.
    specialize (IH ltac:(lia)).
    destruct (foldl _ _ (seq 0 m)) as [[mp k] ma].
    destruct IH as (Hle & Hk & H0 & Hj).
    destruct (lookup_lt_is_Some_2 actions m) as [a Ha]; [lia|].
    rewrite (list_lookup_total_correct _ _ _ Ha).
    unfold lowest_step.
    rewrite (to_int_small a)
      by (specialize (Hmax _ _ Ha); unfold INT_MIN, INT_MAX in *; lia).
    destruct (a <? mp)%Z eqn:Hlt; [|destruct (a =? mp)%Z eqn:Heq];
      unfold lowest_inv; rewrite seq_S, filter_app, length_app; simpl seq.
    + apply Z.ltb_lt in Hlt. repeat split.
      * intros q b Hq Hb. destruct (decide (q = m)) as [Hqm|Hne].
        -- subst q. assert (b = a) by congruence. lia.
        -- specialize (Hle q b ltac:(lia) Hb). lia.
      * rewrite (filter_none _ (seq 0 m)); cycle 1.
        { intros q Hin Hq. apply elem_of_seq in Hin.
          destruct (lookup_lt_is_Some_2 actions q) as [b Hb]; [lia|].
          rewrite (list_lookup_total_correct _ _ _ Hb) in Hq.
          specialize (Hle q b ltac:(lia) Hb). lia. }
        rewrite filter_cons_True by (rewrite (list_lookup_total_correct _ _ _ Ha); reflexivity).
        reflexivity.
      * lia.
      * intros _. exists m. repeat split; [lia | exact Ha].
    + apply Z.eqb_eq in Heq. subst mp. repeat split.
      * intros q b Hq Hb. destruct (decide (q = m)) as [Hqm|Hne].
        -- subst q. assert (b = a) by congruence. lia.
        -- apply (Hle q b); [lia | exact Hb].
      * rewrite filter_cons_True by (rewrite (list_lookup_total_correct _ _ _ Ha); reflexivity).
        simpl. lia.
      * lia.
      * intros _. destruct m as [|m'].
        -- specialize (H0 eq_refl). specialize (Hmax _ _ Ha). lia.
        -- destruct (Hj ltac:(lia)) as (j & Hjm & Hma & Hjv).
           exists j. repeat split; [lia | exact Hma | exact Hjv].
    + apply Z.ltb_ge in Hlt. apply Z.eqb_neq in Heq. repeat split.
      * intros q b Hq Hb. destruct (decide (q = m)) as [Hqm|Hne].
        -- subst q. assert (b = a) by congruence. lia.
        -- apply (Hle q b); [lia | exact Hb].
      * rewrite filter_cons_False
          by (rewrite (list_lookup_total_correct _ _ _ Ha); exact Heq).
        simpl. lia.
      * lia.
      * intros _. destruct m as [|m'].
        -- specialize (H0 eq_refl). specialize (Hmax _ _ Ha). lia.
        -- destruct (Hj ltac:(lia)) as (j & Hjm & Hma & Hjv).
           exists j. repeat split; [lia | exact Hma | exact Hjv].
Qed.

Lemma lowest_price_attains (actions : list Action) (mp k ma : Z) :
  (forall q b, actions !! q = Some b -> (0 <= b < INT_MAX)%Z) ->
  lowest_price actions = (mp, k, ma) ->
  forall q, attains_min actions q
            <-> q ∈ filter (fun q => actions !!! q = mp) (seq 0 (length actions)).
Proof.
  intros Hmax Hlow q.
  pose proof (lowest_price_inv actions (length actions) Hmax (Nat.le_refl _)) as Hinv.
  unfold lowest_price in Hlow. rewrite Hlow in Hinv.
  destruct Hinv as (Hle & _ & _ & Hj).
  rewrite list_elem_of_filter, elem_of_seq. split.
  - intros (a & Ha & Hmin).
    pose proof (lookup_lt_Some _ _ _ Ha) as Hq.
    destruct (Hj ltac:(lia)) as (j & Hjn & _ & Hjv).
    pose proof (Hmin j mp Hjv). pose proof (Hle q a Hq Ha).
    rewrite (list_lookup_total_correct _ _ _ Ha). split; lia.
  - intros [Hv Hq]. destruct (lookup_lt_is_Some_2 actions q) as [a Ha]; [lia|].
    rewrite (list_lookup_total_correct _ _ _ Ha) in Hv. subst a.
    exists mp. split; [exact Ha|]. intros r b Hb.
    apply (Hle r b); [eapply lookup_lt_Some; eassumption | exact Hb].
Qed.

Lemma win_entry_unique (actions : list Action) (p : nat) :
  (forall q b, actions !! q = Some b -> (0 <= b < INT_MAX)%Z) ->
  unique_min actions p -> win_entry actions = Z.of_nat p.
Proof.
  intros Hmax [Hp Huniq]. unfold win_entry.
  destruct (lowest_price actions) as [[mp k] ma] eqn:Hlow.
  pose proof (lowest_price_attains actions mp k ma Hmax Hlow) as Hatt.
  pose proof (lowest_price_inv actions (length actions) Hmax (Nat.le_refl _)) as Hinv.
  unfold lowest_price in Hlow. rewrite Hlow in Hinv.
  destruct Hinv as (Hle & Hk & _ & Hj).
  assert (Hn : (0 < length actions)%nat).
  { destruct Hp as (a & Ha & _). apply lookup_lt_Some in Ha. lia. }
  destruct (Hj Hn) as (j & Hjn & Hma & Hjv).
  assert (Hjp : j = p).
  { apply Huniq. exists mp. split; [exact Hjv|]. intros r b Hb.
    apply (Hle r b); [eapply lookup_lt_Some; eassumption | exact Hb]. }
  assert (Hnd : NoDup (filter (fun q => actions !!! q = mp) (seq 0 (length actions))))
    by (apply NoDup_filter, NoDup_seq).
  assert (Hk1 : k = 1%Z).
  { rewrite Hk.
    destruct (filter _ _) as [|x [|y L]] eqn:HL.
    - apply Hatt in Hp. inversion Hp.
    - reflexivity.
    - assert (x = p) by (apply Huniq, Hatt; left).
      assert (y = p) by (apply Huniq, Hatt; right; left).
      subst x y. apply NoDup_cons in Hnd as [Hnot _]. exfalso. apply Hnot. left. }
  rewrite Hk1. simpl. congruence.
Qed.

Lemma win_entry_tied (actions : list Action) :
  (forall q b, actions !! q = Some b -> (0 <= b < INT_MAX)%Z) ->
  tied_min actions -> win_entry actions = kInvalidPlayer.
Proof.
  intros Hmax (p & q & Hpq & Hp & Hq). unfold win_entry.
  destruct (lowest_price actions) as [[mp k] ma] eqn:Hlow.
  pose proof (lowest_price_attains actions mp k ma Hmax Hlow) as Hatt.
  pose proof (lowest_price_inv actions (length actions) Hmax (Nat.le_refl _)) as Hinv.
  unfold lowest_price in Hlow. rewrite Hlow in Hinv.
  destruct Hinv as (_ & Hk & _ & _).
  apply Hatt in Hp, Hq.
  destruct (filter _ _) as [|x [|y L]] eqn:HL.
  - inversion Hp.
  - apply list_elem_of_singleton in Hp, Hq. congruence.
  - simpl in Hk. replace (k =? 1)%Z with false; [reflexivity|].
    symmetry. apply Z.eqb_neq. lia.
Qed.

Lemma apply_result_win_sequence (s : BertrandOligopolyState) (actions : list Action) :
  win_sequence_ (apply_result s actions) = win_sequence_ s ++ [win_entry actions].
Proof.
  unfold apply_result. rewrite payout_fold. cbn zeta.
  destruct (_ =? _)%Z; reflexivity.
Qed.

Lemma NewInitialState_eq (g : BertrandOligopolyGame) :
  NewInitialState g
  = if (1 <? g_num_options_ g)%Z then Some (initial_state g) else None.
Proof. reflexivity. Qed.

Lemma valid_actions_below_INT_MAX (s : BertrandOligopolyState) (actions : list Action) :
  valid_actions s actions -> (num_options_ s <= INT_MAX)%Z ->
  forall q b, actions !! q = Some b -> (0 <= b < INT_MAX)%Z.
Proof. intros [_ Hall] Hmax q b Hb. specialize (Hall q b Hb). lia. Qed.

(** ** Tie and win detection *)

(** C4: applying a valid joint action appends exactly one entry to
    win_sequence_: the index of the player whose action is the unique minimum
    when there is one, and kInvalidPlayer (NONE) when two or more players tie
    for the minimum.  ([num_options_] is a C++ [int], hence at most INT_MAX.)
    The accompanying witness runs the two scenarios of the claim: five
    options, one round, joint actions [0,4] and [2,2]. *)
Theorem win_sequence_records_lowest_price
    (s : BertrandOligopolyState) (actions : list Action) :
  valid_actions s actions -> (num_options_ s <= INT_MAX)%Z ->
  exists s' e,
    DoApplyActions actions s = (Some tt, s')
    /\ win_sequence_ s' = win_sequence_ s ++ [e]
    /\ (forall p, unique_min actions p -> e = Z.of_nat p)
    /\ (tied_min actions -> e = kInvalidPlayer).
Proof.
  intros Hvalid Hmax.
  pose proof (valid_actions_below_INT_MAX s actions Hvalid Hmax) as Hlt.
  exists (apply_result s actions), (win_entry actions).
  rewrite (DoApplyActions_valid s actions Hmax Hvalid).
  split; [reflexivity|]. split; [apply apply_result_win_sequence|]. split.
  - intros p Hp. apply win_entry_unique; assumption.
  - intros Ht. apply win_entry_tied; assumption.
Qed.

Lemma win_sequence_records_lowest_price_witness :
  (exists s', DoApplyActions [0; 4]%Z (initial_state one_round_game) = (Some tt, s')
              /\ win_sequence_ s' = [0%Z])
  /\ (exists s', DoApplyActions [2; 2]%Z (initial_state one_round_game) = (Some tt, s')
                 /\ win_sequence_ s' = [kInvalidPlayer]).
Proof.
  assert (Hv : forall a b : Z, (0 <= a < 5)%Z -> (0 <= b < 5)%Z ->
               valid_actions (initial_state one_round_game) [a; b]).
  { intros a b Ha Hb. split; [reflexivity|].
    intros [|[|p]] x; simpl; intros [= <-]; assumption. }
  split.
  - destruct (win_sequence_records_lowest_price (initial_state one_round_game) [0; 4]%Z)
      as (s' & e & Hrun & Hws & Huniq & _).
    + apply Hv; lia.
    + vm_compute. discriminate.
    + exists s'. split; [exact Hrun|]. rewrite Hws. simpl.
      rewrite (Huniq 0%nat); [reflexivity|]. split.
      * exists 0%Z. split; [reflexivity|].
        intros [|[|q]] b; simpl; intros [= <-]; lia.
      * intros [|[|q]] (a & Ha & Hmin); [reflexivity | | discriminate].
        simpl in Ha. injection Ha as <-. specialize (Hmin 0%nat 0%Z eq_refl). lia.
  - destruct (win_sequence_records_lowest_price (initial_state one_round_game) [2; 2]%Z)
      as (s' & e & Hrun & Hws & _ & Htie).
    + apply Hv; lia.
    + vm_compute. discriminate.
    + exists s'. split; [exact Hrun|]. rewrite Hws. simpl.
      rewrite Htie; [reflexivity|].
      exists 0%nat, 1%nat. split; [lia|].
      split; exists 2%Z; (split; [reflexivity|]);
        intros [|[|q]] b; simpl; intros [= <-]; lia.
Defined.

(** ** Rounds, histories and termination *)

Lemma apply_result_frame (s : BertrandOligopolyState) (actions : list Action) :
  let s' := apply_result s actions in
  game_ s' = game_ s
  /\ num_players_ s' = num_players_ s
  /\ num_options_ s' = num_options_ s
  /\ num_turns_ s' = num_turns_ s
  /\ current_turn_ s' = Z.succ (current_turn_ s)
  /\ actions_history_ s' = actions_history_ s ++ [actions]
  /\ current_player_ s'
     = (if (Z.succ (current_turn_ s) =? num_turns_ s)%Z
        then kTerminalPlayerId else current_player_ s)
  /\ (if (Z.succ (current_turn_ s) =? num_turns_ s)%Z
      then True else winners_ s' = winners_ s).
Proof.
  unfold apply_result. rewrite payout_fold. cbn zeta.
  unfold set_actions_history_, set_current_turn_, set_winners_,
    set_current_player_, set_win_sequence_. simpl.
  destruct (Z.succ (current_turn_ s) =? num_turns_ s)%Z; simpl; repeat split.
Qed.

Lemma valid_actions_frame (s s' : BertrandOligopolyState) (actions : list Action) :
  num_players_ s' = num_players_ s -> num_options_ s' = num_options_ s ->
  valid_actions s actions -> valid_actions s' actions.
Proof. unfold valid_actions. intros -> ->. auto. Qed.

(** ** Validation precedes every side effect *)

(** What the checks reject is rejected on the spot: the failing run returns
    the state it was given. *)
Lemma rejected_without_mutation (s : BertrandOligopolyState) (actions : list Action) :
  (length actions <> num_players_ s
   \/ exists p a, actions !! p = Some a /\ ~ (0 <= to_int a < num_options_ s)%Z) ->
  DoApplyActions actions s = (None, s).
Proof.
  intros Hbad. rewrite DoApplyActions_run.
  destruct (checked_actionsb s actions) eqn:Hv; [|reflexivity].
  apply checked_actionsb_spec in Hv as [Hlen Hall].
  destruct Hbad as [Hne | (p & a & Ha & Hout)].
  - contradiction.
  - exfalso. apply Hout. exact (Hall p a Ha).
Qed.

(** C7: the code at the failing input.  Two players, five price levels, one
    round, joint action [4294967296, 0]: the first entry lies outside
    [0, num_options_) and is none of the legal actions of player 0, yet
    DoApplyActions returns normally, because the check is made on the copy
    of the entry in an int, which is 0.  The state is modified: the joint
    action is recorded in actions_history_ as given, win_sequence_ gets an
    entry, current_turn_ advances, the state becomes terminal, and player 0
    is charged the price of the entry as given, far above the interval.
    The same checks do reject the entry 5 and a joint action of three
    entries, leaving the state as it was. *)
Theorem out_of_range_action_accepted :
  let s0 := initial_state one_round_game in
  let actions := [4294967296; 0]%Z in
  ~ valid_actions s0 actions
  /\ LegalActions s0 0 = Moves [0; 1; 2; 3; 4]%Z
  /\ to_int 4294967296 = 0%Z
  /\ exists s',
       DoApplyActions actions s0 = (Some tt, s')
       /\ actions_history_ s' = [actions]
       /\ win_sequence_ s' = [1%Z]
       /\ current_turn_ s' = 1%Z
       /\ IsTerminal s' = true
       /\ s' <> s0
       /\ ((interval_ s0).2 < price_of s0 4294967296)%R
       /\ DoApplyActions [5; 0]%Z s0 = (None, s0)
       /\ DoApplyActions [0; 1; 2]%Z s0 = (None, s0).
Proof.
  cbv zeta. split; [|split; [reflexivity|split; [reflexivity|]]].
  - intros [_ Hall]. specialize (Hall 0%nat 4294967296%Z eq_refl).
    cbv in Hall. destruct Hall as [_ Hlt]. discriminate Hlt.
  - exists (apply_result (initial_state one_round_game) [4294967296; 0]%Z).
    split; [rewrite DoApplyActions_run; reflexivity|].
    pose proof (apply_result_frame (initial_state one_round_game) [4294967296; 0]%Z)
      as (_ & _ & _ & _ & Fct & Fah & Fcp & _).
    split; [exact Fah|].
    split; [rewrite apply_result_win_sequence; reflexivity|].
    split; [exact Fct|].
    split; [unfold IsTerminal; rewrite Fcp; reflexivity|].
    split; [intros Heq; rewrite Heq in Fct; cbv in Fct; discriminate Fct|].
    unfold price_of, initial_state, one_round_game, game_with.
    cbn [interval_ step_size_ fst snd g_interval_size_ g_num_options_].
    split; [unfold kDefaultIntervalSize; change (5 - 1)%Z with 4%Z; lra|].
    split; apply rejected_without_mutation.
    + right. exists 0%nat, 5%Z. split; [reflexivity|]. cbv. intros [_ H]. discriminate H.
    + left. cbv. discriminate.
Qed.

(** What every state of a play satisfies. *)
Lemma reachable_rounds (g : BertrandOligopolyGame) (s : BertrandOligopolyState) :
  reachable g s ->
  game_ s = g
  /\ num_players_ s = g_num_players_ g
  /\ num_options_ s = g_num_options_ g
  /\ num_turns_ s = g_num_turns_ g
  /\ length (win_sequence_ s) = length (actions_history_ s)
  /\ Z.of_nat (length (actions_history_ s)) = current_turn_ s
  /\ (IsTerminal s = true -> current_turn_ s = num_turns_ s)
  /\ (IsTerminal s = false ->
      current_player_ s = kSimultaneousPlayerId
      /\ ((1 <= num_turns_ s)%Z -> (current_turn_ s < num_turns_ s)%Z)).
Proof.
  induction 1 as [s0 H0 | s s' actions _ IH Hnt Hvalid Hrun].
  - rewrite NewInitialState_eq in H0.
    destruct (1 <? g_num_options_ g)%Z; [|discriminate].
    injection H0 as <-. simpl. repeat split; try reflexivity; try discriminate. lia.
  - apply DoApplyActions_Some in Hrun as [-> _].
    destruct IH as (Hg & Hn & Ho & Ht & Hlen & Hct & _ & Hopen).
    destruct (Hopen Hnt) as [Hcp Hlt].
    pose proof (apply_result_frame s actions) as (Fg & Fn & Fo & Ft & Fct & Fah & Fcp & _).
    rewrite apply_result_win_sequence, Fg, Fn, Fo, Ft, Fct, Fah.
    rewrite !length_app. simpl.
    unfold IsTerminal. rewrite Fcp, Hcp.
    destruct (Z.succ (current_turn_ s) =? num_turns_ s)%Z eqn:Hover.
    + apply Z.eqb_eq in Hover. repeat split; try assumption; try lia.
    + apply Z.eqb_neq in Hover. repeat split; try assumption; try lia.
      intros Hf. vm_compute in Hf. discriminate.
Qed.

Lemma play_reaches (g : BertrandOligopolyGame) (history : list (list Action)) :
  forall s : BertrandOligopolyState,
    reachable g s -> (1 <= g_num_turns_ g)%Z -> (g_num_options_ g <= INT_MAX)%Z ->
    Forall (valid_actions s) history ->
    (current_turn_ s + Z.of_nat (length history) <= g_num_turns_ g)%Z ->
    exists s', play history s = (Some tt, s')
               /\ reachable g s'
               /\ current_turn_ s' = (current_turn_ s + Z.of_nat (length history))%Z.
Proof.
  induction history as [|actions history IH]; intros s Hreach Hturns Hmax Hvalid Hlen.
  - exists s. simpl. repeat split; [exact Hreach | lia].
  - apply Forall_cons in Hvalid as [Hv Hrest]. simpl in Hlen.
    pose proof (reachable_rounds g s Hreach) as (_ & _ & Ho & Ht & _ & _ & Hterm & _).
    assert (Hopen : IsTerminal s = false).
    { destruct (IsTerminal s) eqn:E; [|reflexivity]. specialize (Hterm eq_refl). lia. }
    assert (Hrun : DoApplyActions actions s = (Some tt, apply_result s actions)).
    { apply DoApplyActions_valid; [rewrite Ho; exact Hmax | exact Hv]. }
    pose proof (apply_result_frame s actions) as (_ & Fn & Fo & _ & Fct & _).
    destruct (IH (apply_result s actions)) as (s' & Hplay & Hreach' & Hct').
    + eapply reachable_step; eassumption.
    + exact Hturns.
    + exact Hmax.
    + eapply Forall_impl; [exact Hrest|]. intros a Ha.
      eapply valid_actions_frame; [exact Fn | exact Fo | exact Ha].
    + rewrite Fct. lia.
    + exists s'. unfold play in *. simpl. unfold bind. rewrite Hrun.
      repeat split; [exact Hplay | exact Hreach' | rewrite Hct', Fct; lia].
Qed.

(** C5 (amended): in a game with at least one round, every state of a play
    (valid joint actions applied from the initial state, each to a state
    that is not terminal) has as many win_sequence_ entries as recorded joint
    actions, and that many is current_turn_; it is terminal exactly when
    current_turn_ equals num_turns_, and then the history holds num_turns_
    joint actions.  Moreover every run of at most num_turns_ valid joint
    actions from the initial state goes through, and the state it leaves is
    terminal exactly when the run has num_turns_ joint actions: terminal after
    num_turns_ applications, not terminal after any shorter prefix.
    (num_options_ is a C++ int, hence at most INT_MAX: the checks are made
    on each entry copied into an int, which leaves a valid entry as it is.) *)
Theorem termination_after_num_turns
    (g : BertrandOligopolyGame) (s0 : BertrandOligopolyState) :
  (1 <= g_num_turns_ g)%Z ->
  (g_num_options_ g <= INT_MAX)%Z ->
  NewInitialState g = Some s0 ->
  (forall s, reachable g s ->
     length (win_sequence_ s) = length (actions_history_ s)
     /\ Z.of_nat (length (actions_history_ s)) = current_turn_ s
     /\ (IsTerminal s = true <-> current_turn_ s = num_turns_ s)
     /\ (IsTerminal s = true ->
         Z.of_nat (length (actions_history_ s)) = g_num_turns_ g))
  /\ (forall history,
        Forall (valid_actions s0) history ->
        (Z.of_nat (length history) <= g_num_turns_ g)%Z ->
        exists s, play history s0 = (Some tt, s)
                  /\ reachable g s
                  /\ current_turn_ s = Z.of_nat (length history)
                  /\ (IsTerminal s = true
                      <-> Z.of_nat (length history) = g_num_turns_ g)).
Proof.
  intros Hturns Hmax Hinit.
  assert (Hinv : forall s, reachable g s ->
     length (win_sequence_ s) = length (actions_history_ s)
     /\ Z.of_nat (length (actions_history_ s)) = current_turn_ s
     /\ (IsTerminal s = true <-> current_turn_ s = num_turns_ s)
     /\ (IsTerminal s = true ->
         Z.of_nat (length (actions_history_ s)) = g_num_turns_ g)).
  { intros s Hreach.
    pose proof (reachable_rounds g s Hreach)
      as (_ & _ & _ & Ht & Hlen & Hct & Hterm & Hopen).
    repeat split; try assumption.
    - intros Heq. destruct (IsTerminal s) eqn:E; [reflexivity|].
      destruct (Hopen eq_refl) as [_ Hlt]. lia.
    - intros Hyes. rewrite Hct, (Hterm Hyes). exact Ht. }
  split; [exact Hinv|].
  intros history Hvalid Hlen.
  pose proof (reachable_init g s0 Hinit) as Hreach0.
  pose proof (reachable_rounds g s0 Hreach0) as (_ & _ & _ & _ & _ & Hct0 & _).
  assert (Hzero : current_turn_ s0 = 0%Z).
  { rewrite NewInitialState_eq in Hinit.
    destruct (1 <? g_num_options_ g)%Z; [|discriminate].
    injection Hinit as <-. reflexivity. }
  destruct (play_reaches g history s0 Hreach0 Hturns Hmax Hvalid)
    as (s & Hplay & Hreach & Hct).
  { lia. }
  exists s. rewrite Hzero in Hct. simpl in Hct.
  pose proof (reachable_rounds g s Hreach) as (_ & _ & _ & Ht & _).
  destruct (Hinv s Hreach) as (_ & _ & Hiff & _).
  repeat split; try assumption.
  - intros Hyes. apply Hiff in Hyes. lia.
  - intros Heq. apply Hiff. lia.
Qed.

Lemma termination_after_num_turns_witness :
  exists s, play [[0; 4]%Z] (initial_state one_round_game) = (Some tt, s)
            /\ IsTerminal s = true
            /\ length (actions_history_ s) = 1%nat
            /\ IsTerminal (initial_state one_round_game) = false.
Proof.
  destruct (termination_after_num_turns one_round_game (initial_state one_round_game))
    as [Hinv Hrun].
  - cbv. discriminate.
  - cbv. discriminate.
  - reflexivity.
  - destruct (Hrun [[0; 4]%Z]) as (s & Hplay & Hreach & Hct & Hterm).
    + constructor; [|constructor]. split; [reflexivity|].
      intros [|[|p]] a; simpl; intros [= <-]; lia.
    + simpl. lia.
    + exists s. destruct (Hinv s Hreach) as (_ & Hlen & _ & _).
      split; [exact Hplay|]. split; [apply (proj2 Hterm); reflexivity|].
      split; [|reflexivity]. rewrite Hct in Hlen. simpl in Hlen. lia.
Defined.

(** C5, the claim as stated fails: with num_turns = 0 the initial state has
    current_turn_ = num_turns_ and yet is not terminal. *)
Lemma zero_round_game_never_terminal_at_start :
  NewInitialState zero_round_game = Some (initial_state zero_round_game)
  /\ reachable zero_round_game (initial_state zero_round_game)
  /\ current_turn_ (initial_state zero_round_game)
     = num_turns_ (initial_state zero_round_game)
  /\ IsTerminal (initial_state zero_round_game) = false
  /\ ~ (IsTerminal (initial_state zero_round_game) = true
        <-> current_turn_ (initial_state zero_round_game)
            = num_turns_ (initial_state zero_round_game)).
Proof.
  assert (H0 : NewInitialState zero_round_game = Some (initial_state zero_round_game))
    by reflexivity.
  repeat split; try reflexivity.
  - apply reachable_init. exact H0.
  - intros [_ H]. specialize (H eq_refl). discriminate H.
Qed.

(** ** Returns *)

Lemma foldl_insert_const {A} (v : A) (l : list nat) :
  forall (r0 : list A) (p : nat),
    foldl (fun r w => <[w := v]> r) r0 l !! p
    = if decide (p ∈ l) then (if decide (p < length r0)%nat then Some v else None)
      else r0 !! p.
Proof.
  induction l as [|w l IH]; intros r0 p; simpl.
  - destruct (decide (p ∈ [])) as [Hin|_]; [inversion Hin | reflexivity].
  - rewrite IH, length_insert.
    destruct (decide (p ∈ w :: l)) as [Hin'|Hnin'];
      destruct (decide (p ∈ l)) as [Hin|Hnin]; try reflexivity.
    + apply elem_of_cons in Hin' as [->|Hin']; [|contradiction].
      destruct (decide (w < length r0)%nat) as [Hlt|Hge].
      * apply list_lookup_insert_eq. exact Hlt.
      * rewrite list_insert_ge by lia. apply lookup_ge_None. lia.
    + exfalso. apply Hnin'. right. exact Hin.
    + apply list_lookup_insert_ne. intros ->. apply Hnin'. left.
Qed.

Lemma foldl_insert_const_length {A} (v : A) (l : list nat) :
  forall r0 : list A, length (foldl (fun r w => <[w := v]> r) r0 l) = length r0.
Proof.
  induction l as [|w l IH]; intros r0; simpl; [reflexivity|].
  rewrite IH. apply length_insert.
Qed.

(** C3: Returns is the all-zero vector of length num_players_ on a state
    that is not terminal; on a terminal state scored by kWinLoss it is the
    all-zero vector when every player is a winner, and otherwise it gives
    each winner 1/|winners_| and every other player
    -1/(num_players_ - |winners_|). *)
Theorem returns_win_loss (s : BertrandOligopolyState) :
  (IsTerminal s = false -> Returns s = replicate (num_players_ s) 0%R)
  /\ (IsTerminal s = true -> returns_type_ s = kWinLoss ->
      (size (winners_ s) = num_players_ s ->
       Returns s = replicate (num_players_ s) 0%R)
      /\ (size (winners_ s) <> num_players_ s ->
          length (Returns s) = num_players_ s
          /\ forall p, (p < num_players_ s)%nat ->
               Returns s !! p
               = Some (if decide (p ∈ winners_ s)
                       then (1 / IZR (Z.of_nat (size (winners_ s))))%R
                       else (-1 / IZR (Z.of_nat (num_players_ s)
                                       - Z.of_nat (size (winners_ s))))%R))).
Proof.
  unfold Returns. split.
  - intros ->. reflexivity.
  - intros -> ->. simpl. split.
    + intros Hall. apply Nat.eqb_eq in Hall. rewrite Hall. reflexivity.
    + intros Hnot. apply Nat.eqb_neq in Hnot. rewrite Hnot. split.
      * rewrite foldl_insert_const_length. apply length_replicate.
      * intros p Hp. rewrite foldl_insert_const, length_replicate.
        destruct (decide (p ∈ winners_ s)) as [Hin|Hnin].
        -- destruct (decide (p ∈ elements (winners_ s))) as [_|Hc];
             [|exfalso; apply Hc, elem_of_elements; exact Hin].
           destruct (decide (p < num_players_ s)%nat); [reflexivity | contradiction].
        -- destruct (decide (p ∈ elements (winners_ s))) as [Hc|_];
             [exfalso; apply Hnin, elem_of_elements; exact Hc|].
           apply lookup_replicate_2. exact Hp.
Qed.

Lemma returns_win_loss_witness :
  Returns (initial_state win_loss_game) = [0%R; 0%R]
  /\ Returns win_loss_final !! 0%nat = Some (1 / 1)%R
  /\ Returns win_loss_final !! 1%nat = Some (-1 / 1)%R.
Proof.
  split.
  - apply (proj1 (returns_win_loss (initial_state win_loss_game))). reflexivity.
  - destruct (proj2 (returns_win_loss win_loss_final) eq_refl eq_refl) as [_ Hsome].
    assert (Hsize : size (winners_ win_loss_final) = 1%nat) by (vm_compute; reflexivity).
    assert (Hn : num_players_ win_loss_final = 2%nat) by reflexivity.
    rewrite Hsize, Hn in Hsome.
    destruct Hsome as [_ Hat]; [lia|].
    split.
    + rewrite (Hat 0%nat) by lia.
      rewrite decide_True by (simpl; set_solver). reflexivity.
    + rewrite (Hat 1%nat) by lia.
      rewrite decide_False by (simpl; set_solver). reflexivity.
Defined.

Lemma foldl_insert_seq {A} `{Inhabited A} (F : A -> nat -> A) (r0 : list A) (m : nat) :
  (m <= length r0)%nat ->
  foldl (fun r p => <[p := F (r !!! p) p]> r) r0 (seq 0 m)
  = ((fun p => F (r0 !!! p) p) <$> seq 0 m) ++ drop m r0.
Proof.
  induction m as [|m IH]; intros Hm.
  - simpl. rewrite drop_0. reflexivity.
  - rewrite seq_S, foldl_app, IH by lia. simpl.
    destruct (lookup_lt_is_Some_2 r0 m) as [x Hx]; [lia|].
    assert (Hl : length ((fun p => F (r0 !!! p) p) <$> seq 0 m) = m)
      by (rewrite length_fmap, length_seq; reflexivity).
    rewrite (drop_S r0 x m Hx).
    rewrite insert_app_r_alt by lia. rewrite Hl, Nat.sub_diag. simpl.
    rewrite fmap_app. simpl. rewrite <- app_assoc. simpl.
    rewrite list_lookup_total_middle by (symmetry; exact Hl).
    rewrite (list_lookup_total_correct r0 m x Hx). reflexivity.
Qed.

Lemma fmap_lookup_total_seq {A} `{Inhabited A} (l : list A) :
  (fun p => l !!! p) <$> seq 0 (length l) = l.
Proof.
  apply list_eq. intros i. rewrite list_lookup_fmap.
  destruct (decide (i < length l)%nat) as [Hlt|Hge].
  - rewrite lookup_seq_lt by exact Hlt. simpl.
    destruct (lookup_lt_is_Some_2 l i Hlt) as [x Hx].
    rewrite (list_lookup_total_correct l i x Hx), Hx. reflexivity.
  - rewrite lookup_seq_ge by lia. simpl. symmetry. apply lookup_ge_None. lia.
Qed.

Lemma point_difference_copy_fold (pts : list R) (l : list nat) :
  forall (r0 : list R) (a : R),
    foldl (point_difference_copy pts) (r0, a) l
    = (foldl (fun r p => <[p := pts !!! p]> r) r0 l,
       (a + sum_R ((fun p => pts !!! p) <$> l))%R).
Proof.
  induction l as [|p l IH]; intros r0 a; simpl.
  - f_equal. unfold sum_R. simpl. lra.
  - rewrite IH. f_equal. unfold sum_R. simpl. apply Rplus_assoc.
Qed.

Lemma sum_R_fmap_minus (f : nat -> R) (c : R) (l : list nat) :
  sum_R ((fun p => (f p - c)%R) <$> l) = (sum_R (f <$> l) - INR (length l) * c)%R.
Proof.
  induction l as [|p l IH].
  - simpl. lra.
  - cbn [fmap list_fmap sum_R foldr length]. fold (sum_R ((fun p => (f p - c)%R) <$> l)).
    fold (sum_R (f <$> l)). rewrite IH, S_INR. lra.
Qed.

Lemma Returns_point_difference (s : BertrandOligopolyState) :
  IsTerminal s = true -> returns_type_ s = kPointDifference ->
  length (points_ s) = num_players_ s ->
  Returns s
  = (fun p => (points_ s !!! p - sum_R (points_ s) / INR (num_players_ s))%R)
      <$> seq 0 (num_players_ s).
Proof.
  intros Hterm Hty Hlen. unfold Returns. rewrite Hterm, Hty. simpl.
  rewrite point_difference_copy_fold.
  rewrite (foldl_insert_seq (fun _ p => points_ s !!! p))
    by (rewrite length_replicate; lia).
  rewrite (drop_ge (replicate _ _)) by (rewrite length_replicate; lia).
  rewrite app_nil_r. rewrite <- Hlen, fmap_lookup_total_seq, Rplus_0_l.
  rewrite (foldl_insert_seq (fun x _ => (x - sum_R (points_ s) / INR (length (points_ s)))%R))
    by lia.
  rewrite drop_all, app_nil_r. reflexivity.
Qed.

Lemma Returns_total_points (s : BertrandOligopolyState) :
  IsTerminal s = true -> returns_type_ s = kTotalPoints ->
  length (points_ s) = num_players_ s ->
  Returns s = points_ s.
Proof.
  intros Hterm Hty Hlen. unfold Returns. rewrite Hterm, Hty. simpl.
  rewrite (foldl_insert_seq (fun _ p => points_ s !!! p))
    by (rewrite length_replicate; lia).
  rewrite (drop_ge (replicate _ _)) by (rewrite length_replicate; lia).
  rewrite app_nil_r, <- Hlen. apply fmap_lookup_total_seq.
Qed.

(** The single round of a one-round game. *)
Lemma one_round_run (g : BertrandOligopolyGame) (actions : list Action) :
  g_num_turns_ g = 1%Z ->
  ((1 <? g_num_options_ g) && (g_num_options_ g <=? INT_MAX))%Z = true ->
  valid_actions (initial_state g) actions ->
  DoApplyActions actions (initial_state g)
  = (Some tt, apply_result (initial_state g) actions)
  /\ reachable g (apply_result (initial_state g) actions)
  /\ IsTerminal (apply_result (initial_state g) actions) = true.
Proof.
  intros Hturns Hopt Hvalid. apply andb_prop in Hopt as [Hopt Hmax].
  apply Z.leb_le in Hmax.
  assert (Hrun : DoApplyActions actions (initial_state g)
                 = (Some tt, apply_result (initial_state g) actions))
    by (apply DoApplyActions_valid; [exact Hmax | exact Hvalid]).
  assert (Hinit : NewInitialState g = Some (initial_state g)).
  { rewrite NewInitialState_eq, Hopt. reflexivity. }
  split; [exact Hrun|]. split.
  - eapply reachable_step;
      [apply reachable_init; exact Hinit | reflexivity | exact Hvalid | exact Hrun].
  - pose proof (apply_result_frame (initial_state g) actions) as (_ & _ & _ & _ & _ & _ & Fcp & _).
    unfold IsTerminal. rewrite Fcp. simpl. rewrite Hturns. reflexivity.
Qed.

Lemma valid_pair (g : BertrandOligopolyGame) (a b : Action) :
  g_num_players_ g = 2%nat ->
  (0 <= a < g_num_options_ g)%Z -> (0 <= b < g_num_options_ g)%Z ->
  valid_actions (initial_state g) [a; b].
Proof.
  intros Hn Ha Hb. split; [simpl; congruence|].
  intros [|[|p]] x; simpl; intros [= <-]; assumption.
Qed.



(** ** Demand and payoff *)

Lemma foldl_Rplus (f : nat -> R) (l : list nat) :
  forall a : R, foldl (fun d p => (d + f p)%R) a l = (a + sum_R (f <$> l))%R.
Proof.
  induction l as [|p l IH]; intros a; simpl.
  - unfold sum_R. simpl. lra.
  - rewrite IH. unfold sum_R. simpl. apply Rplus_assoc.
Qed.

Lemma sum_R_nonneg (l : list R) :
  (forall y, y ∈ l -> (0 <= y)%R) -> (0 <= sum_R l)%R.
Proof.
  induction l as [|x l IH]; intros Hl; unfold sum_R; simpl; [lra|].
  assert (0 <= x)%R by (apply Hl; left).
  assert (0 <= sum_R l)%R by (apply IH; intros y Hy; apply Hl; right; exact Hy).
  unfold sum_R in *. lra.
Qed.

Lemma sum_R_ge_member (l : list R) :
  (forall y, y ∈ l -> (0 <= y)%R) ->
  forall p x, l !! p = Some x -> (x <= sum_R l)%R.
Proof.
  induction l as [|z l IH]; intros Hl p x Hp; [discriminate|].
  assert (Hz : (0 <= z)%R) by (apply Hl; left).
  assert (Hrest : forall y, y ∈ l -> (0 <= y)%R) by (intros y Hy; apply Hl; right; exact Hy).
  pose proof (sum_R_nonneg l Hrest) as Hs.
  unfold sum_R in *. simpl. destruct p as [|p]; simpl in Hp.
  - injection Hp as ->. lra.
  - pose proof (IH Hrest p x Hp). lra.
Qed.

Lemma demand_denominator_logit (s : BertrandOligopolyState) (actions : list Action) :
  wf s -> length actions = num_players_ s ->
  demand_denominator s actions
  = logit_denominator (IZR (outside_good_ s)) (horizontal_differentiation_ s) 2
      (price_of s <$> actions).
Proof.
  intros (_ & _ & Hvert) Hlen. unfold demand_denominator, logit_denominator.
  rewrite foldl_Rplus. f_equal. f_equal.
  rewrite <- list_fmap_compose.
  rewrite <- (fmap_lookup_total_seq actions) at 2.
  rewrite <- list_fmap_compose.
  apply list_fmap_ext. intros i p Hp.
  apply lookup_seq in Hp as [-> Hlt]. simpl.
  unfold demand_term. rewrite Hvert, lookup_total_replicate_2 by lia. reflexivity.
Qed.

Lemma logit_denominator_pos (og h vertical : R) (prices : list R) :
  (0 < logit_denominator og h vertical prices)%R.
Proof.
  unfold logit_denominator.
  pose proof (exp_pos (og / h)).
  assert (0 <= sum_R ((fun price => exp ((vertical - price) / h)) <$> prices))%R.
  { apply sum_R_nonneg. intros y Hy. apply list_elem_of_fmap in Hy as (x & -> & _).
    left. apply exp_pos. }
  lra.
Qed.

Lemma logit_share_bounds (og h vertical : R) (prices : list R) (p : nat) :
  (p < length prices)%nat ->
  (0 < exp ((vertical - prices !!! p) / h)
       / logit_denominator og h vertical prices < 1)%R.
Proof.
  intros Hp. pose proof (logit_denominator_pos og h vertical prices) as HD.
  pose proof (exp_pos ((vertical - prices !!! p) / h)) as HE.
  assert (Hle : (exp ((vertical - prices !!! p) / h)
                 <= sum_R ((fun price => exp ((vertical - price) / h)) <$> prices))%R).
  { destruct (lookup_lt_is_Some_2 prices p Hp) as [x Hx].
    rewrite (list_lookup_total_correct _ _ _ Hx).
    apply (sum_R_ge_member _) with (p := p).
    - intros y Hy. apply list_elem_of_fmap in Hy as (z & -> & _). left. apply exp_pos.
    - rewrite list_lookup_fmap, Hx. reflexivity. }
  pose proof (exp_pos (og / h)) as H0.
  split.
  - apply Rdiv_lt_0_compat; assumption.
  - apply (Rmult_lt_reg_r (logit_denominator og h vertical prices)); [exact HD|].
    unfold Rdiv. rewrite Rmult_assoc, Rinv_l by lra.
    unfold logit_denominator in *. lra.
Qed.

Lemma profit_logit (s : BertrandOligopolyState) (actions : list Action) (p : nat) :
  wf s -> length actions = num_players_ s -> (p < num_players_ s)%nat ->
  profit s actions p
  = logit_profit (IZR (marginal_cost_ s)) (IZR (outside_good_ s))
      (horizontal_differentiation_ s) 2 (price_of s <$> actions) p.
Proof.
  intros Hwf Hlen Hp. unfold profit, logit_profit.
  rewrite (demand_denominator_logit s actions Hwf Hlen).
  destruct Hwf as (_ & _ & Hvert).
  rewrite (list_lookup_total_fmap (price_of s) actions p) by lia.
  unfold demand_term. rewrite Hvert, lookup_total_replicate_2 by lia. reflexivity.
Qed.

(** ** Winner determination *)

(** A double whose truncation fits an [int] converts to its truncation. *)
Lemma double_to_int_truncate (x : R) :
  (INT_MIN <= truncate x <= INT_MAX)%Z -> double_to_int x = truncate x.
Proof.
  intros [Hlo Hhi]. unfold double_to_int. cbv zeta.
  apply Z.leb_le in Hlo, Hhi. rewrite Hlo, Hhi. reflexivity.
Qed.

Lemma double_to_int_fraction (x : R) : (0 <= x < 1)%R -> double_to_int x = 0%Z.
Proof.
  intros [H0 H1].
  assert (Ht : truncate x = 0%Z).
  { unfold truncate. destruct (Rle_dec 0 x) as [_|Hn]; [|contradiction].
    symmetry. apply Int_part_spec. simpl. lra. }
  rewrite double_to_int_truncate; rewrite Ht; [reflexivity|].
  unfold INT_MIN, INT_MAX. lia.
Qed.

(** With two players whose points both lie strictly between 0 and 1 the
    winner loop keeps player 1 alone: [max_points] is truncated to 0 after
    player 0, so player 1's points compare greater and clear the set. *)
Lemma find_winners_two_fractions (x y : R) (w : gset nat) :
  (0 < x < 1)%R -> (0 < y < 1)%R -> find_winners [x; y] 2 w = {[1%nat]}.
Proof.
  intros Hx Hy. unfold find_winners. simpl.
  destruct (Rgt_dec x (-1)) as [_|Hn]; [|exfalso; apply Hn; lra].
  rewrite double_to_int_fraction by lra.
  unfold winner_scan. simpl.
  destruct (Rgt_dec y 0) as [_|Hn]; [|exfalso; apply Hn; lra].
  simpl. apply union_empty_r_L.
Qed.

Lemma one_round_price_2 :
  price_of (initial_state one_round_game) 2 = 1.69895%R.
Proof.
  unfold price_of. simpl. unfold kDefaultIntervalSize.
  change (5 - 1)%Z with 4%Z. lra.
Qed.

Lemma one_round_profit_2_2 (p : nat) :
  (p < 2)%nat ->
  (0 < profit (initial_state one_round_game) [2; 2]%Z p < 1)%R.
Proof.
  intros Hp.
  assert (Hwf : wf (initial_state one_round_game))
    by (apply (NewInitialState_wf one_round_game); reflexivity).
  rewrite (profit_logit (initial_state one_round_game) [2; 2]%Z p Hwf eq_refl Hp).
  unfold logit_profit.
  set (prices := price_of (initial_state one_round_game) <$> [2; 2]%Z).
  assert (Hprice : prices !!! p = 1.69895%R).
  { unfold prices. destruct p as [|[|p]]; [| |lia]; simpl; apply one_round_price_2. }
  assert (Hlen : (p < length prices)%nat) by (unfold prices; simpl; lia).
  pose proof (logit_share_bounds
                (IZR (outside_good_ (initial_state one_round_game)))
                (horizontal_differentiation_ (initial_state one_round_game))
                2 prices p Hlen) as Hshare.
  rewrite Hprice in *. simpl marginal_cost_. unfold kDefaultMarginalCost.
  unfold Rdiv in *. rewrite Rmult_assoc.
  set (share := (exp _ * / _)%R) in *. nra.
Qed.

Lemma one_round_price_0 :
  price_of (initial_state one_round_game) 0 = 1.427714%R.
Proof.
  unfold price_of. simpl. unfold kDefaultIntervalSize.
  change (5 - 1)%Z with 4%Z. lra.
Qed.

Lemma one_round_price_4 :
  price_of (initial_state one_round_game) 4 = 1.970186%R.
Proof.
  unfold price_of. simpl. unfold kDefaultIntervalSize.
  change (5 - 1)%Z with 4%Z. lra.
Qed.

(** With the joint action [0,4] player 0 earns strictly more than player 1
    in the round, and both earn a fraction of a point. *)
Lemma one_round_profit_0_4 :
  let s0 := initial_state one_round_game in
  (0 < profit s0 [0; 4]%Z 1 < profit s0 [0; 4]%Z 0)%R
  /\ (profit s0 [0; 4]%Z 0 < 1)%R.
Proof.
  cbv zeta.
  assert (Hwf : wf (initial_state one_round_game))
    by (apply (NewInitialState_wf one_round_game); reflexivity).
  rewrite (profit_logit (initial_state one_round_game) [0; 4]%Z 0 Hwf eq_refl
             ltac:(cbv; lia)).
  rewrite (profit_logit (initial_state one_round_game) [0; 4]%Z 1 Hwf eq_refl
             ltac:(cbv; lia)).
  unfold logit_profit.
  set (prices := price_of (initial_state one_round_game) <$> [0; 4]%Z).
  pose proof (logit_share_bounds
                (IZR (outside_good_ (initial_state one_round_game)))
                (horizontal_differentiation_ (initial_state one_round_game))
                2 prices 0 ltac:(simpl; lia)) as Hshare0.
  pose proof (logit_denominator_pos
                (IZR (outside_good_ (initial_state one_round_game)))
                (horizontal_differentiation_ (initial_state one_round_game))
                2 prices) as HD.
  assert (Hp0 : prices !!! 0%nat = 1.427714%R) by apply one_round_price_0.
  assert (Hp1 : prices !!! 1%nat = 1.970186%R) by apply one_round_price_4.
  rewrite Hp0, Hp1 in *. simpl marginal_cost_. simpl horizontal_differentiation_ in *.
  unfold kDefaultMarginalCost, kDefaultHorizontalDifferentiation in *.
  set (D := logit_denominator _ _ _ _) in *.
  replace ((2 - 1.427714) / 0.25)%R
    with ((2 - 1.970186) / 0.25 + 2.169888)%R in * by lra.
  rewrite exp_plus in *.
  pose proof (exp_pos ((2 - 1.970186) / 0.25)) as HE1.
  pose proof (exp_ineq1_le 2.169888) as Hexp.
  set (E1 := exp ((2 - 1.970186) / 0.25)) in *.
  set (X := exp 2.169888) in *.
  assert (HDi : (0 < / D)%R) by (apply Rinv_0_lt_compat; exact HD).
  unfold Rdiv in *.
  assert (HE1X : (0 < E1 * X)%R) by (apply Rmult_lt_0_compat; lra).
  assert (Hgap : ((1.970186 - 1) * E1 < (1.427714 - 1) * (E1 * X))%R) by nra.
  repeat split.
  - apply Rmult_lt_0_compat; [apply Rmult_lt_0_compat; lra | exact HDi].
  - apply Rmult_lt_compat_r; [exact HDi | exact Hgap].
  - destruct Hshare0 as [Hs0 Hs1]. rewrite Rmult_assoc.
    set (share := (E1 * X * / D)%R) in *. nra.
Qed.

(** C1: the code at the failing input.  Two players, five price levels, one
    round, joint action [2,2]: the state becomes terminal with both players
    holding the same points, hence both holding the maximum, yet winners_ is
    {1} and player 0 is left out. *)
Theorem winners_leave_out_tied_leader :
  exists s',
    DoApplyActions [2; 2]%Z (initial_state one_round_game) = (Some tt, s')
    /\ IsTerminal s' = true
    /\ points_ s' !! 0%nat = points_ s' !! 1%nat
    /\ holds_max (points_ s') 0
    /\ holds_max (points_ s') 1
    /\ winners_ s' = {[1%nat]}
    /\ 0%nat ∉ winners_ s'.
Proof.
  destruct (one_round_run one_round_game [2; 2]%Z) as (Hrun & Hreach & Hterm);
    [reflexivity | reflexivity | apply valid_pair; [reflexivity | simpl; lia | simpl; lia] |].
  exists (apply_result (initial_state one_round_game) [2; 2]%Z).
  split; [exact Hrun|]. split; [exact Hterm|].
  assert (Hwf : wf (initial_state one_round_game))
    by (apply (NewInitialState_wf one_round_game); reflexivity).
  rewrite (apply_result_eq (initial_state one_round_game) [2; 2]%Z Hwf eq_refl). simpl.
  set (x := (0 + profit (initial_state one_round_game) [2; 2]%Z 0)%R).
  set (y := (0 + profit (initial_state one_round_game) [2; 2]%Z 1)%R).
  assert (Hxy : x = y) by reflexivity.
  pose proof (one_round_profit_2_2 0 ltac:(lia)) as H0.
  pose proof (one_round_profit_2_2 1 ltac:(lia)) as H1.
  assert (Hx : (0 < x < 1)%R) by (unfold x; lra).
  assert (Hy : (0 < y < 1)%R) by (unfold y; lra).
  assert (Hmax : forall q z, [x; y] !! q = Some z -> (z <= x)%R).
  { intros [|[|q]] z; simpl; intros [= <-]; lra. }
  rewrite (find_winners_two_fractions x y _ Hx Hy).
  split; [rewrite Hxy; reflexivity|].
  split; [exists x; split; [reflexivity | exact Hmax]|].
  split; [exists y; split; [reflexivity | rewrite <- Hxy; exact Hmax]|].
  split; [reflexivity | rewrite elem_of_singleton; discriminate].
Qed.

(** The same loop on the joint action [0,4]: player 0 holds strictly more
    points than player 1, and winners_ is {1}. *)
Lemma winners_after_0_4 :
  exists s' x0 x1,
    DoApplyActions [0; 4]%Z (initial_state one_round_game) = (Some tt, s')
    /\ IsTerminal s' = true
    /\ points_ s' = [x0; x1]
    /\ (x1 < x0)%R
    /\ winners_ s' = {[1%nat]}.
Proof.
  destruct (one_round_run one_round_game [0; 4]%Z) as (Hrun & _ & Hterm);
    [reflexivity | reflexivity | apply valid_pair; [reflexivity | simpl; lia | simpl; lia] |].
  assert (Hwf : wf (initial_state one_round_game))
    by (apply (NewInitialState_wf one_round_game); reflexivity).
  pose proof one_round_profit_0_4 as [[H1 H01] H0]. cbv zeta in H1, H01, H0.
  exists (apply_result (initial_state one_round_game) [0; 4]%Z),
    (0 + profit (initial_state one_round_game) [0; 4]%Z 0)%R,
    (0 + profit (initial_state one_round_game) [0; 4]%Z 1)%R.
  split; [exact Hrun|]. split; [exact Hterm|].
  rewrite (apply_result_eq (initial_state one_round_game) [0; 4]%Z Hwf eq_refl). simpl.
  split; [reflexivity|]. split; [lra|].
  apply find_winners_two_fractions; lra.
Qed.

(** ** After the terminal state *)

Lemma play_invariant (P : BertrandOligopolyState -> Prop) :
  (forall s actions s', P s -> DoApplyActions actions s = (Some tt, s') -> P s') ->
  forall history s s', P s -> play history s = (Some tt, s') -> P s'.
Proof.
  intros Hstep. induction history as [|actions history IH]; intros s s' HP Hplay.
  - injection Hplay as <-. exact HP.
  - unfold play in Hplay. simpl in Hplay. unfold bind in Hplay.
    destruct (DoApplyActions actions s) as [[[]|] s1] eqn:Hrun; [|discriminate].
    apply (IH s1 s'); [|exact Hplay]. eapply Hstep; eassumption.
Qed.

Lemma run_inv_step (s : BertrandOligopolyState) (actions : list Action)
    (s' : BertrandOligopolyState) :
  run_inv s -> DoApplyActions actions s = (Some tt, s') -> run_inv s'.
Proof.
  intros [Hwf Hterm] Hrun. apply DoApplyActions_Some in Hrun as [-> [Hlen _]].
  split; [apply apply_result_wf; assumption|].
  pose proof (apply_result_frame s actions) as (_ & _ & _ & Ft & Fct & _ & Fcp & _).
  unfold IsTerminal in *. rewrite Fcp, Ft, Fct.
  destruct (Z.succ (current_turn_ s) =? num_turns_ s)%Z eqn:Hover.
  - apply Z.eqb_eq in Hover. lia.
  - intros Hyes. specialize (Hterm Hyes). lia.
Qed.

Lemma run_inv_play (g : BertrandOligopolyGame) (s0 : BertrandOligopolyState)
    (history : list (list Action)) (s : BertrandOligopolyState) :
  NewInitialState g = Some s0 -> play history s0 = (Some tt, s) -> run_inv s.
Proof.
  intros Hinit Hplay.
  apply (play_invariant run_inv run_inv_step history s0 s); [|exact Hplay].
  split; [eapply NewInitialState_wf; eassumption|].
  rewrite NewInitialState_eq in Hinit.
  destruct (1 <? g_num_options_ g)%Z; [|discriminate].
  injection Hinit as <-. discriminate.
Qed.

Lemma play_num_options (history : list (list Action)) (s s' : BertrandOligopolyState) :
  play history s = (Some tt, s') -> num_options_ s' = num_options_ s.
Proof.
  intros Hplay.
  apply (play_invariant (fun t => num_options_ t = num_options_ s)) with history s;
    [|reflexivity | exact Hplay].
  intros t actions t' Ht Hrun. apply DoApplyActions_Some in Hrun as [-> _].
  pose proof (apply_result_frame t actions) as (_ & _ & Fo & _). rewrite Fo. exact Ht.
Qed.

(** C9 (amended): once a state reached by a run from the initial state is
    terminal, a further valid joint action still goes through; it leaves the
    state terminal and winners_ as it was, appends one entry to win_sequence_
    and adds the round's profit to each player's points_.  (Returns,
    LegalActions, IsTerminal and the observers are const member functions,
    here functions of the state, and change nothing.  num_options_ is a C++
    int, hence at most INT_MAX: the checks are made on each entry copied into
    an int, which leaves a valid entry as it is.) *)
Theorem terminal_state_under_further_action
    (g : BertrandOligopolyGame) (s0 s : BertrandOligopolyState)
    (history : list (list Action)) (actions : list Action) :
  (g_num_options_ g <= INT_MAX)%Z ->
  NewInitialState g = Some s0 ->
  play history s0 = (Some tt, s) ->
  IsTerminal s = true ->
  valid_actions s actions ->
  exists s',
    DoApplyActions actions s = (Some tt, s')
    /\ IsTerminal s' = true
    /\ winners_ s' = winners_ s
    /\ win_sequence_ s' = win_sequence_ s ++ [win_entry actions]
    /\ forall p, (p < num_players_ s)%nat ->
         points_ s' !! p = Some (points_ s !!! p + profit s actions p)%R.
Proof.
  intros Hmax Hinit Hplay Hterm Hvalid.
  destruct (run_inv_play g s0 history s Hinit Hplay) as [Hwf Hge].
  specialize (Hge Hterm). pose proof (proj1 Hvalid) as Hlen.
  exists (apply_result s actions).
  split.
  { apply DoApplyActions_valid; [|exact Hvalid].
    rewrite (play_num_options history s0 s Hplay).
    rewrite NewInitialState_eq in Hinit.
    destruct (1 <? g_num_options_ g)%Z; [|discriminate].
    injection Hinit as <-. exact Hmax. }
  pose proof (apply_result_frame s actions) as (_ & _ & _ & _ & _ & _ & Fcp & Fw).
  assert (Hover : (Z.succ (current_turn_ s) =? num_turns_ s)%Z = false)
    by (apply Z.eqb_neq; lia).
  rewrite Hover in Fcp, Fw.
  split; [unfold IsTerminal in *; rewrite Fcp; exact Hterm|].
  split; [exact Fw|].
  split; [apply apply_result_win_sequence|].
  intros p Hp. rewrite apply_result_eq by assumption. simpl.
  rewrite list_lookup_fmap, lookup_seq_lt by exact Hp. reflexivity.
Qed.

Lemma terminal_state_under_further_action_witness :
  exists s1 s2,
    play [[2; 2]%Z] (initial_state one_round_game) = (Some tt, s1)
    /\ IsTerminal s1 = true
    /\ DoApplyActions [2; 2]%Z s1 = (Some tt, s2)
    /\ IsTerminal s2 = true
    /\ winners_ s2 = winners_ s1.
Proof.
  destruct (one_round_run one_round_game [2; 2]%Z) as (Hrun & _ & Hterm);
    [reflexivity | reflexivity | apply valid_pair; [reflexivity | simpl; lia | simpl; lia] |].
  set (s1 := apply_result (initial_state one_round_game) [2; 2]%Z) in *.
  assert (Hplay : play [[2; 2]%Z] (initial_state one_round_game) = (Some tt, s1)).
  { unfold play. simpl. unfold bind. rewrite Hrun. reflexivity. }
  assert (Hvalid : valid_actions s1 [2; 2]%Z).
  { pose proof (apply_result_frame (initial_state one_round_game) [2; 2]%Z)
      as (_ & Fn & Fo & _).
    eapply valid_actions_frame; [exact Fn | exact Fo |].
    apply valid_pair; [reflexivity | simpl; lia | simpl; lia]. }
  assert (Hmax : (g_num_options_ one_round_game <= INT_MAX)%Z) by (cbv; discriminate).
  destruct (terminal_state_under_further_action one_round_game
              (initial_state one_round_game) s1 [[2; 2]%Z] [2; 2]%Z
              Hmax eq_refl Hplay Hterm Hvalid)
    as (s2 & Hrun2 & Hterm2 & Hw & _).
  exists s1, s2. repeat split; assumption.
Defined.

(** C9, the claim as stated fails: in the one-round game the state after the
    joint action [2,2] is terminal, and applying [2,2] once more lengthens
    win_sequence_ and raises the points of player 0. *)
Lemma further_action_changes_terminal_state :
  exists s1 s2 x1 x2,
    DoApplyActions [2; 2]%Z (initial_state one_round_game) = (Some tt, s1)
    /\ IsTerminal s1 = true
    /\ DoApplyActions [2; 2]%Z s1 = (Some tt, s2)
    /\ win_sequence_ s1 = [kInvalidPlayer]
    /\ win_sequence_ s2 = [kInvalidPlayer; kInvalidPlayer]
    /\ points_ s1 !! 0%nat = Some x1
    /\ points_ s2 !! 0%nat = Some x2
    /\ (x1 < x2)%R.
Proof.
  destruct (one_round_run one_round_game [2; 2]%Z) as (Hrun & _ & Hterm);
    [reflexivity | reflexivity | apply valid_pair; [reflexivity | simpl; lia | simpl; lia] |].
  assert (Hwf : wf (initial_state one_round_game))
    by (apply (NewInitialState_wf one_round_game); reflexivity).
  pose proof (apply_result_eq (initial_state one_round_game) [2; 2]%Z Hwf eq_refl) as Heq1.
  simpl in Heq1.
  set (s0 := initial_state one_round_game) in *.
  set (s1 := apply_result s0 [2; 2]%Z) in *.
  assert (Hwf1 : wf s1) by (apply apply_result_wf; [exact Hwf | reflexivity]).
  assert (Hn1 : num_players_ s1 = 2%nat) by (rewrite Heq1; reflexivity).
  assert (Hvalid : valid_actions s1 [2; 2]%Z).
  { rewrite Heq1. split; [reflexivity|].
    intros [|[|p]] a; simpl; intros [= <-]; lia. }
  assert (Hrun2 : DoApplyActions [2; 2]%Z s1 = (Some tt, apply_result s1 [2; 2]%Z)).
  { apply DoApplyActions_valid; [rewrite Heq1; cbv; discriminate | exact Hvalid]. }
  pose proof (apply_result_eq s1 [2; 2]%Z Hwf1 (eq_sym Hn1)) as Heq2.
  exists s1, (apply_result s1 [2; 2]%Z),
    (0 + profit s0 [2; 2]%Z 0)%R,
    (0 + profit s0 [2; 2]%Z 0 + profit s0 [2; 2]%Z 0)%R.
  split; [exact Hrun|]. split; [exact Hterm|]. split; [exact Hrun2|].
  split; [rewrite Heq1; reflexivity|].
  split; [rewrite apply_result_win_sequence, Heq1; reflexivity|].
  split; [rewrite Heq1; reflexivity|].
  split.
  - rewrite Heq2, Hn1. simpl. rewrite Heq1. reflexivity.
  - pose proof (one_round_profit_2_2 0 ltac:(lia)). fold s0 in H. lra.
Qed.

(** ** The observer's blocks *)

Lemma same_extent_refl (a : Block) : same_extent a a.
Proof. repeat split. Qed.

Lemma same_extent_trans (a b c : Block) :
  same_extent a b -> same_extent b c -> same_extent a c.
Proof.
  intros (H1 & H2 & H3) (H4 & H5 & H6). repeat split; congruence.
Qed.

Lemma at1_same_extent (out : Block) (i : nat) (v : R) : same_extent (at1 out i v) out.
Proof. repeat split. simpl. apply length_insert. Qed.

Lemma at2_same_extent (out : Block) (i j : nat) (v : R) : same_extent (at2 out i j v) out.
Proof. repeat split. simpl. apply length_insert. Qed.

Lemma foldl_same_extent {X} (f : Block -> X -> Block) (l : list X) :
  (forall out x, same_extent (f out x) out) ->
  forall out, same_extent (foldl f out l) out.
Proof.
  intros Hf. induction l as [|x l IH]; intros out; simpl.
  - apply same_extent_refl.
  - eapply same_extent_trans; [apply IH | apply Hf].
Qed.

Lemma WritePointsTotal_extent (g : BertrandOligopolyGame) (s : BertrandOligopolyState)
    (player : nat) :
  same_extent (WritePointsTotal g s player)
              (Allocator_Get "point_totals" [Z.of_nat (NumPlayers g)]).
Proof.
  unfold WritePointsTotal.
  generalize (Allocator_Get "point_totals" [Z.of_nat (NumPlayers g)]) as out.
  generalize player as p. generalize (seq 0 (NumPlayers g)) as l.
  induction l as [|n l IH]; intros p out; simpl.
  - apply same_extent_refl.
  - eapply same_extent_trans; [apply IH | apply at1_same_extent].
Qed.

Lemma WriteWinSequence_extent (o : BertrandOligopolyObserver) (g : BertrandOligopolyGame)
    (s : BertrandOligopolyState) (player : nat) :
  same_extent (WriteWinSequence o g s player)
              (Allocator_Get "win_sequence" [NumRounds g; Z.of_nat (NumPlayers g)]).
Proof.
  unfold WriteWinSequence. apply foldl_same_extent. intros out i.
  destruct (negb _); [apply at2_same_extent | apply same_extent_refl].
Qed.

Lemma WritePlayerActionSequence_extent (g : BertrandOligopolyGame)
    (s : BertrandOligopolyState) (player : nat) :
  same_extent (WritePlayerActionSequence g s player)
              (Allocator_Get "player_action_sequence" [NumRounds g; NumOptions g]).
Proof.
  unfold WritePlayerActionSequence. apply foldl_same_extent. intros out i.
  apply at2_same_extent.
Qed.

Lemma Allocator_Get_length (name : string) (shape : list Z) :
  length (block_data (Allocator_Get name shape)) = Z.to_nat (shape_size shape).
Proof. simpl. apply length_replicate. Qed.

(** C10: both declared tensor shapes are the single flat block
    [num_players_ * num_options_], while a call of the observer obtains a
    point_totals block of num_players_ cells when public_info is set, a
    win_sequence block of num_turns_ * num_players_ cells when moreover the
    game is of imperfect information, and a player_action_sequence block of
    num_turns_ * num_options_ cells for the perfect-recall single-player view
    of such a game.  The witness is the header's default game with imp_info
    set: declared size 30, information-state observer 1702 cells. *)
Theorem declared_shape_versus_blocks_written
    (o : BertrandOligopolyObserver) (s : BertrandOligopolyState) (player : Z) :
  (0 <= player < Z.of_nat (NumPlayers (game_ s)))%Z ->
  let g := game_ s in
  let pub_info := public_info (iig_obs_type_ o) in
  let perf_rec := perfect_recall (iig_obs_type_ o) in
  let priv_one := match private_info (iig_obs_type_ o) with
                  | kSinglePlayer => true | _ => false end in
  InformationStateTensorShape g = [(Z.of_nat (NumPlayers g) * NumOptions g)%Z]
  /\ ObservationTensorShape g = [(Z.of_nat (NumPlayers g) * NumOptions g)%Z]
  /\ exists blocks,
       WriteTensor o s player = Some blocks
       /\ block_name <$> blocks
          = (if pub_info then ["point_totals"%string] else [])
            ++ (if IsImpInfo g && pub_info then ["win_sequence"%string] else [])
            ++ (if IsImpInfo g && perf_rec && priv_one
                then ["player_action_sequence"%string] else [])
       /\ written_size blocks
          = ((if pub_info then NumPlayers g else 0)
             + (if IsImpInfo g && pub_info
                then Z.to_nat (NumRounds g * Z.of_nat (NumPlayers g)) else 0)
             + (if IsImpInfo g && perf_rec && priv_one
                then Z.to_nat (NumRounds g * NumOptions g) else 0))%nat.
Proof.
  intros Hplayer. cbv zeta.
  split; [reflexivity|]. split; [reflexivity|].
  unfold WriteTensor.
  replace (0 <=? player)%Z with true by (symmetry; apply Z.leb_le; lia).
  replace (player <? Z.of_nat (NumPlayers (game_ s)))%Z with true
    by (symmetry; apply Z.ltb_lt; lia).
  simpl negb. cbv iota zeta.
  eexists. split; [reflexivity|].
  pose proof (WritePointsTotal_extent (game_ s) s (Z.to_nat player)) as (Np & _ & Lp).
  pose proof (WriteWinSequence_extent o (game_ s) s (Z.to_nat player)) as (Nw & _ & Lw).
  pose proof (WritePlayerActionSequence_extent (game_ s) s (Z.to_nat player))
    as (Na & _ & La).
  rewrite Allocator_Get_length in Lp, Lw, La.
  unfold shape_size in Lp, Lw, La. simpl foldr in Lp, Lw, La.
  rewrite Z.mul_1_r in Lp, Lw, La. rewrite Nat2Z.id in Lp.
  split.
  - destruct (public_info (iig_obs_type_ o)), (IsImpInfo (game_ s)),
      (perfect_recall (iig_obs_type_ o)), (private_info (iig_obs_type_ o)); simpl;
      rewrite ?Np, ?Nw, ?Na; reflexivity.
  - destruct (public_info (iig_obs_type_ o)), (IsImpInfo (game_ s)),
      (perfect_recall (iig_obs_type_ o)), (private_info (iig_obs_type_ o)); simpl;
      rewrite ?Lp, ?Lw, ?La; lia.
Qed.

Lemma declared_shape_versus_blocks_written_witness :
  shape_size (InformationStateTensorShape imperfect_default_game) = 30%Z
  /\ exists blocks,
       InformationStateTensor (initial_state imperfect_default_game) 0 = Some blocks
       /\ written_size blocks = 1702%nat.
Proof.
  split; [reflexivity|].
  destruct (declared_shape_versus_blocks_written
              (info_state_observer_ imperfect_default_game)
              (initial_state imperfect_default_game) 0%Z)
    as (_ & _ & blocks & Hrun & _ & Hsize).
  - cbv. split; [discriminate | reflexivity].
  - exists blocks. split; [exact Hrun|]. rewrite Hsize. reflexivity.
Defined.

Lemma win_entry_range (actions : list Action) :
  (forall q b, actions !! q = Some b -> (0 <= b < INT_MAX)%Z) ->
  win_entry actions = kInvalidPlayer
  \/ (0 <= win_entry actions < Z.of_nat (length actions))%Z.
Proof.
  intros Hmax. unfold win_entry.
  pose proof (lowest_price_inv actions (length actions) Hmax (Nat.le_refl _)) as Hinv.
  unfold lowest_price. destruct (foldl _ _ _) as [[mp k] ma].
  destruct Hinv as (_ & Hk & _ & Hj).
  destruct (k =? 1)%Z eqn:Hk1; [|left; reflexivity].
  right. apply Z.eqb_eq in Hk1.
  destruct (length actions) as [|n] eqn:Hn.
  - simpl in Hk. lia.
  - destruct (Hj ltac:(lia)) as (j & Hjn & -> & _). lia.
Qed.

Lemma reachable_winners_recorded (g : BertrandOligopolyGame) (s : BertrandOligopolyState) :
  (g_num_options_ g <= INT_MAX)%Z ->
  reachable g s -> winners_recorded (g_num_players_ g) (win_sequence_ s).
Proof.
  intros Hmax. induction 1 as [s0 H0 | s s' actions Hreach IH _ Hv Hrun].
  - rewrite NewInitialState_eq in H0.
    destruct (1 <? g_num_options_ g)%Z; [|discriminate].
    injection H0 as <-. intros i w Hi. discriminate.
  - pose proof (reachable_rounds g s Hreach) as (_ & Hn & Ho & _).
    apply DoApplyActions_Some in Hrun as [-> _].
    rewrite apply_result_win_sequence. intros i w Hi.
    apply lookup_app_Some in Hi as [Hi | [_ Hi]]; [exact (IH i w Hi)|].
    destruct (i - length (win_sequence_ s))%nat; [|discriminate].
    injection Hi as <-.
    assert (Hlt : forall q b, actions !! q = Some b -> (0 <= b < INT_MAX)%Z)
      by (apply (valid_actions_below_INT_MAX s); [exact Hv | lia]).
    destruct (win_entry_range actions Hlt) as [Ht | Hr]; [left; exact Ht|].
    right. rewrite (proj1 Hv), Hn in Hr. exact Hr.
Qed.

Lemma one_hot_of_column (o : BertrandOligopolyObserver) (g : BertrandOligopolyGame)
    (w : Z) (player : nat) :
  (0 <= w < Z.of_nat (NumPlayers g))%Z -> (player < NumPlayers g)%nat ->
  one_hot_of o g w player = win_column (obs_egocentric_ o) (NumPlayers g) w player
  /\ (0 <= one_hot_of o g w player < Z.of_nat (NumPlayers g))%Z.
Proof.
  intros Hw Hp. unfold one_hot_of, win_column.
  destruct (obs_egocentric_ o); [|split; [reflexivity | exact Hw]].
  rewrite Z.rem_mod_nonneg by lia. split; [reflexivity|].
  apply Z.mod_pos_bound. lia.
Qed.

Lemma row_major_inj (n i c m h : nat) :
  (c < n)%nat -> (h < n)%nat -> (i * n + c = m * n + h)%nat -> i = m /\ c = h.
Proof.
  intros Hc Hh Heq.
  assert (i = m).
  { destruct (lt_eq_lt_dec i m) as [[Hlt|Heq']|Hgt]; [exfalso | exact Heq' | exfalso].
    - assert ((i + 1) * n <= m * n)%nat by (apply Nat.mul_le_mono_r; lia). lia.
    - assert ((m + 1) * n <= i * n)%nat by (apply Nat.mul_le_mono_r; lia). lia. }
  subst i. split; [reflexivity | lia].
Qed.

Lemma WriteWinSequence_cells (o : BertrandOligopolyObserver) (g : BertrandOligopolyGame)
    (s : BertrandOligopolyState) (player : nat) (m : nat) :
  winners_recorded (NumPlayers g) (win_sequence_ s) ->
  (player < NumPlayers g)%nat ->
  (m <= length (win_sequence_ s))%nat ->
  let out :=
    foldl (fun out i =>
             if negb (win_sequence_ s !!! i =? kInvalidPlayer)%Z then
               at2 out i (Z.to_nat (one_hot_of o g (win_sequence_ s !!! i) player)) 1%R
             else out)
          (Allocator_Get "win_sequence" [NumRounds g; Z.of_nat (NumPlayers g)])
          (seq 0 m) in
  same_extent out (Allocator_Get "win_sequence" [NumRounds g; Z.of_nat (NumPlayers g)])
  /\ forall i c,
       (c < NumPlayers g)%nat ->
       (i * NumPlayers g + c < Z.to_nat (NumRounds g * Z.of_nat (NumPlayers g)))%nat ->
       block_data out !! (i * NumPlayers g + c)%nat
       = Some (if decide (i < m)%nat
               then win_cell (obs_egocentric_ o) (NumPlayers g) (win_sequence_ s) player i c
               else 0%R).
Proof.
  intros Hrec Hplayer. induction m as [|m IH]; intros Hm; cbv zeta.
  - simpl. split; [apply same_extent_refl|]. intros i c Hc Hin.
    rewrite lookup_replicate_2; [reflexivity|].
    unfold shape_size. simpl. rewrite Z.mul_1_r. exact Hin.
  - rewrite seq_S, foldl_app. simpl.
    specialize (IH ltac:(lia)). cbv zeta in IH.
    set (out := foldl _ _ (seq 0 m)) in *.
    destruct IH as [Hext IH].
    destruct (lookup_lt_is_Some_2 (win_sequence_ s) m) as [w Hw]; [lia|].
    rewrite (list_lookup_total_correct _ _ _ Hw).
    destruct (w =? kInvalidPlayer)%Z eqn:Htie; simpl.
    + split; [exact Hext|]. intros i c Hc Hin. rewrite (IH i c Hc Hin).
      destruct (decide (i < m)%nat), (decide (i < S m)%nat); try reflexivity; try lia.
      assert (i = m) by lia. subst i. unfold win_cell. rewrite Hw, Htie. reflexivity.
    + apply Z.eqb_neq in Htie.
      destruct (Hrec m w Hw) as [Hc | Hrange]; [contradiction|].
      destruct (one_hot_of_column o g w player Hrange Hplayer) as [Hcol Hbound].
      split; [eapply same_extent_trans; [apply at2_same_extent | exact Hext]|].
      intros i c Hc Hin.
      destruct Hext as (_ & Hshape & Hlen). rewrite Allocator_Get_length in Hlen.
      unfold shape_size in Hlen. simpl in Hlen. rewrite Z.mul_1_r in Hlen.
      unfold at2. simpl block_data. rewrite Hshape. simpl. rewrite Nat2Z.id.
      set (h := Z.to_nat (one_hot_of o g w player)).
      assert (Hh : (h < NumPlayers g)%nat) by (unfold h; lia).
      assert (Hzh : Z.of_nat h = win_column (obs_egocentric_ o) (NumPlayers g) w player)
        by (unfold h; rewrite Z2Nat.id; lia).
      destruct (decide (i * NumPlayers g + c = m * NumPlayers g + h)%nat) as [Heq|Hne].
      * destruct (row_major_inj (NumPlayers g) i c m h Hc Hh Heq) as [-> ->].
        rewrite list_lookup_insert_eq by lia.
        rewrite decide_True by lia. unfold win_cell. rewrite Hw.
        replace (w =? kInvalidPlayer)%Z with false by (symmetry; apply Z.eqb_neq; exact Htie).
        rewrite Hzh, Z.eqb_refl. reflexivity.
      * rewrite list_lookup_insert_ne by (intros Hc'; apply Hne; symmetry; exact Hc').
        rewrite (IH i c Hc Hin).
        destruct (decide (i < m)%nat), (decide (i < S m)%nat); try reflexivity; try lia.
        assert (i = m) by lia. subst i. unfold win_cell. rewrite Hw.
        replace (w =? kInvalidPlayer)%Z with false by (symmetry; apply Z.eqb_neq; exact Htie).
        replace (Z.of_nat c =? win_column (obs_egocentric_ o) (NumPlayers g) w player)%Z
          with false; [reflexivity|].
        symmetry. apply Z.eqb_neq. rewrite <- Hzh. intros Hc'.
        apply Hne. apply Nat2Z.inj in Hc'. subst c. reflexivity.
Qed.

Lemma row_in_block (turns : Z) (n i c : nat) :
  (Z.of_nat i < turns)%Z -> (c < n)%nat ->
  (i * n + c < Z.to_nat (turns * Z.of_nat n))%nat.
Proof.
  intros Hi Hc.
  assert (Z.of_nat (i * n + c) < turns * Z.of_nat n)%Z; [|lia].
  rewrite Nat2Z.inj_add, Nat2Z.inj_mul.
  assert ((Z.of_nat i + 1) * Z.of_nat n <= turns * Z.of_nat n)%Z
    by (apply Z.mul_le_mono_nonneg_r; lia).
  lia.
Qed.



(** * Further properties of the code *)

(** ** Fixed parameters along a run *)

Lemma same_params_refl (s : BertrandOligopolyState) : same_params s s.
Proof. unfold same_params. repeat split. Qed.

Lemma same_params_trans (s1 s2 s3 : BertrandOligopolyState) :
  same_params s1 s2 -> same_params s2 s3 -> same_params s1 s3.
Proof.
  unfold same_params.
  intros (A1 & A2 & A3 & A4 & A5 & A6 & A7 & A8 & A9 & A10 & A11 & A12)
         (B1 & B2 & B3 & B4 & B5 & B6 & B7 & B8 & B9 & B10 & B11 & B12).
  repeat split; congruence.
Qed.

Lemma apply_result_same_params (s : BertrandOligopolyState) (actions : list Action) :
  same_params s (apply_result s actions).
Proof.
  unfold apply_result. rewrite payout_fold. cbn zeta.
  destruct (_ =? _)%Z; unfold same_params; simpl; repeat split.
Qed.

Lemma DoApplyActions_same_params (s s' : BertrandOligopolyState) (actions : list Action) :
  DoApplyActions actions s = (Some tt, s') -> same_params s s'.
Proof.
  intros Hrun. apply DoApplyActions_Some in Hrun as [-> _].
  apply apply_result_same_params.
Qed.

Lemma play_same_params (history : list (list Action)) :
  forall s s', play history s = (Some tt, s') -> same_params s s'.
Proof.
  intros s s' Hplay.
  apply (play_invariant (same_params s)) with (history := history) (s := s);
    [| apply same_params_refl | exact Hplay].
  intros s1 actions s2 H1 Hrun. eapply same_params_trans; [exact H1|].
  eapply DoApplyActions_same_params; eassumption.
Qed.

Lemma reachable_same_params (g : BertrandOligopolyGame) (s : BertrandOligopolyState) :
  reachable g s -> (1 < g_num_options_ g)%Z /\ same_params (initial_state g) s.
Proof.
  induction 1 as [s0 H0 | s s' actions _ [Hopt IH] _ _ Hrun].
  - rewrite NewInitialState_eq in H0.
    destruct (1 <? g_num_options_ g)%Z eqn:E; [|discriminate].
    injection H0 as <-. split; [apply Z.ltb_lt; exact E | apply same_params_refl].
  - split; [exact Hopt|]. eapply same_params_trans; [exact IH|].
    eapply DoApplyActions_same_params; eassumption.
Qed.

Lemma foldl_pointwise {A B} (f g : A -> B -> A) (l : list B) :
  (forall a x, x ∈ l -> f a x = g a x) -> forall a, foldl f a l = foldl g a l.
Proof.
  induction l as [|x l IH]; intros Hfg a; simpl; [reflexivity|].
  rewrite Hfg by left. apply IH. intros a' y Hy. apply Hfg. right. exact Hy.
Qed.

Lemma same_params_price (s s' : BertrandOligopolyState) (a : Action) :
  same_params s s' -> price_of s' a = price_of s a.
Proof.
  intros (_ & _ & _ & _ & _ & _ & _ & _ & _ & _ & Hi & Hs).
  unfold price_of. rewrite Hi, Hs. reflexivity.
Qed.

Lemma same_params_demand_term (s s' : BertrandOligopolyState) (p : nat) (a : Action) :
  same_params s s' -> demand_term s' p a = demand_term s p a.
Proof.
  intros Hsame.
  pose proof Hsame as (_ & _ & _ & _ & _ & _ & Hh & Hv & _).
  unfold demand_term. rewrite Hh, Hv, (same_params_price s s' a Hsame). reflexivity.
Qed.

Lemma same_params_demand_denominator (s s' : BertrandOligopolyState)
    (actions : list Action) :
  same_params s s' -> demand_denominator s' actions = demand_denominator s actions.
Proof.
  intros Hsame.
  pose proof Hsame as (_ & _ & _ & _ & _ & _ & Hh & _ & Hog & _).
  unfold demand_denominator. rewrite Hh, Hog.
  apply foldl_pointwise. intros d q _.
  rewrite (same_params_demand_term s s' q _ Hsame). reflexivity.
Qed.

Lemma same_params_profit (s s' : BertrandOligopolyState) (actions : list Action) (p : nat) :
  same_params s s' -> profit s' actions p = profit s actions p.
Proof.
  intros Hsame.
  pose proof Hsame as (_ & _ & _ & _ & _ & Hmc & _).
  unfold profit.
  rewrite Hmc, (same_params_price s s' _ Hsame), (same_params_demand_term s s' _ _ Hsame),
    (same_params_demand_denominator s s' _ Hsame).
  reflexivity.
Qed.

(** ** The price grid *)

Lemma reachable_grid (g : BertrandOligopolyGame) (s : BertrandOligopolyState) :
  reachable g s ->
  (1 < g_num_options_ g)%Z
  /\ num_options_ s = g_num_options_ g
  /\ interval_ s = g_interval_ g
  /\ step_size_ s = g_step_size_ g.
Proof.
  intros Hreach.
  destruct (reachable_same_params g s Hreach)
    as (Hopt & _ & _ & Ho & _ & _ & _ & _ & _ & _ & _ & Hi & Hs).
  repeat split; assumption.
Qed.

Lemma g_step_size_pos (g : BertrandOligopolyGame) :
  (1 < g_num_options_ g)%Z -> (-1 / 2 < g_interval_size_ g)%R ->
  (0 < g_step_size_ g)%R.
Proof.
  intros Hopt Hsize. unfold g_step_size_, g_interval_. simpl.
  apply Rdiv_lt_0_compat; [nra|]. apply IZR_lt. lia.
Qed.

(** X1: in every state of a play, action 0 is priced at the lower end of the
    interval and action num_options_ - 1 at its upper end, and the state's
    interval_ and step_size_ are those the game computed. *)
Theorem price_grid_endpoints (g : BertrandOligopolyGame) (s : BertrandOligopolyState) :
  reachable g s ->
  price_of s 0 = (interval_ s).1
  /\ price_of s (num_options_ s - 1) = (interval_ s).2
  /\ interval_ s = g_interval_ g
  /\ step_size_ s = g_step_size_ g.
Proof.
  intros Hreach. destruct (reachable_grid g s Hreach) as (Hopt & Ho & Hi & Hs).
  split; [|split; [|split; assumption]].
  - unfold price_of. lra.
  - unfold price_of. rewrite Hs, Hi, Ho. unfold g_step_size_.
    assert (IZR (g_num_options_ g - 1) <> 0%R) by (apply not_0_IZR; lia).
    field. assumption.
Qed.

Lemma price_grid_endpoints_witness :
  price_of (initial_state one_round_game) 0 = (interval_ (initial_state one_round_game)).1
  /\ price_of (initial_state one_round_game) 4
     = (interval_ (initial_state one_round_game)).2.
Proof.
  destruct (price_grid_endpoints one_round_game (initial_state one_round_game))
    as (H0 & H4 & _).
  - apply reachable_init. reflexivity.
  - split; [exact H0 | exact H4].
Defined.

(** X2: when interval_size exceeds -1/2 the grid is strictly increasing: in
    every state of a play a smaller action index is a strictly lower price,
    and conversely. *)
Theorem price_increases_with_action
    (g : BertrandOligopolyGame) (s : BertrandOligopolyState) (a b : Action) :
  reachable g s -> (-1 / 2 < g_interval_size_ g)%R ->
  ((a < b)%Z <-> (price_of s a < price_of s b)%R).
Proof.
  intros Hreach Hsize. destruct (reachable_grid g s Hreach) as (Hopt & _ & _ & Hs).
  pose proof (g_step_size_pos g Hopt Hsize) as Hpos. rewrite <- Hs in Hpos.
  unfold price_of. split.
  - intros Hab. apply IZR_lt in Hab. nra.
  - intros Hlt. apply lt_IZR. nra.
Qed.

Lemma price_increases_with_action_witness :
  (price_of (initial_state one_round_game) 0 < price_of (initial_state one_round_game) 4)%R.
Proof.
  apply (price_increases_with_action one_round_game (initial_state one_round_game) 0 4).
  - apply reachable_init. reflexivity.
  - simpl. unfold kDefaultIntervalSize. lra.
  - lia.
Defined.

(** ** Demand shares and the sign of the profit *)

Lemma demand_denominator_sum (s : BertrandOligopolyState) (actions : list Action) :
  demand_denominator s actions
  = (exp (IZR (outside_good_ s) / horizontal_differentiation_ s)
     + sum_R ((fun p => demand_term s p (actions !!! p)) <$> seq 0 (length actions)))%R.
Proof. unfold demand_denominator. apply foldl_Rplus. Qed.

Lemma demand_denominator_pos (s : BertrandOligopolyState) (actions : list Action) :
  (0 < demand_denominator s actions)%R.
Proof.
  rewrite demand_denominator_sum.
  pose proof (exp_pos (IZR (outside_good_ s) / horizontal_differentiation_ s)).
  assert (0 <= sum_R ((fun p => demand_term s p (actions !!! p))
                       <$> seq 0 (length actions)))%R.
  { apply sum_R_nonneg. intros y Hy. apply list_elem_of_fmap in Hy as (q & -> & _).
    left. apply exp_pos. }
  lra.
Qed.

Lemma share_pos (s : BertrandOligopolyState) (actions : list Action) (p : nat) :
  (0 < share s actions p)%R.
Proof.
  unfold share. apply Rdiv_lt_0_compat; [apply exp_pos | apply demand_denominator_pos].
Qed.

Lemma profit_margin_share (s : BertrandOligopolyState) (actions : list Action) (p : nat) :
  profit s actions p
  = ((price_of s (actions !!! p) - IZR (marginal_cost_ s)) * share s actions p)%R.
Proof. unfold profit, share, Rdiv. ring. Qed.


Lemma sum_R_fmap_scale (f : nat -> R) (c : R) (l : list nat) :
  sum_R ((fun p => (f p * c)%R) <$> l) = (sum_R (f <$> l) * c)%R.
Proof.
  induction l as [|p l IH]; [unfold sum_R; simpl; lra|].
  cbn [fmap list_fmap]. unfold sum_R in *. cbn [foldr].
  change (list_fmap nat R ?h l) with (h <$> l) in *. rewrite IH. lra.
Qed.

(** X4: the demand shares of the players and the share of the outside good
    add up to one, for every state and every joint action; so the players'
    shares together stay strictly below one. *)
Theorem shares_add_up_to_one (s : BertrandOligopolyState) (actions : list Action) :
  (sum_R (share s actions <$> seq 0 (length actions)) + outside_share s actions = 1)%R
  /\ (0 < outside_share s actions)%R
  /\ (sum_R (share s actions <$> seq 0 (length actions)) < 1)%R.
Proof.
  pose proof (demand_denominator_pos s actions) as HD.
  assert (Hout : (0 < outside_share s actions)%R)
    by (unfold outside_share; apply Rdiv_lt_0_compat; [apply exp_pos | exact HD]).
  assert (Hsum : (sum_R (share s actions <$> seq 0 (length actions))
                  + outside_share s actions = 1)%R).
  { pose proof (demand_denominator_sum s actions) as HDeq.
    change (share s actions)
      with (fun p => (demand_term s p (actions !!! p) * / demand_denominator s actions)%R).
    rewrite (sum_R_fmap_scale (fun p => demand_term s p (actions !!! p))).
    unfold outside_share.
    set (S := sum_R _) in *.
    set (e0 := exp _) in *.
    set (D := demand_denominator s actions) in *.
    rewrite HDeq in *. field. lra. }
  repeat split; [exact Hsum | exact Hout | lra].
Qed.

(** X5: with a positive horizontal_differentiation_, of two players the one
    with the strictly lower price has the strictly larger share of demand. *)
Theorem lower_price_larger_share
    (g : BertrandOligopolyGame) (s : BertrandOligopolyState)
    (actions : list Action) (p q : nat) :
  reachable g s -> (0 < horizontal_differentiation_ s)%R ->
  (p < num_players_ s)%nat -> (q < num_players_ s)%nat ->
  (price_of s (actions !!! p) < price_of s (actions !!! q))%R ->
  (share s actions q < share s actions p)%R.
Proof.
  intros Hreach Hh Hp Hq Hprice.
  destruct (reachable_wf g s Hreach) as (_ & _ & Hv).
  pose proof (demand_denominator_pos s actions) as HD.
  unfold share, demand_term. rewrite Hv, !lookup_total_replicate_2 by lia.
  apply Rmult_lt_compat_r; [apply Rinv_0_lt_compat; exact HD|].
  apply exp_increasing. apply Rmult_lt_compat_r; [apply Rinv_0_lt_compat; exact Hh | lra].
Qed.

Lemma lower_price_larger_share_witness :
  (share (initial_state one_round_game) [0; 4]%Z 1
   < share (initial_state one_round_game) [0; 4]%Z 0)%R.
Proof.
  apply (lower_price_larger_share one_round_game).
  - apply reachable_init. reflexivity.
  - simpl. unfold kDefaultHorizontalDifferentiation. lra.
  - cbv. lia.
  - cbv. lia.
  - simpl. rewrite one_round_price_0, one_round_price_4. lra.
Defined.


(** ** Runs: what the state records of its history *)

Lemma sum_R_cons (x : R) (l : list R) : sum_R (x :: l) = (x + sum_R l)%R.
Proof. reflexivity. Qed.

Lemma play_cons (actions : list Action) (history : list (list Action))
    (s : BertrandOligopolyState) :
  play (actions :: history) s
  = match DoApplyActions actions s with
    | (Some _, s1) => play history s1
    | (None, s1) => (None, s1)
    end.
Proof. reflexivity. Qed.

Lemma play_app (h1 h2 : list (list Action)) :
  forall s, play (h1 ++ h2) s
            = match play h1 s with
              | (Some _, s1) => play h2 s1
              | (None, s1) => (None, s1)
              end.
Proof.
  induction h1 as [|a h1 IH]; intros s; [reflexivity|].
  rewrite <- app_comm_cons, !play_cons.
  destruct (DoApplyActions a s) as [[[]|] s1]; [apply IH | reflexivity].
Qed.

Lemma same_params_valid_actions (s s' : BertrandOligopolyState) (actions : list Action) :
  same_params s s' -> (valid_actions s' actions <-> valid_actions s actions).
Proof.
  intros (_ & Hn & Ho & _). unfold valid_actions. rewrite Hn, Ho. reflexivity.
Qed.

Lemma same_params_checked_actions (s s' : BertrandOligopolyState) (actions : list Action) :
  same_params s s' -> (checked_actions s' actions <-> checked_actions s actions).
Proof.
  intros (_ & Hn & Ho & _). unfold checked_actions. rewrite Hn, Ho. reflexivity.
Qed.

Lemma play_records (history : list (list Action)) :
  forall s s' : BertrandOligopolyState,
    wf s -> play history s = (Some tt, s') ->
    wf s'
    /\ Forall (checked_actions s) history
    /\ actions_history_ s' = actions_history_ s ++ history
    /\ win_sequence_ s' = win_sequence_ s ++ (win_entry <$> history)
    /\ current_turn_ s' = (current_turn_ s + Z.of_nat (length history))%Z
    /\ forall p, (p < num_players_ s)%nat ->
         points_ s' !! p
         = Some (points_ s !!! p + sum_R ((fun a => profit s a p) <$> history))%R.
Proof.
  induction history as [|actions history IH]; intros s s' Hwf Hplay.
  - injection Hplay as <-. rewrite !app_nil_r.
    split; [exact Hwf|]. split; [constructor|]. split; [reflexivity|].
    split; [reflexivity|]. split; [simpl; lia|].
    intros p Hp. destruct Hwf as (_ & Hlen & _).
    destruct (lookup_lt_is_Some_2 (points_ s) p) as [x Hx]; [lia|].
    rewrite (list_lookup_total_correct _ _ _ Hx), Hx. unfold sum_R. simpl.
    f_equal. lra.
  - rewrite play_cons, DoApplyActions_run in Hplay.
    destruct (checked_actionsb s actions) eqn:Hv; [|discriminate].
    apply checked_actionsb_spec in Hv. pose proof (proj1 Hv) as Hlen.
    pose proof (apply_result_same_params s actions) as Hsame.
    pose proof (apply_result_wf s actions Hwf Hlen) as Hwf1.
    destruct (IH _ _ Hwf1 Hplay) as (Hwf' & Hall & Hah & Hws & Hct & Hpts).
    pose proof (apply_result_frame s actions) as (_ & Fn & _ & _ & Fct & Fah & _).
    split; [exact Hwf'|]. split.
    { constructor; [exact Hv|]. eapply Forall_impl; [exact Hall|].
      intros a Ha. apply (same_params_checked_actions s _ a Hsame). exact Ha. }
    split; [rewrite Hah, Fah, <- app_assoc; reflexivity|].
    split; [rewrite Hws, apply_result_win_sequence, <- app_assoc; reflexivity|].
    split; [rewrite Hct, Fct; simpl length; lia|].
    intros p Hp. rewrite (Hpts p) by (rewrite Fn; exact Hp).
    assert (Hsum : (fun a => profit (apply_result s actions) a p) <$> history
                   = (fun a => profit s a p) <$> history).
    { apply list_fmap_ext. intros i a _. apply same_params_profit. exact Hsame. }
    assert (Hpt : points_ (apply_result s actions) !!! p
                  = (points_ s !!! p + profit s actions p)%R).
    { rewrite (apply_result_eq s actions Hwf Hlen). simpl.
      rewrite (list_lookup_total_fmap
                 (fun p => (points_ s !!! p + profit s actions p)%R)
                 (seq 0 (num_players_ s)) p)
        by (rewrite length_seq; exact Hp).
      rewrite lookup_total_seq_lt by exact Hp. reflexivity. }
    rewrite Hsum, Hpt, fmap_cons, sum_R_cons. f_equal. lra.
Qed.

(** Validity of concrete joint actions, by running the boolean check. *)
Ltac valid_by_check :=
  repeat match goal with
         | |- Forall _ [] => constructor
         | |- Forall _ (_ :: _) => constructor
         | |- valid_actions _ _ => apply valid_actionsb_spec; reflexivity
         end.

Lemma play_checked (history : list (list Action)) :
  forall s : BertrandOligopolyState,
    Forall (checked_actions s) history -> exists s', play history s = (Some tt, s').
Proof.
  induction history as [|actions history IH]; intros s Hall.
  - exists s. reflexivity.
  - apply Forall_cons in Hall as [Hv Hrest].
    rewrite play_cons, DoApplyActions_run, (proj2 (checked_actionsb_spec s actions) Hv).
    apply IH. eapply Forall_impl; [exact Hrest|]. intros a Ha.
    apply (same_params_checked_actions s _ a (apply_result_same_params s actions)).
    exact Ha.
Qed.

Lemma play_valid (history : list (list Action)) (s : BertrandOligopolyState) :
  (num_options_ s <=? INT_MAX)%Z = true ->
  Forall (valid_actions s) history -> exists s', play history s = (Some tt, s').
Proof.
  intros Hmax Hall. apply Z.leb_le in Hmax. apply play_checked.
  eapply Forall_impl; [exact Hall|]. intros a Ha.
  apply valid_actions_checked; assumption.
Qed.

(** X6: the state left by a run from the initial state is a replay of the
    joint actions applied: actions_history_ is that list, win_sequence_ holds
    the winner entry of each of them in order, current_turn_ is their number,
    and points_[p] is the sum of player p's round profits over them. *)
Theorem state_replays_history
    (g : BertrandOligopolyGame) (s0 s : BertrandOligopolyState)
    (history : list (list Action)) :
  NewInitialState g = Some s0 ->
  play history s0 = (Some tt, s) ->
  actions_history_ s = history
  /\ win_sequence_ s = win_entry <$> history
  /\ current_turn_ s = Z.of_nat (length history)
  /\ forall p, (p < NumPlayers g)%nat ->
       points_ s !! p = Some (sum_R ((fun a => profit s0 a p) <$> history)).
Proof.
  intros Hinit Hplay.
  pose proof (NewInitialState_wf g s0 Hinit) as Hwf.
  destruct (play_records history s0 s Hwf Hplay) as (_ & _ & Hah & Hws & Hct & Hpts).
  rewrite NewInitialState_eq in Hinit.
  destruct (1 <? g_num_options_ g)%Z; [|discriminate]. injection Hinit as <-.
  split; [exact Hah|]. split; [exact Hws|]. split; [exact Hct|].
  intros p Hp. rewrite (Hpts p Hp). simpl.
  rewrite lookup_total_replicate_2 by exact Hp. f_equal. lra.
Qed.

Lemma state_replays_history_witness :
  exists s, play [[0; 4]; [2; 2]]%Z (initial_state default_game) = (Some tt, s)
            /\ actions_history_ s = [[0; 4]; [2; 2]]%Z
            /\ win_sequence_ s = [0%Z; kInvalidPlayer].
Proof.
  destruct (play_valid [[0; 4]; [2; 2]]%Z (initial_state default_game)) as [s Hplay].
  - reflexivity.
  - valid_by_check.
  - exists s. split; [exact Hplay|].
    destruct (state_replays_history default_game (initial_state default_game) s
                [[0; 4]; [2; 2]]%Z eq_refl Hplay) as (Hah & Hws & _).
    split; [exact Hah | exact Hws].
Defined.

(** X7: a run goes through exactly when every joint action in it passes the
    checks DoApplyActions makes: one entry per player, each of which, copied
    into an int, lies in [0, num_options_).  Every run of valid joint actions
    does (num_options_ being an int).  When a joint action fails the checks,
    the run ends in the fatal error there, and the state is the one left by
    the joint actions before it. *)
Theorem play_stops_at_first_rejected
    (g : BertrandOligopolyGame) (s0 : BertrandOligopolyState)
    (history : list (list Action)) :
  NewInitialState g = Some s0 ->
  (Forall (checked_actions s0) history <-> exists s, play history s0 = (Some tt, s))
  /\ ((g_num_options_ g <= INT_MAX)%Z -> Forall (valid_actions s0) history ->
      exists s, play history s0 = (Some tt, s))
  /\ forall h1 bad h2,
       history = h1 ++ bad :: h2 ->
       Forall (checked_actions s0) h1 -> ~ checked_actions s0 bad ->
       exists s1, play h1 s0 = (Some tt, s1) /\ play history s0 = (None, s1).
Proof.
  intros Hinit. pose proof (NewInitialState_wf g s0 Hinit) as Hwf.
  split; [|split].
  - split; [apply play_checked|].
    intros [s Hplay]. apply (play_records history s0 s Hwf Hplay).
  - intros Hmax Hall. apply play_valid; [|exact Hall].
    rewrite NewInitialState_eq in Hinit.
    destruct (1 <? g_num_options_ g)%Z; [|discriminate].
    injection Hinit as <-. apply Z.leb_le. exact Hmax.
  - intros h1 bad h2 -> Hall Hbad.
    destruct (play_checked h1 s0 Hall) as [s1 H1]. exists s1. split; [exact H1|].
    rewrite play_app, H1, play_cons, DoApplyActions_run.
    destruct (checked_actionsb s1 bad) eqn:Hv; [|reflexivity].
    exfalso. apply Hbad. apply checked_actionsb_spec in Hv.
    apply (same_params_checked_actions s0 s1 bad (play_same_params h1 s0 s1 H1)).
    exact Hv.
Qed.

Lemma play_stops_at_first_rejected_witness :
  exists s1,
    play [[0; 4]%Z] (initial_state default_game) = (Some tt, s1)
    /\ play [[0; 4]; [0; 15]; [1; 1]]%Z (initial_state default_game) = (None, s1).
Proof.
  destruct (play_stops_at_first_rejected default_game (initial_state default_game)
              [[0; 4]; [0; 15]; [1; 1]]%Z eq_refl) as (_ & _ & Hstop).
  apply (Hstop [[0; 4]%Z] [0; 15]%Z [[1; 1]%Z]).
  - reflexivity.
  - constructor; [|constructor]. apply checked_actionsb_spec. reflexivity.
  - intros [_ Hrange]. specialize (Hrange 1%nat 15%Z eq_refl). cbv in Hrange.
    destruct Hrange as [_ H]. discriminate H.
Defined.

(** ** Legal actions *)

Lemma is_legal_range (s : BertrandOligopolyState) (p : nat) (a : Action) :
  IsTerminal s = false -> (p < num_players_ s)%nat ->
  (is_legal s (Z.of_nat p) a <-> (0 <= a < num_options_ s)%Z).
Proof.
  intros Hopen Hp. unfold is_legal, LegalActions.
  unfold IsTerminal in Hopen. rewrite Hopen.
  replace (Z.of_nat p =? kSimultaneousPlayerId)%Z with false
    by (symmetry; apply Z.eqb_neq; unfold kSimultaneousPlayerId; lia).
  replace (Z.of_nat p =? kChancePlayerId)%Z with false
    by (symmetry; apply Z.eqb_neq; unfold kChancePlayerId; lia).
  replace (0 <=? Z.of_nat p)%Z with true by (symmetry; apply Z.leb_le; lia).
  replace (Z.of_nat p <? Z.of_nat (num_players_ s))%Z with true
    by (symmetry; apply Z.ltb_lt; lia).
  simpl. split.
  - intros (l & [= <-] & Hin). apply list_elem_of_fmap in Hin as (k & -> & Hk).
    apply elem_of_seq in Hk. lia.
  - intros Ha. eexists. split; [reflexivity|].
    apply list_elem_of_fmap. exists (Z.to_nat a). split; [lia|].
    apply elem_of_seq. lia.
Qed.

(** X8: on a state that is not terminal, DoApplyActions accepts a joint
    action exactly when it has one entry per player and the copy of each
    entry in an int is among the legal actions LegalActions gives for that
    player; so (num_options_ being an int) every joint action made of legal
    actions is accepted.  On a terminal state LegalActions gives the empty
    list for every player argument, valid or not. *)
Theorem checks_agree_with_legal_actions (s : BertrandOligopolyState) :
  (IsTerminal s = false ->
   forall actions,
     ((length actions = num_players_ s
       /\ forall p a, actions !! p = Some a -> is_legal s (Z.of_nat p) (to_int a))
      <-> exists s', DoApplyActions actions s = (Some tt, s'))
     /\ ((num_options_ s <= INT_MAX)%Z ->
         length actions = num_players_ s ->
         (forall p a, actions !! p = Some a -> is_legal s (Z.of_nat p) a) ->
         exists s', DoApplyActions actions s = (Some tt, s')))
  /\ (IsTerminal s = true -> forall player, LegalActions s player = Moves []).
Proof.
  split.
  - intros Hopen actions. split.
    + rewrite DoApplyActions_run. split.
      * intros [Hlen Hlegal].
        assert (Hv : checked_actions s actions).
        { split; [exact Hlen|]. intros p a Hp.
          apply (is_legal_range s p (to_int a) Hopen); [|apply Hlegal; exact Hp].
          rewrite <- Hlen. eapply lookup_lt_Some. exact Hp. }
        rewrite (proj2 (checked_actionsb_spec s actions) Hv). eexists. reflexivity.
      * intros [s' Hrun]. destruct (checked_actionsb s actions) eqn:Hv; [|discriminate].
        apply checked_actionsb_spec in Hv as [Hlen Hrange]. split; [exact Hlen|].
        intros p a Hp. apply (is_legal_range s p (to_int a) Hopen); [|exact (Hrange p a Hp)].
        rewrite <- Hlen. eapply lookup_lt_Some. exact Hp.
    + intros Hmax Hlen Hlegal. eexists. apply DoApplyActions_valid; [exact Hmax|].
      split; [exact Hlen|]. intros p a Hp.
      apply (is_legal_range s p a Hopen); [|apply Hlegal; exact Hp].
      rewrite <- Hlen. eapply lookup_lt_Some. exact Hp.
  - intros Hterm player. unfold LegalActions. unfold IsTerminal in Hterm.
    rewrite Hterm. reflexivity.
Qed.

Lemma checks_agree_with_legal_actions_witness :
  (exists s', DoApplyActions [0; 4]%Z (initial_state one_round_game) = (Some tt, s'))
  /\ LegalActions win_loss_final 7 = Moves [].
Proof.
  pose proof (checks_agree_with_legal_actions (initial_state one_round_game))
    as [Hopen _].
  pose proof (checks_agree_with_legal_actions win_loss_final) as [_ Hterm].
  split.
  - apply (proj2 (Hopen eq_refl [0; 4]%Z)); [cbv; discriminate | reflexivity |].
    intros [|[|p]] a; simpl; intros [= <-]; eexists; (split; [reflexivity|]);
      cbv; repeat constructor.
  - apply Hterm. reflexivity.
Defined.

(** ** The winner loop *)

Lemma winner_scan_subset (pts : list R) (mp : Z) (w : gset nat) (q p : nat) :
  p ∈ (winner_scan pts (mp, w) q).2 -> p = q \/ p ∈ w.
Proof.
  unfold winner_scan.
  destruct (Rgt_dec (pts !!! q) (IZR mp)) as [Hgt|Hngt];
    [|destruct (Req_dec_T (pts !!! q) (IZR mp)) as [Heq|Hne]]; simpl; intros Hin.
  - apply elem_of_union in Hin as [Hin | Hin];
      [apply elem_of_singleton in Hin; left; exact Hin | inversion Hin].
  - apply elem_of_union in Hin as [Hin | Hin];
      [apply elem_of_singleton in Hin; left; exact Hin | right; exact Hin].
  - right. exact Hin.
Qed.

Lemma winner_scan_fold_subset (pts : list R) (l : list nat) :
  forall (st : Z * gset nat) (p : nat),
    p ∈ (foldl (winner_scan pts) st l).2 -> p ∈ l \/ p ∈ st.2.
Proof.
  induction l as [|q l IH]; intros [mp w] p Hin; [right; exact Hin|].
  cbn [foldl] in Hin. apply IH in Hin as [Hin | Hin]; [left; right; exact Hin|].
  apply winner_scan_subset in Hin as [-> | Hin]; [left; left | right; exact Hin].
Qed.

Lemma find_winners_subset (pts : list R) (n : nat) (p : nat) :
  p ∈ find_winners pts n ∅ -> (p < n)%nat.
Proof.
  intros Hin. apply winner_scan_fold_subset in Hin as [Hin | Hin].
  - apply elem_of_seq in Hin. lia.
  - inversion Hin.
Qed.

(** In a play the terminal state is the one the last application made
    terminal, so its winners_ is what the loop computed from its points_,
    and every earlier state has no winner. *)
Lemma reachable_winners (g : BertrandOligopolyGame) (s : BertrandOligopolyState) :
  reachable g s ->
  winners_ s = if IsTerminal s
               then find_winners (points_ s) (num_players_ s) ∅ else ∅.
Proof.
  induction 1 as [s0 H0 | s s' actions Hreach IH Hopen Hv Hrun].
  - rewrite NewInitialState_eq in H0.
    destruct (1 <? g_num_options_ g)%Z; [|discriminate].
    injection H0 as <-. reflexivity.
  - rewrite Hopen in IH.
    pose proof (reachable_wf g s Hreach) as Hwf.
    pose proof (reachable_rounds g s Hreach) as (_ & _ & _ & _ & _ & _ & _ & Hcp).
    destruct (Hcp Hopen) as [Hsim _].
    apply DoApplyActions_Some in Hrun as [-> _].
    rewrite (apply_result_eq s actions Hwf (proj1 Hv)).
    unfold IsTerminal. simpl. rewrite IH, Hsim.
    destruct (Z.succ (current_turn_ s) =? num_turns_ s)%Z; reflexivity.
Qed.

Lemma winners_are_players_aux (g : BertrandOligopolyGame) (s : BertrandOligopolyState) :
  reachable g s -> forall p, p ∈ winners_ s -> (p < num_players_ s)%nat.
Proof.
  intros Hreach p Hin. rewrite (reachable_winners g s Hreach) in Hin.
  destruct (IsTerminal s); [|inversion Hin].
  eapply find_winners_subset. exact Hin.
Qed.

(** X9: in every state of a play winners_ holds player indices only, and it
    is empty as long as the state is not terminal. *)
Theorem winners_are_players (g : BertrandOligopolyGame) (s : BertrandOligopolyState) :
  reachable g s ->
  (forall p, p ∈ winners_ s -> (p < num_players_ s)%nat)
  /\ (IsTerminal s = false -> winners_ s = ∅).
Proof.
  intros Hreach. rewrite (reachable_winners g s Hreach). split.
  - intros p Hin. destruct (IsTerminal s); [|inversion Hin].
    eapply find_winners_subset. exact Hin.
  - intros ->. reflexivity.
Qed.

Lemma winners_are_players_witness :
  winners_ (initial_state one_round_game) = ∅.
Proof.
  apply (winners_are_players one_round_game (initial_state one_round_game)).
  - apply reachable_init. reflexivity.
  - reflexivity.
Defined.

Lemma winner_scan_below (pts : list R) (l : list nat) (w : gset nat) :
  (forall p, p ∈ l -> (pts !!! p < -1)%R) ->
  foldl (winner_scan pts) ((-1)%Z, w) l = ((-1)%Z, w).
Proof.
  induction l as [|q l IH]; intros Hl; [reflexivity|].
  cbn [foldl]. assert (Hq : (pts !!! q < -1)%R) by (apply Hl; left).
  unfold winner_scan at 2.
  destruct (Rgt_dec (pts !!! q) (-1)) as [Hgt|_]; [lra|].
  destruct (Req_dec_T (pts !!! q) (-1)) as [Heq|_]; [lra|].
  apply IH. intros p Hp. apply Hl. right. exact Hp.
Qed.

Lemma singleton_union_nonempty (q : nat) (w : gset nat) : {[q]} ∪ w <> ∅.
Proof.
  intros H. apply (not_elem_of_empty (C := gset nat) q). rewrite <- H.
  apply elem_of_union_l, elem_of_singleton. reflexivity.
Qed.

Lemma winner_scan_keeps_nonempty (pts : list R) (st : Z * gset nat) (q : nat) :
  st.2 <> ∅ -> (winner_scan pts st q).2 <> ∅.
Proof.
  destruct st as [mp w]. unfold winner_scan. simpl. intros Hw.
  destruct (Rgt_dec _ _); [|destruct (Req_dec_T _ _)]; simpl;
    [apply singleton_union_nonempty | apply singleton_union_nonempty | exact Hw].
Qed.

Lemma winner_scan_fold_keeps_nonempty (pts : list R) (l : list nat) :
  forall st : Z * gset nat, st.2 <> ∅ -> (foldl (winner_scan pts) st l).2 <> ∅.
Proof.
  induction l as [|q l IH]; intros st Hst; [exact Hst|].
  cbn [foldl]. apply IH. apply winner_scan_keeps_nonempty. exact Hst.
Qed.

Lemma winner_scan_fold_nonempty (pts : list R) (l : list nat) (w : gset nat) :
  (exists p, p ∈ l /\ (-1 <= pts !!! p)%R) ->
  (foldl (winner_scan pts) ((-1)%Z, w) l).2 <> ∅.
Proof.
  induction l as [|q l IH]; intros (p & Hin & Hp); [inversion Hin|].
  cbn [foldl].
  destruct (Rlt_dec (pts !!! q) (-1)) as [Hlow|Hhigh].
  - assert (Hstep : winner_scan pts ((-1)%Z, w) q = ((-1)%Z, w)).
    { unfold winner_scan.
      destruct (Rgt_dec (pts !!! q) (-1)); [lra|].
      destruct (Req_dec_T (pts !!! q) (-1)); [lra | reflexivity]. }
    rewrite Hstep. apply IH. exists p. split; [|exact Hp].
    apply elem_of_cons in Hin as [-> | Hin]; [lra | exact Hin].
  - apply winner_scan_fold_keeps_nonempty. unfold winner_scan.
    destruct (Rgt_dec (pts !!! q) (-1)); [simpl; apply singleton_union_nonempty|].
    destruct (Req_dec_T (pts !!! q) (-1)); [simpl; apply singleton_union_nonempty | lra].
Qed.


Lemma costly_profit_2_2 (p : nat) :
  (p < 2)%nat -> (profit (initial_state costly_game) [2; 2]%Z p < -1)%R.
Proof.
  intros Hp.
  assert (Hwf : wf (initial_state costly_game))
    by (apply (NewInitialState_wf costly_game); reflexivity).
  rewrite (profit_logit (initial_state costly_game) [2; 2]%Z p Hwf eq_refl Hp).
  assert (Hprice : price_of (initial_state costly_game) 2 = 1.69895%R).
  { unfold price_of. simpl. unfold kDefaultIntervalSize.
    change (5 - 1)%Z with 4%Z. lra. }
  unfold logit_profit, logit_denominator.
  assert (Hp' : (price_of (initial_state costly_game) <$> [2; 2]%Z) !!! p = 1.69895%R).
  { destruct p as [|[|p]]; [| |lia]; simpl; exact Hprice. }
  rewrite Hp'. simpl fmap. rewrite Hprice. unfold sum_R. simpl.
  unfold kDefaultOutsideGood, kDefaultHorizontalDifferentiation.
  replace (0 / 0.25)%R with 0%R by lra. rewrite exp_0.
  assert (HE : (1 < exp ((2 - 1.69895) / 0.25))%R).
  { rewrite <- exp_0. apply exp_increasing. lra. }
  set (E := exp ((2 - 1.69895) / 0.25)) in *.
  assert (HD : (0 < 1 + (E + (E + 0)))%R) by lra.
  apply (Rmult_lt_reg_r (1 + (E + (E + 0)))); [exact HD|].
  unfold Rdiv. rewrite Rmult_assoc, Rinv_l by lra. nra.
Qed.


Lemma truncate_band (x : R) (k : Z) :
  (0 <= k)%Z -> (IZR k <= x < IZR k + 1)%R -> truncate x = k.
Proof.
  intros Hk [Hlo Hhi]. unfold truncate.
  assert (0 <= IZR k)%R by (apply IZR_le; exact Hk).
  destruct (Rle_dec 0 x) as [_|Hn]; [|lra].
  symmetry. apply Int_part_spec. lra.
Qed.

(** The conversion of a double between [k] and [k + 1]: [k] when that fits
    an [int], [INT_MIN] otherwise. *)
Lemma double_to_int_band (x : R) (k : Z) :
  (0 <= k)%Z -> (IZR k <= x < IZR k + 1)%R ->
  double_to_int x = if (k <=? INT_MAX)%Z then k else INT_MIN.
Proof.
  intros Hk Hx. unfold double_to_int. cbv zeta. rewrite (truncate_band x k Hk Hx).
  replace (INT_MIN <=? k)%Z with true
    by (symmetry; apply Z.leb_le; unfold INT_MIN; lia).
  reflexivity.
Qed.

Lemma winner_scan_band (pts : list R) (k : Z) (w : gset nat) (m : nat) :
  (0 <= k)%Z ->
  (forall p, (p <= m)%nat -> (IZR k < pts !!! p < IZR k + 1)%R) ->
  foldl (winner_scan pts) ((-1)%Z, w) (seq 0 (S m))
  = (if (k <=? INT_MAX)%Z then k else INT_MIN, {[m]} ∪ ∅).
Proof.
  intros Hk.
  assert (Hc : (IZR (if (k <=? INT_MAX)%Z then k else INT_MIN) <= IZR k)%R).
  { apply IZR_le. destruct (k <=? INT_MAX)%Z; unfold INT_MIN; lia. }
  induction m as [|m IH]; intros Hband.
  - simpl. unfold winner_scan.
    pose proof (Hband 0%nat ltac:(lia)) as H0.
    assert (0 <= IZR k)%R by (apply IZR_le; exact Hk).
    destruct (Rgt_dec (pts !!! 0%nat) (-1)) as [_|Hn]; [|lra].
    rewrite (double_to_int_band _ k Hk) by lra. reflexivity.
  - rewrite seq_S, foldl_app, IH by (intros p Hp; apply Hband; lia).
    simpl. unfold winner_scan.
    pose proof (Hband (S m) ltac:(lia)) as Hm.
    destruct (Rgt_dec (pts !!! S m) (IZR (if (k <=? INT_MAX)%Z then k else INT_MIN)))
      as [_|Hn]; [|lra].
    rewrite (double_to_int_band _ k Hk) by lra. reflexivity.
Qed.

(** X11: on a terminal state of a play whose players' points all lie
    strictly between the same two consecutive whole numbers k and k+1, k
    not negative, winners_ is the last player alone, whoever holds the most
    points: the loop truncates its running maximum to k (or, when k does
    not fit an int, converts it to INT_MIN), so each player in turn
    compares greater and replaces the set. *)
Theorem last_player_wins_within_a_unit
    (g : BertrandOligopolyGame) (s : BertrandOligopolyState) (k : Z) :
  reachable g s -> IsTerminal s = true ->
  (1 <= num_players_ s)%nat -> (0 <= k)%Z ->
  (forall p x, points_ s !! p = Some x -> (IZR k < x < IZR k + 1)%R) ->
  winners_ s = {[(num_players_ s - 1)%nat]}.
Proof.
  intros Hreach Hterm Hn Hk Hband.
  rewrite (reachable_winners g s Hreach), Hterm.
  destruct (reachable_wf g s Hreach) as (_ & Hlen & _).
  unfold find_winners.
  replace (num_players_ s) with (S (num_players_ s - 1)) at 1 by lia.
  rewrite (winner_scan_band (points_ s) k ∅ (num_players_ s - 1) Hk).
  - simpl. apply union_empty_r_L.
  - intros p Hp. destruct (lookup_lt_is_Some_2 (points_ s) p) as [x Hx]; [lia|].
    rewrite (list_lookup_total_correct _ _ _ Hx). exact (Hband p x Hx).
Qed.

Lemma last_player_wins_within_a_unit_witness :
  exists s x0 x1,
    DoApplyActions [0; 4]%Z (initial_state one_round_game) = (Some tt, s)
    /\ points_ s = [x0; x1] /\ (x1 < x0)%R
    /\ winners_ s = {[1%nat]}.
Proof.
  destruct (one_round_run one_round_game [0; 4]%Z) as (Hrun & Hreach & Hterm);
    [reflexivity | reflexivity | valid_by_check |].
  assert (Hwf : wf (initial_state one_round_game))
    by (apply (NewInitialState_wf one_round_game); reflexivity).
  pose proof one_round_profit_0_4 as [[H1 H01] H0]. cbv zeta in H1, H01, H0.
  pose proof (apply_result_eq (initial_state one_round_game) [0; 4]%Z Hwf eq_refl) as Heq.
  simpl in Heq.
  exists (apply_result (initial_state one_round_game) [0; 4]%Z),
    (0 + profit (initial_state one_round_game) [0; 4]%Z 0)%R,
    (0 + profit (initial_state one_round_game) [0; 4]%Z 1)%R.
  split; [exact Hrun|]. split; [rewrite Heq; reflexivity|]. split; [lra|].
  apply (last_player_wins_within_a_unit one_round_game _ 0%Z Hreach Hterm).
  - rewrite Heq. simpl. unfold kDefaultNumPlayers. lia.
  - lia.
  - rewrite Heq. simpl. intros [|[|p]] x; simpl; intros [= <-]; lra.
Defined.

Lemma double_to_int_IZR (z : Z) : (0 <= z <= INT_MAX)%Z -> double_to_int (IZR z) = z.
Proof.
  intros [Hz Hmax]. rewrite (double_to_int_band _ z Hz) by lra.
  apply Z.leb_le in Hmax. rewrite Hmax. reflexivity.
Qed.

Lemma winner_scan_whole (pts : list R) (m : nat) :
  whole_points pts -> (m <= length pts)%nat ->
  let st := foldl (winner_scan pts) ((-1)%Z, ∅) (seq 0 m) in
  (-1 <= st.1)%Z
  /\ (forall q z, (q < m)%nat -> pts !! q = Some (IZR z) -> (z <= st.1)%Z)
  /\ (st.1 = (-1)%Z \/ exists q, (q < m)%nat /\ pts !! q = Some (IZR st.1))
  /\ (forall p, p ∈ st.2 <-> (p < m)%nat /\ pts !! p = Some (IZR st.1)).
Proof.
  intros Hwhole. induction m as [|m IH]; intros Hm; cbv zeta.
  - simpl. split; [lia|]. split; [intros; lia|]. split; [left; reflexivity|].
    intros p. split; [intros Hin; inversion Hin | intros [Hp _]; lia].
  - rewrite seq_S, foldl_app. simpl.
    specialize (IH ltac:(lia)). cbv zeta in IH.
    destruct (foldl (winner_scan pts) ((-1)%Z, ∅) (seq 0 m)) as [M W].
    simpl in IH. destruct IH as (HM & Hle & Hatt & HW).
    destruct (lookup_lt_is_Some_2 pts m) as [x Hx]; [lia|].
    destruct (Hwhole m x Hx) as (z & Hz & ->).
    unfold winner_scan. rewrite (list_lookup_total_correct _ _ _ Hx).
    destruct (Rgt_dec (IZR z) (IZR M)) as [Hgt|Hngt];
      [|destruct (Req_dec_T (IZR z) (IZR M)) as [Heq|Hne]]; simpl.
    + apply lt_IZR in Hgt. rewrite double_to_int_IZR by exact Hz.
      split; [lia|]. split; [|split].
      * intros q y Hq Hy. destruct (decide (q = m)) as [->|Hne].
        -- rewrite Hx in Hy. injection Hy as Hy. apply eq_IZR in Hy. lia.
        -- specialize (Hle q y ltac:(lia) Hy). lia.
      * right. exists m. split; [lia | exact Hx].
      * intros p. rewrite elem_of_union, elem_of_singleton. split.
        -- intros [-> | Hin]; [split; [lia | exact Hx] | inversion Hin].
        -- intros [Hp Hpz]. left. destruct (decide (p = m)) as [->|Hne]; [reflexivity|].
           specialize (Hle p z ltac:(lia) Hpz). lia.
    + apply eq_IZR in Heq. subst z.
      split; [lia|]. split; [|split].
      * intros q y Hq Hy. destruct (decide (q = m)) as [->|Hne].
        -- rewrite Hx in Hy. injection Hy as Hy. apply eq_IZR in Hy. lia.
        -- exact (Hle q y ltac:(lia) Hy).
      * right. exists m. split; [lia | exact Hx].
      * intros p. rewrite elem_of_union, elem_of_singleton, HW. split.
        -- intros [-> | [Hp Hpz]]; [split; [lia | exact Hx] | split; [lia | exact Hpz]].
        -- intros [Hp Hpz]. destruct (decide (p = m)) as [->|Hne];
             [left; reflexivity | right; split; [lia | exact Hpz]].
    + assert (Hlt : (z < M)%Z).
      { destruct (Z.lt_trichotomy z M) as [H|[H|H]]; [exact H | |].
        - subst z. contradiction.
        - exfalso. apply Hngt. apply IZR_lt. exact H. }
      split; [lia|]. split; [|split].
      * intros q y Hq Hy. destruct (decide (q = m)) as [->|Hne'].
        -- rewrite Hx in Hy. injection Hy as Hy. apply eq_IZR in Hy. lia.
        -- exact (Hle q y ltac:(lia) Hy).
      * destruct Hatt as [HM1 | (q & Hq & Hqv)]; [lia|].
        right. exists q. split; [lia | exact Hqv].
      * intros p. rewrite HW. split.
        -- intros [Hp Hpz]. split; [lia | exact Hpz].
        -- intros [Hp Hpz]. split; [|exact Hpz].
           destruct (decide (p = m)) as [->|Hne']; [|lia].
           rewrite Hx in Hpz. injection Hpz as Hpz. apply eq_IZR in Hpz. lia.
Qed.

(** X12: when every player's points are a non-negative whole number that
    fits an int (at most INT_MAX), the winner loop of DoApplyActions, run on
    a state with no winner yet, leaves in winners_ exactly the players
    holding the maximum of points_, ties included, and does not touch
    points_. *)
Theorem winner_loop_on_whole_points (s : BertrandOligopolyState) :
  whole_points (points_ s) ->
  length (points_ s) = num_players_ s ->
  winners_ s = ∅ ->
  exists mp s',
    for_acc (seq 0 (num_players_ s)) winner_step (-1)%Z s = (Some mp, s')
    /\ points_ s' = points_ s
    /\ forall p, p ∈ winners_ s' <-> holds_max (points_ s) p.
Proof.
  intros Hwhole Hlen Hempty. rewrite for_acc_winner. rewrite Hempty.
  eexists. eexists. split; [reflexivity|]. split; [reflexivity|].
  simpl winners_.
  pose proof (winner_scan_whole (points_ s) (num_players_ s) Hwhole ltac:(lia)) as Hinv.
  cbv zeta in Hinv.
  destruct (foldl (winner_scan (points_ s)) ((-1)%Z, ∅) (seq 0 (num_players_ s)))
    as [M W].
  simpl in Hinv. destruct Hinv as (HM & Hle & Hatt & HW). simpl.
  intros p. rewrite HW. unfold holds_max. split.
  - intros [Hp Hpv]. exists (IZR M). split; [exact Hpv|].
    intros q y Hq. destruct (Hwhole q y Hq) as (z & _ & ->).
    apply IZR_le. apply (Hle q z); [|exact Hq].
    rewrite <- Hlen. eapply lookup_lt_Some. exact Hq.
  - intros (x & Hpv & Hmax).
    assert (Hp : (p < num_players_ s)%nat)
      by (rewrite <- Hlen; eapply lookup_lt_Some; exact Hpv).
    split; [exact Hp|].
    destruct (Hwhole p x Hpv) as (z & Hz & ->).
    assert (z <= M)%Z by (apply (Hle p z Hp Hpv)).
    destruct Hatt as [HM1 | (q & Hq & Hqv)]; [lia|].
    specialize (Hmax q (IZR M) Hqv). apply le_IZR in Hmax.
    replace M with z by lia. exact Hpv.
Qed.

Lemma winner_loop_on_whole_points_witness :
  exists mp s',
    for_acc (seq 0 2) winner_step (-1)%Z (state_with_points [3%R; 3%R]) = (Some mp, s')
    /\ 0%nat ∈ winners_ s' /\ 1%nat ∈ winners_ s'.
Proof.
  destruct (winner_loop_on_whole_points (state_with_points [3%R; 3%R]))
    as (mp & s' & Hrun & _ & Hwin).
  - intros [|[|p]] x; simpl; intros [= <-]; exists 3%Z;
      (split; [unfold INT_MAX; lia | reflexivity]).
  - reflexivity.
  - reflexivity.
  - exists mp, s'. split; [exact Hrun|].
    assert (Hmax : forall p, (p < 2)%nat -> holds_max [3%R; 3%R] p).
    { intros p Hp. exists 3%R. split.
      - destruct p as [|[|p]]; [reflexivity | reflexivity | lia].
      - intros [|[|q]] y; simpl; intros [= <-]; lra. }
    split; apply Hwin; apply Hmax; lia.
Defined.

(** ** Returns and the declared utility bounds *)

Lemma winners_size_le (g : BertrandOligopolyGame) (s : BertrandOligopolyState) :
  reachable g s -> (size (winners_ s) <= num_players_ s)%nat.
Proof.
  intros Hreach.
  rewrite (reachable_winners g s Hreach).
  destruct (IsTerminal s); [|rewrite size_empty; lia].
  assert (Hsub : find_winners (points_ s) (num_players_ s) ∅
                 ⊆ set_seq (C := gset nat) 0 (num_players_ s)).
  { intros p Hp. apply elem_of_set_seq. apply find_winners_subset in Hp. lia. }
  apply subseteq_size in Hsub. rewrite size_set_seq in Hsub. exact Hsub.
Qed.

Lemma Returns_win_loss_at (s : BertrandOligopolyState) (p : nat) :
  IsTerminal s = true -> returns_type_ s = kWinLoss -> (p < num_players_ s)%nat ->
  Returns s !! p
  = Some (if Nat.eqb (size (winners_ s)) (num_players_ s) then 0%R
          else if decide (p ∈ winners_ s)
               then (1 / IZR (Z.of_nat (size (winners_ s))))%R
               else (-1 / IZR (Z.of_nat (num_players_ s)
                               - Z.of_nat (size (winners_ s))))%R).
Proof.
  intros Hterm Hty Hp. unfold Returns. rewrite Hterm, Hty. simpl.
  destruct (Nat.eqb (size (winners_ s)) (num_players_ s)).
  - apply lookup_replicate_2. exact Hp.
  - rewrite foldl_insert_const, length_replicate.
    destruct (decide (p ∈ winners_ s)) as [Hin|Hnin].
    + destruct (decide (p ∈ elements (winners_ s))) as [_|Hc];
        [|exfalso; apply Hc, elem_of_elements; exact Hin].
      destruct (decide (p < num_players_ s)%nat); [reflexivity | contradiction].
    + destruct (decide (p ∈ elements (winners_ s))) as [Hc|_];
        [exfalso; apply Hnin, elem_of_elements; exact Hc|].
      apply lookup_replicate_2. exact Hp.
Qed.

Lemma inv_whole_bounds (j : Z) : (1 <= j)%Z -> (0 < 1 / IZR j <= 1)%R.
Proof.
  intros Hj. apply IZR_le in Hj. split.
  - apply Rdiv_lt_0_compat; lra.
  - apply (Rmult_le_reg_r (IZR j)); [lra|].
    unfold Rdiv. rewrite Rmult_assoc, Rinv_l by lra. lra.
Qed.

(** X13: on a terminal state of a play scored by kWinLoss, every player's
    return lies between MinUtility() = -1 and MaxUtility() = 1. *)
Theorem win_loss_returns_within_declared_bounds
    (g : BertrandOligopolyGame) (s : BertrandOligopolyState) (p : nat) :
  reachable g s -> IsTerminal s = true -> g_returns_type_ g = kWinLoss ->
  (p < num_players_ s)%nat ->
  exists r, Returns s !! p = Some r /\ (MinUtility g <= r <= MaxUtility g)%R.
Proof.
  intros Hreach Hterm Hty Hp.
  destruct (reachable_same_params g s Hreach)
    as (_ & _ & _ & _ & _ & _ & _ & _ & _ & _ & Hrt & _).
  simpl in Hrt. rewrite Hty in Hrt.
  rewrite (Returns_win_loss_at s p Hterm Hrt Hp).
  eexists. split; [reflexivity|].
  unfold MinUtility, MaxUtility. rewrite Hty.
  pose proof (winners_size_le g s Hreach) as Hle.
  destruct (Nat.eqb (size (winners_ s)) (num_players_ s)) eqn:Hdraw; [lra|].
  apply Nat.eqb_neq in Hdraw.
  destruct (decide (p ∈ winners_ s)) as [Hin|Hnin].
  - assert (Hpos : size (winners_ s) <> 0%nat).
    { intros H0. apply size_empty_iff in H0. apply (not_elem_of_empty (C := gset nat) p).
      rewrite <- H0. exact Hin. }
    assert (Hk : (1 <= Z.of_nat (size (winners_ s)))%Z) by lia.
    pose proof (inv_whole_bounds _ Hk). lra.
  - assert (Hk : (1 <= Z.of_nat (num_players_ s) - Z.of_nat (size (winners_ s)))%Z) by lia.
    pose proof (inv_whole_bounds _ Hk).
    unfold Rdiv in *. lra.
Qed.

Lemma win_loss_returns_within_declared_bounds_witness :
  exists s r, DoApplyActions [2; 2]%Z (initial_state costly_game) = (Some tt, s)
              /\ Returns s !! 0%nat = Some r /\ (-1 <= r <= 1)%R.
Proof.
  destruct (one_round_run costly_game [2; 2]%Z) as (Hrun & Hreach & Hterm);
    [reflexivity | reflexivity | valid_by_check |].
  destruct (win_loss_returns_within_declared_bounds costly_game _ 0 Hreach Hterm eq_refl)
    as (r & Hr & Hbounds).
  - rewrite (proj1 (proj2 (apply_result_frame (initial_state costly_game) [2; 2]%Z))).
    cbv. lia.
  - eexists. exists r. split; [exact Hrun|]. split; [exact Hr | exact Hbounds].
Defined.

Lemma sum_R_insert (l : list R) :
  forall (i : nat) (x : R),
    (i < length l)%nat -> sum_R (<[i := x]> l) = (sum_R l - l !!! i + x)%R.
Proof.
  induction l as [|y l IH]; intros i x Hi; [simpl in Hi; lia|].
  destruct i as [|i].
  - change (<[0%nat := x]> (y :: l)) with (x :: l).
    change ((y :: l) !!! 0%nat) with y. rewrite !sum_R_cons. lra.
  - change (<[S i := x]> (y :: l)) with (y :: <[i := x]> l).
    change ((y :: l) !!! S i) with (l !!! i).
    rewrite !sum_R_cons, IH by (simpl in Hi; lia). lra.
Qed.

Lemma sum_R_replicate (n : nat) (b : R) : sum_R (replicate n b) = (INR n * b)%R.
Proof.
  induction n as [|n IH]; [unfold sum_R; simpl; lra|].
  cbn [replicate]. rewrite sum_R_cons, IH, S_INR. lra.
Qed.

Lemma sum_R_fold_insert (v b : R) (ws : list nat) :
  NoDup ws ->
  forall r0 : list R,
    (forall w, w ∈ ws -> (w < length r0)%nat /\ r0 !!! w = b) ->
    sum_R (foldl (fun r w => <[w := v]> r) r0 ws)
    = (sum_R r0 + INR (length ws) * (v - b))%R.
Proof.
  induction 1 as [|w ws Hnotin Hnd IH]; intros r0 Hr0.
  - simpl. lra.
  - cbn [foldl]. destruct (Hr0 w ltac:(left)) as [Hw Hb].
    rewrite IH.
    + rewrite sum_R_insert by exact Hw. rewrite Hb.
      change (length (w :: ws)) with (S (length ws)). rewrite S_INR. lra.
    + intros w' Hw'. destruct (Hr0 w' ltac:(right; exact Hw')) as [Hlt Hb'].
      rewrite length_insert. split; [exact Hlt|].
      rewrite list_lookup_total_insert_ne; [exact Hb'|].
      intros ->. contradiction.
Qed.

(** X14: on a terminal state of a play scored by kWinLoss, with at least one
    player, the returns sum to zero whenever winners_ is not empty, and to -1
    when it is empty (every player then gets -1/num_players_). *)
Theorem win_loss_returns_sum
    (g : BertrandOligopolyGame) (s : BertrandOligopolyState) :
  reachable g s -> IsTerminal s = true -> returns_type_ s = kWinLoss ->
  (1 <= num_players_ s)%nat ->
  (winners_ s <> ∅ -> sum_R (Returns s) = 0%R)
  /\ (winners_ s = ∅ -> sum_R (Returns s) = (-1)%R).
Proof.
  intros Hreach Hterm Hty Hn.
  pose proof (winners_size_le g s Hreach) as Hle.
  assert (Hplayers : forall p, p ∈ winners_ s -> (p < num_players_ s)%nat)
    by (apply (winners_are_players_aux g s Hreach)).
  unfold Returns. rewrite Hterm, Hty. simpl.
  assert (Hn' : (1 <= INR (num_players_ s))%R)
    by (replace 1%R with (INR 1) by reflexivity; apply le_INR; exact Hn).
  destruct (Nat.eqb (size (winners_ s)) (num_players_ s)) eqn:Hdraw.
  - apply Nat.eqb_eq in Hdraw. split.
    + intros _. rewrite sum_R_replicate. lra.
    + intros Hempty. rewrite Hempty, size_empty in Hdraw. lia.
  - apply Nat.eqb_neq in Hdraw.
    rewrite (sum_R_fold_insert _
               (-1 / IZR (Z.of_nat (num_players_ s) - Z.of_nat (size (winners_ s))))).
    2: apply NoDup_elements.
    2:{ intros w Hw. apply elem_of_elements in Hw. specialize (Hplayers w Hw).
        rewrite length_replicate. split; [exact Hplayers|].
        apply lookup_total_replicate_2. exact Hplayers. }
    rewrite sum_R_replicate.
    change (length (elements (winners_ s))) with (size (winners_ s)).
    rewrite minus_IZR, <- !INR_IZR_INZ.
    set (n := INR (num_players_ s)) in *. set (k := INR (size (winners_ s))).
    assert (Hkn : (k + 1 <= n)%R).
    { unfold k, n. rewrite <- S_INR. apply le_INR. lia. }
    split.
    + intros Hne. assert (Hk : (1 <= k)%R).
      { unfold k. replace 1%R with (INR 1) by reflexivity. apply le_INR.
        destruct (size (winners_ s)) eqn:Hs; [|lia].
        apply size_empty_iff in Hs. exfalso. apply Hne.
        apply leibniz_equiv. exact Hs. }
      field. split; lra.
    + intros Hempty.
      assert (Hk0 : k = 0%R) by (unfold k; rewrite Hempty, size_empty; reflexivity).
      rewrite Hk0, Rmult_0_l, Rplus_0_r, Rminus_0_r. field. lra.
Qed.

Lemma costly_final :
  let s := apply_result (initial_state costly_game) [2; 2]%Z in
  DoApplyActions [2; 2]%Z (initial_state costly_game) = (Some tt, s)
  /\ reachable costly_game s
  /\ IsTerminal s = true
  /\ num_players_ s = 2%nat
  /\ returns_type_ s = kWinLoss
  /\ winners_ s = ∅.
Proof.
  cbv zeta.
  destruct (one_round_run costly_game [2; 2]%Z) as (Hrun & Hreach & Hterm);
    [reflexivity | reflexivity | valid_by_check |].
  assert (Hwf : wf (initial_state costly_game))
    by (apply (NewInitialState_wf costly_game); reflexivity).
  split; [exact Hrun|]. split; [exact Hreach|]. split; [exact Hterm|].
  pose proof (reachable_winners costly_game _ Hreach) as Hw. rewrite Hterm in Hw.
  pose proof (apply_result_eq (initial_state costly_game) [2; 2]%Z Hwf eq_refl) as Heq.
  simpl in Heq.
  split; [rewrite Heq; reflexivity|]. split; [rewrite Heq; reflexivity|].
  rewrite Hw. unfold find_winners. rewrite winner_scan_below; [reflexivity|].
  pose proof (costly_profit_2_2 0 ltac:(lia)) as H0.
  pose proof (costly_profit_2_2 1 ltac:(lia)) as H1.
  rewrite Heq. simpl. intros p Hp.
  apply elem_of_cons in Hp as [-> | Hp]; [simpl; lra|].
  apply list_elem_of_singleton in Hp as ->. simpl. lra.
Qed.

Lemma win_loss_returns_sum_witness :
  exists s, DoApplyActions [2; 2]%Z (initial_state costly_game) = (Some tt, s)
            /\ sum_R (Returns s) = (-1)%R.
Proof.
  destruct costly_final as (Hrun & Hreach & Hterm & Hn & Hty & Hempty).
  eexists. split; [exact Hrun|].
  apply (win_loss_returns_sum costly_game _ Hreach Hterm Hty).
  - rewrite Hn. lia.
  - exact Hempty.
Defined.

Lemma share_lt_one (s : BertrandOligopolyState) (actions : list Action) (p : nat) :
  (p < length actions)%nat -> (share s actions p < 1)%R.
Proof.
  intros Hp. pose proof (demand_denominator_pos s actions) as HD.
  pose proof (demand_denominator_sum s actions) as Hsum.
  pose proof (exp_pos (IZR (outside_good_ s) / horizontal_differentiation_ s)) as H0.
  assert (Hle : (demand_term s p (actions !!! p)
                 <= sum_R ((fun q => demand_term s q (actions !!! q))
                             <$> seq 0 (length actions)))%R).
  { apply (sum_R_ge_member _) with (p := p).
    - intros y Hy. apply list_elem_of_fmap in Hy as (q & -> & _). left. apply exp_pos.
    - rewrite list_lookup_fmap, lookup_seq_lt by exact Hp. reflexivity. }
  unfold share. apply (Rmult_lt_reg_r (demand_denominator s actions)); [exact HD|].
  unfold Rdiv. rewrite Rmult_assoc, Rinv_l by lra. lra.
Qed.

Lemma profit_between (s : BertrandOligopolyState) (actions : list Action) (p : nat)
    (lo hi : R) :
  (p < length actions)%nat ->
  (lo <= price_of s (actions !!! p) - IZR (marginal_cost_ s) <= hi)%R ->
  (Rmin 0 lo <= profit s actions p <= Rmax 0 hi)%R.
Proof.
  intros Hp [Hlo Hhi]. rewrite profit_margin_share.
  pose proof (share_pos s actions p) as Hs0.
  pose proof (share_lt_one s actions p Hp) as Hs1.
  set (m := (price_of s (actions !!! p) - IZR (marginal_cost_ s))%R) in *.
  set (x := share s actions p) in *.
  pose proof (Rmin_l 0 lo). pose proof (Rmin_r 0 lo).
  pose proof (Rmax_l 0 hi). pose proof (Rmax_r 0 hi).
  split; destruct (Rle_dec 0 m); nra.
Qed.

Lemma reachable_price_range (g : BertrandOligopolyGame) (s : BertrandOligopolyState)
    (a : Action) :
  reachable g s -> (-1 / 2 <= g_interval_size_ g)%R ->
  (0 <= a < num_options_ s)%Z ->
  ((g_interval_ g).1 <= price_of s a <= (g_interval_ g).2)%R.
Proof.
  intros Hreach Hsize Ha.
  destruct (reachable_grid g s Hreach) as (Hopt & Ho & Hi & Hs).
  assert (Hn : (0 < IZR (g_num_options_ g - 1))%R) by (apply IZR_lt; lia).
  assert (Hstep : (0 <= g_step_size_ g)%R).
  { unfold g_step_size_, g_interval_. simpl.
    apply Rmult_le_pos; [nra | left; apply Rinv_0_lt_compat; exact Hn]. }
  assert (Hhigh : (g_interval_ g).2
                  = (IZR (g_num_options_ g - 1) * g_step_size_ g + (g_interval_ g).1)%R).
  { unfold g_step_size_. field. lra. }
  unfold price_of. rewrite Hs, Hi. rewrite Hhigh.
  assert (0 <= IZR a)%R by (apply IZR_le; lia).
  assert (IZR a <= IZR (g_num_options_ g - 1))%R by (apply IZR_le; lia).
  split; nra.
Qed.

Lemma reachable_points_range (g : BertrandOligopolyGame) (s : BertrandOligopolyState) :
  reachable g s -> (-1 / 2 <= g_interval_size_ g)%R ->
  forall p x, points_ s !! p = Some x ->
    (Rmin 0 ((g_interval_ g).1 - IZR (g_marginal_cost_ g)) * IZR (current_turn_ s)
     <= x
     <= Rmax 0 ((g_interval_ g).2 - IZR (g_marginal_cost_ g)) * IZR (current_turn_ s))%R.
Proof.
  intros Hreach Hsize.
  remember (Rmin 0 ((g_interval_ g).1 - IZR (g_marginal_cost_ g))) as lo eqn:Hlo.
  remember (Rmax 0 ((g_interval_ g).2 - IZR (g_marginal_cost_ g))) as hi eqn:Hhi.
  induction Hreach as [s0 H0 | s s' actions Hreach IH Hopen Hv Hrun].
  - rewrite NewInitialState_eq in H0.
    destruct (1 <? g_num_options_ g)%Z; [|discriminate]. injection H0 as <-.
    intros p x Hp. simpl in Hp. apply lookup_replicate in Hp as [-> _]. simpl. lra.
  - pose proof (reachable_wf g s Hreach) as Hwf.
    destruct (reachable_same_params g s Hreach)
      as (_ & _ & _ & _ & _ & _ & Hmc & _).
    simpl in Hmc.
    apply DoApplyActions_Some in Hrun as [-> _].
    pose proof (proj1 Hv) as Hlen.
    rewrite (apply_result_eq s actions Hwf Hlen). simpl.
    intros p x Hp. apply list_lookup_fmap_Some in Hp as (q & -> & Hq).
    apply lookup_seq in Hq as [-> Hq]. simpl.
    destruct (lookup_lt_is_Some_2 (points_ s) p) as [y Hy];
      [destruct Hwf as (_ & ? & _); lia|].
    rewrite (list_lookup_total_correct _ _ _ Hy).
    specialize (IH p y Hy).
    destruct (lookup_lt_is_Some_2 actions p) as [a Ha]; [lia|].
    pose proof (reachable_price_range g s a Hreach Hsize (proj2 Hv p a Ha)) as Hprice.
    assert (Hbound : (lo <= profit s actions p <= hi)%R).
    { rewrite Hlo, Hhi. apply profit_between; [lia|].
      rewrite (list_lookup_total_correct _ _ _ Ha), Hmc. lra. }
    rewrite succ_IZR. lra.
Qed.



Lemma foldl_insert_length {A} (F : list A -> nat -> A) (l : list nat) :
  forall r0 : list A, length (foldl (fun r p => <[p := F r p]> r) r0 l) = length r0.
Proof.
  induction l as [|p l IH]; intros r0; simpl; [reflexivity|].
  rewrite IH. apply length_insert.
Qed.

(** X16: Returns has exactly num_players_ entries, for every state and every
    returns policy, whatever the lengths of the state's vectors. *)
Theorem returns_one_entry_per_player (s : BertrandOligopolyState) :
  length (Returns s) = num_players_ s.
Proof.
  unfold Returns. destruct (negb (IsTerminal s)); [apply length_replicate|].
  destruct (returns_type_ s).
  - destruct (Nat.eqb _ _); [apply length_replicate|].
    rewrite foldl_insert_const_length. apply length_replicate.
  - rewrite point_difference_copy_fold.
    rewrite (foldl_insert_length (fun r p => (r !!! p - _)%R)).
    rewrite (foldl_insert_length (fun _ p => points_ s !!! p)).
    apply length_replicate.
  - rewrite (foldl_insert_length (fun _ p => points_ s !!! p)).
    apply length_replicate.
Qed.

Lemma sum_R_negative_member (l : list R) :
  (sum_R l < 0)%R -> exists i z, l !! i = Some z /\ (z < 0)%R.
Proof.
  induction l as [|x l IH]; intros Hsum.
  - unfold sum_R in Hsum. simpl in Hsum. lra.
  - rewrite sum_R_cons in Hsum.
    destruct (Rlt_dec x 0) as [Hx|Hx]; [exists 0%nat, x; split; [reflexivity | exact Hx]|].
    destruct IH as (i & z & Hi & Hz); [lra|].
    exists (S i), z. split; [exact Hi | exact Hz].
Qed.

Lemma sum_R_balanced (l : list R) (y : R) :
  (sum_R l <= 0)%R -> y ∈ l -> (0 < y)%R -> exists i z, l !! i = Some z /\ (z < 0)%R.
Proof.
  induction l as [|x l IH]; intros Hsum Hy Hpos; [inversion Hy|].
  rewrite sum_R_cons in Hsum.
  destruct (Rlt_dec x 0) as [Hx|Hx]; [exists 0%nat, x; split; [reflexivity | exact Hx]|].
  apply elem_of_cons in Hy as [-> | Hy].
  - destruct (sum_R_negative_member l) as (i & z & Hi & Hz); [lra|].
    exists (S i), z. split; [exact Hi | exact Hz].
  - destruct IH as (i & z & Hi & Hz); [lra | exact Hy | exact Hpos |].
    exists (S i), z. split; [exact Hi | exact Hz].
Qed.


Lemma point_difference_profit_0_4 :
  (profit (initial_state point_difference_game) [0; 4]%Z 1
   < profit (initial_state point_difference_game) [0; 4]%Z 0)%R.
Proof.
  pose proof one_round_profit_0_4 as [[_ H01] _]. cbv zeta in H01. exact H01.
Qed.


(** ** The observer's other blocks *)

Lemma WritePointsTotal_loop (s : BertrandOligopolyState) (n player : nat) (name : string)
    (shape : list Z) (m : nat) :
  num_players_ s = n -> (player < n)%nat -> (m <= n)%nat ->
  foldl (fun '(out, p) k =>
           (at1 out k (points_ s !!! p), ((p + 1) mod num_players_ s)%nat))
        ({| block_name := name; block_shape := shape; block_data := replicate n 0%R |},
         player) (seq 0 m)
  = ({| block_name := name; block_shape := shape;
        block_data := ((fun k => points_ s !!! ((player + k) mod n)%nat) <$> seq 0 m)
                      ++ replicate (n - m) 0%R |},
     ((player + m) mod n)%nat).
Proof.
  intros Hn Hplayer. induction m as [|m IH]; intros Hm.
  - simpl. rewrite Nat.sub_0_r, Nat.add_0_r, Nat.mod_small by exact Hplayer. reflexivity.
  - rewrite seq_S, foldl_app, IH by lia. simpl. rewrite Hn. f_equal.
    + unfold at1. simpl. f_equal.
      rewrite fmap_app. simpl.
      replace (n - m)%nat with (S (n - S m)) by lia. simpl.
      rewrite <- app_assoc. simpl.
      set (l1 := (fun k => points_ s !!! ((player + k) mod n)%nat) <$> seq 0 m).
      assert (Hl1 : length l1 = m) by (unfold l1; rewrite length_fmap, length_seq; reflexivity).
      replace m with (length l1 + 0)%nat at 1 by lia.
      rewrite insert_app_r. reflexivity.
    + rewrite Nat.Div0.add_mod_idemp_l. f_equal. lia.
Qed.

(** X18: whenever the observer writes public information, the first block it
    obtains is point_totals, with one cell per player, and cell k holds the
    points of player (player + k) mod n: the totals are listed starting from
    the requesting player, whatever the observer's egocentric flag. *)
Theorem point_totals_start_at_requester
    (g : BertrandOligopolyGame) (s : BertrandOligopolyState)
    (o : BertrandOligopolyObserver) (player : Z) :
  reachable g s ->
  (0 <= player < Z.of_nat (NumPlayers g))%Z ->
  public_info (iig_obs_type_ o) = true ->
  exists b rest,
    WriteTensor o s player = Some (b :: rest)
    /\ block_name b = "point_totals"%string
    /\ block_shape b = [Z.of_nat (NumPlayers g)]
    /\ block_data b
       = (fun k => points_ s !!! ((Z.to_nat player + k) mod NumPlayers g)%nat)
           <$> seq 0 (NumPlayers g).
Proof.
  intros Hreach Hplayer Hpub.
  destruct (reachable_rounds g s Hreach) as (Hg & Hn & _).
  unfold WriteTensor. rewrite Hg.
  replace (negb (0 <=? player)%Z) with false by (symmetry; apply negb_false_iff; lia).
  replace (negb (player <? Z.of_nat (NumPlayers g))%Z) with false
    by (symmetry; apply negb_false_iff; lia).
  rewrite Hpub. cbn [app].
  eexists _, _. split; [reflexivity|].
  unfold WritePointsTotal, Allocator_Get, shape_size. cbn [foldr].
  rewrite Z.mul_1_r, Nat2Z.id.
  rewrite (WritePointsTotal_loop s (NumPlayers g) (Z.to_nat player));
    [| exact Hn | lia | lia].
  cbn [fst block_name block_shape block_data].
  rewrite Nat.sub_diag. simpl. rewrite app_nil_r. repeat split.
Qed.

Lemma point_totals_start_at_requester_witness :
  exists b rest,
    ObservationTensor (initial_state default_game) 1 = Some (b :: rest)
    /\ block_name b = "point_totals"%string
    /\ block_shape b = [Z.of_nat (NumPlayers default_game)]
    /\ block_data b
       = (fun k => points_ (initial_state default_game)
                     !!! ((Z.to_nat 1 + k) mod NumPlayers default_game)%nat)
           <$> seq 0 (NumPlayers default_game).
Proof.
  apply (point_totals_start_at_requester default_game (initial_state default_game)
           (default_observer_ default_game) 1).
  - apply reachable_init. reflexivity.
  - cbv. split; [discriminate | reflexivity].
  - reflexivity.
Defined.

Lemma reachable_history_valid (g : BertrandOligopolyGame) (s : BertrandOligopolyState) :
  reachable g s ->
  forall round actions, actions_history_ s !! round = Some actions ->
    length actions = g_num_players_ g
    /\ forall p a, actions !! p = Some a -> (0 <= a < g_num_options_ g)%Z.
Proof.
  induction 1 as [s0 H0 | s s' actions Hreach IH Hopen Hvalid Hrun];
    intros round acts Hround.
  - rewrite NewInitialState_eq in H0. destruct (1 <? g_num_options_ g)%Z; [|discriminate].
    injection H0 as <-. simpl in Hround. rewrite lookup_nil in Hround. discriminate.
  - destruct (reachable_rounds g s Hreach) as (_ & Hn & Ho & _).
    apply DoApplyActions_Some in Hrun as [-> _].
    pose proof (apply_result_frame s actions) as (_ & _ & _ & _ & _ & Hah & _).
    rewrite Hah in Hround. apply lookup_app_Some in Hround as [Hold | [_ Hnew]].
    + exact (IH round acts Hold).
    + apply list_lookup_singleton_Some in Hnew as [_ <-].
      destruct Hvalid as [Hlen Hrange]. rewrite <- Hn, <- Ho. split; assumption.
Qed.

Lemma WritePlayerActionSequence_cells (g : BertrandOligopolyGame)
    (s : BertrandOligopolyState) (player : nat) (m : nat) :
  (forall round actions, actions_history_ s !! round = Some actions ->
     exists a, actions !! player = Some a /\ (0 <= a < NumOptions g)%Z) ->
  (m <= length (actions_history_ s))%nat ->
  let cols := Z.to_nat (NumOptions g) in
  let out :=
    foldl (fun out round =>
             at2 out round (Z.to_nat ((actions_history_ s !!! round) !!! player)) 1%R)
          (Allocator_Get "player_action_sequence" [NumRounds g; NumOptions g])
          (seq 0 m) in
  same_extent out (Allocator_Get "player_action_sequence" [NumRounds g; NumOptions g])
  /\ forall i c,
       (c < cols)%nat ->
       (i * cols + c < Z.to_nat (NumRounds g * NumOptions g))%nat ->
       block_data out !! (i * cols + c)%nat
       = Some (if decide (i < m /\ Z.of_nat c = (actions_history_ s !!! i) !!! player)
               then 1%R else 0%R).
Proof.
  intros Hvalid. induction m as [|m IH]; intros Hm; cbv zeta.
  - cbn [seq foldl]. split; [apply same_extent_refl|]. intros i c Hc Hin.
    cbn [Allocator_Get block_data].
    rewrite lookup_replicate_2; [|unfold shape_size; simpl; rewrite Z.mul_1_r; exact Hin].
    rewrite decide_False by lia. reflexivity.
  - rewrite seq_S, foldl_app. cbn [foldl Nat.add].
    specialize (IH ltac:(lia)). cbv zeta in IH.
    set (out := foldl _ _ (seq 0 m)) in *.
    destruct IH as [Hext IH].
    destruct (lookup_lt_is_Some_2 (actions_history_ s) m) as [acts Hacts]; [lia|].
    destruct (Hvalid m acts Hacts) as (a & Ha & Hrange).
    rewrite (list_lookup_total_correct _ _ _ Hacts), (list_lookup_total_correct _ _ _ Ha).
    split; [eapply same_extent_trans; [apply at2_same_extent | exact Hext]|].
    intros i c Hc Hin.
    destruct Hext as (_ & Hshape & Hlen). rewrite Allocator_Get_length in Hlen.
    unfold shape_size in Hlen. simpl in Hlen. rewrite Z.mul_1_r in Hlen.
    unfold at2. simpl block_data. rewrite Hshape. simpl.
    destruct (decide (i * Z.to_nat (NumOptions g) + c
                      = m * Z.to_nat (NumOptions g) + Z.to_nat a)%nat) as [Heq|Hne].
    + destruct (row_major_inj (Z.to_nat (NumOptions g)) i c m (Z.to_nat a) Hc ltac:(lia) Heq)
        as [-> ->].
      rewrite list_lookup_insert_eq by lia.
      rewrite decide_True; [reflexivity|].
      rewrite (list_lookup_total_correct _ _ _ Hacts), (list_lookup_total_correct _ _ _ Ha).
      lia.
    + rewrite list_lookup_insert_ne by (intros Hc'; apply Hne; symmetry; exact Hc').
      rewrite (IH i c Hc Hin).
      destruct (decide (i < m /\ _)) as [[Hi Hcol]|Hno].
      * rewrite decide_True; [reflexivity | split; [lia | exact Hcol]].
      * rewrite decide_False; [reflexivity|]. intros [Hi Hcol].
        assert (i = m \/ (i < m)%nat) as [-> | Hlt] by lia.
        -- rewrite (list_lookup_total_correct _ _ _ Hacts),
             (list_lookup_total_correct _ _ _ Ha) in Hcol.
           apply Hne. rewrite <- Hcol, Nat2Z.id. reflexivity.
        -- apply Hno. split; [exact Hlt | exact Hcol].
Qed.

(** X19: in an imperfect-information game an observer with perfect recall
    and single-player private information obtains player_action_sequence as
    its last block, of shape [num_turns, num_options]; the row of each round
    played holds a single 1, in the column of the action the requesting
    player took in that round, and every other cell of the block's rows is
    0. *)
Theorem action_sequence_tensor
    (g : BertrandOligopolyGame) (s : BertrandOligopolyState)
    (o : BertrandOligopolyObserver) (player : Z) :
  reachable g s ->
  (1 <= g_num_turns_ g)%Z ->
  (0 <= player < Z.of_nat (NumPlayers g))%Z ->
  g_impinfo_ g = true ->
  perfect_recall (iig_obs_type_ o) = true ->
  private_info (iig_obs_type_ o) = kSinglePlayer ->
  exists blocks b,
    WriteTensor o s player = Some blocks
    /\ last blocks = Some b
    /\ block_name b = "player_action_sequence"%string
    /\ block_shape b = [g_num_turns_ g; g_num_options_ g]
    /\ forall i c,
         (Z.of_nat i < g_num_turns_ g)%Z -> (0 <= c < g_num_options_ g)%Z ->
         block_data b !! (i * Z.to_nat (g_num_options_ g) + Z.to_nat c)%nat
         = Some (match actions_history_ s !! i with
                 | Some actions => if (c =? actions !!! Z.to_nat player)%Z then 1%R else 0%R
                 | None => 0%R
                 end).
Proof.
  intros Hreach Hturns Hplayer Himp Hperf Hpriv.
  destruct (reachable_rounds g s Hreach) as (Hg & Hn & _).
  assert (Hvalid : forall round actions, actions_history_ s !! round = Some actions ->
            exists a, actions !! Z.to_nat player = Some a /\ (0 <= a < NumOptions g)%Z).
  { intros round acts Hround.
    destruct (reachable_history_valid g s Hreach round acts Hround) as [Hlen Hrange].
    destruct (lookup_lt_is_Some_2 acts (Z.to_nat player)) as [a Ha];
      [rewrite Hlen; unfold NumPlayers in Hplayer; lia|].
    exists a. split; [exact Ha | exact (Hrange _ _ Ha)]. }
  destruct (WritePlayerActionSequence_cells g s (Z.to_nat player)
              (length (actions_history_ s)) Hvalid (Nat.le_refl _)) as [Hext Hcells].
  cbv zeta in Hext, Hcells.
  unfold WriteTensor. rewrite Hg.
  replace (negb (0 <=? player)%Z) with false by (symmetry; apply negb_false_iff; lia).
  replace (negb (player <? Z.of_nat (NumPlayers g))%Z) with false
    by (symmetry; apply negb_false_iff; lia).
  unfold IsImpInfo. rewrite Himp, Hperf, Hpriv. cbn [andb].
  eexists _, (WritePlayerActionSequence g s (Z.to_nat player)).
  split; [reflexivity|].
  split; [rewrite !app_assoc; apply last_snoc|].
  unfold WritePlayerActionSequence.
  destruct Hext as (Hname & Hshape & _).
  split; [exact Hname|]. split; [exact Hshape|].
  intros i c Hi Hc.
  assert (Hcell := Hcells i (Z.to_nat c)).
  rewrite Z2Nat.id in Hcell by lia.
  unfold NumOptions, NumRounds in *.
  rewrite Hcell; [| lia
                  | replace (g_num_options_ g) with (Z.of_nat (Z.to_nat (g_num_options_ g)))
                      at 2 by lia;
                    apply row_in_block; lia].
  f_equal. destruct (actions_history_ s !! i) as [acts|] eqn:Hi'.
  - rewrite (list_lookup_total_correct _ _ _ Hi').
    pose proof (lookup_lt_Some _ _ _ Hi') as Hlt.
    destruct (Z.eqb_spec c (acts !!! Z.to_nat player)) as [Heq|Hne].
    + rewrite decide_True; [reflexivity | split; [exact Hlt | exact Heq]].
    + rewrite decide_False; [reflexivity | intros [_ Heq]; contradiction].
  - apply lookup_ge_None in Hi'. rewrite decide_False; [reflexivity | lia].
Qed.

Lemma action_sequence_tensor_witness :
  let g := egocentric_one_round_game in
  let s := apply_result (initial_state g) [0; 4]%Z in
  exists blocks b,
    InformationStateTensor s 1 = Some blocks
    /\ last blocks = Some b
    /\ block_name b = "player_action_sequence"%string
    /\ block_shape b = [g_num_turns_ g; g_num_options_ g]
    /\ forall i c,
         (Z.of_nat i < g_num_turns_ g)%Z -> (0 <= c < g_num_options_ g)%Z ->
         block_data b !! (i * Z.to_nat (g_num_options_ g) + Z.to_nat c)%nat
         = Some (match actions_history_ s !! i with
                 | Some actions => if (c =? actions !!! Z.to_nat 1)%Z then 1%R else 0%R
                 | None => 0%R
                 end).
Proof.
  cbv zeta.
  destruct (one_round_run egocentric_one_round_game [0; 4]%Z) as (_ & Hreach & _);
    [reflexivity | reflexivity | apply valid_pair; [reflexivity | simpl; lia | simpl; lia] |].
  apply (action_sequence_tensor egocentric_one_round_game _
           (info_state_observer_ egocentric_one_round_game) 1 Hreach).
  - cbv. discriminate.
  - cbv. split; [discriminate | reflexivity].
  - reflexivity.
  - reflexivity.
  - reflexivity.
Defined.

(** ** Two players changing seats *)

Lemma same_params_sym (s s' : BertrandOligopolyState) :
  same_params s s' -> same_params s' s.
Proof.
  unfold same_params. intros (H1 & H2 & H3 & H4 & H5 & H6 & H7 & H8 & H9 & H10 & H11 & H12).
  repeat split; symmetry; assumption.
Qed.

Lemma profit_swap (s : BertrandOligopolyState) (a b : Action) :
  wf s -> num_players_ s = 2%nat ->
  profit s [b; a] 0 = profit s [a; b] 1 /\ profit s [b; a] 1 = profit s [a; b] 0.
Proof.
  intros (_ & _ & Hv) Hn. rewrite Hn in Hv.
  unfold profit, demand_denominator, demand_term. rewrite Hv.
  cbn [length seq foldl replicate].
  change ([b; a] !!! 0%nat) with b. change ([b; a] !!! 1%nat) with a.
  change ([a; b] !!! 0%nat) with a. change ([a; b] !!! 1%nat) with b.
  change ([2%R; 2%R] !!! 0%nat) with 2%R. change ([2%R; 2%R] !!! 1%nat) with 2%R.
  set (e0 := exp (IZR (outside_good_ s) / horizontal_differentiation_ s)).
  set (ea := exp ((2 - price_of s a) / horizontal_differentiation_ s)).
  set (eb := exp ((2 - price_of s b) / horizontal_differentiation_ s)).
  replace (e0 + eb + ea)%R with (e0 + ea + eb)%R by lra.
  split; reflexivity.
Qed.

Lemma win_entry_pair (a b : Action) :
  (0 <= a < INT_MAX)%Z -> (0 <= b < INT_MAX)%Z ->
  win_entry [a; b]
  = if (a <? b)%Z then 0%Z else if (a =? b)%Z then kInvalidPlayer else 1%Z.
Proof.
  intros Ha Hb. unfold win_entry, lowest_price. cbn [length seq foldl].
  change ([a; b] !!! 0%nat) with a. change ([a; b] !!! 1%nat) with b.
  unfold lowest_step.
  rewrite (to_int_small a), (to_int_small b) by (unfold INT_MIN, INT_MAX in *; lia).
  replace (a <? INT_MAX)%Z with true by (symmetry; apply Z.ltb_lt; lia).
  destruct (Z.ltb_spec b a), (Z.eqb_spec b a), (Z.ltb_spec a b), (Z.eqb_spec a b);
    try lia; reflexivity.
Qed.

Lemma win_entry_swap (a b : Action) :
  (0 <= a < INT_MAX)%Z -> (0 <= b < INT_MAX)%Z ->
  win_entry [b; a] = other_player (win_entry [a; b])
  /\ (win_entry [a; b] = kInvalidPlayer \/ (0 <= win_entry [a; b] < 2)%Z).
Proof.
  intros Ha Hb. rewrite (win_entry_pair a b Ha Hb), (win_entry_pair b a Hb Ha).
  destruct (Z.ltb_spec b a), (Z.eqb_spec b a), (Z.ltb_spec a b), (Z.eqb_spec a b);
    try lia; (split; [reflexivity | first [left; reflexivity | right; lia]]).
Qed.

Lemma mirrored_step (s s' : BertrandOligopolyState) (a b : Action) :
  two_player_inv s -> wf s' -> mirrored s s' -> valid_actions s [a; b] ->
  mirrored (apply_result s [a; b]) (apply_result s' [b; a])
  /\ two_player_inv (apply_result s [a; b])
  /\ wf (apply_result s' [b; a]).
Proof.
  intros (Hwf & Hn & Hg & Hmax & Hrec & Hhist) Hwf' (Hsame & Hpts & Hws & Hah) Hvalid.
  pose proof Hsame as (Hg' & Hn' & _).
  assert (Hn2 : num_players_ s' = 2%nat) by congruence.
  pose proof (valid_actions_below_INT_MAX s [a; b] Hvalid Hmax) as Hbelow.
  assert (Ha : (0 <= a < INT_MAX)%Z) by (apply (Hbelow 0%nat); reflexivity).
  assert (Hb : (0 <= b < INT_MAX)%Z) by (apply (Hbelow 1%nat); reflexivity).
  destruct (win_entry_swap a b Ha Hb) as [Hswap Hrange].
  destruct (profit_swap s a b Hwf Hn) as [Hp0 Hp1].
  pose proof (apply_result_frame s [a; b]) as (Fg & Fn & Fo & _ & _ & Fah & _).
  pose proof (apply_result_frame s' [b; a]) as (_ & _ & _ & _ & _ & Fah' & _).
  cbv zeta in Fg, Fn, Fo, Fah, Fah'.
  split; [|split].
  - split; [|split; [|split]].
    + eapply same_params_trans; [apply same_params_sym, apply_result_same_params|].
      eapply same_params_trans; [exact Hsame | apply apply_result_same_params].
    + rewrite (apply_result_eq s [a; b] Hwf) by (rewrite Hn; reflexivity).
      rewrite (apply_result_eq s' [b; a] Hwf') by (rewrite Hn2; reflexivity).
      cbv zeta. cbn [points_ update]. rewrite Hn, Hn2. cbn [seq fmap list_fmap].
      rewrite !(same_params_profit s s' _ _ Hsame), Hp0, Hp1, Hpts.
      destruct Hwf as (_ & Hlen & _). rewrite Hn in Hlen.
      destruct (points_ s) as [|x [|y [|z l]]]; try discriminate Hlen. reflexivity.
    + rewrite !apply_result_win_sequence, Hws, fmap_app, Hswap. reflexivity.
    + rewrite Fah, Fah', Hah, fmap_app. reflexivity.
  - split; [apply apply_result_wf; [exact Hwf | rewrite Hn; reflexivity]|].
    split; [congruence|]. split; [congruence|]. split; [congruence|].
    split.
    + rewrite apply_result_win_sequence. intros i w Hi.
      apply lookup_app_Some in Hi as [Hold | [_ Hnew]]; [exact (Hrec i w Hold)|].
      apply list_lookup_singleton_Some in Hnew as [_ <-]. exact Hrange.
    + rewrite Fah. apply Forall_app. split; [exact Hhist|].
      apply Forall_singleton. reflexivity.
  - apply apply_result_wf; [exact Hwf' | rewrite Hn2; reflexivity].
Qed.

Lemma mirrored_play (history : list (list Action)) :
  forall s s' t : BertrandOligopolyState,
    two_player_inv s -> wf s' -> mirrored s s' ->
    Forall (valid_actions s) history ->
    play history s = (Some tt, t) ->
    exists t', play (reverse <$> history) s' = (Some tt, t')
               /\ mirrored t t' /\ two_player_inv t.
Proof.
  induction history as [|actions history IH]; intros s s' t Hinv Hwf' Hmir Hall Hplay.
  - injection Hplay as <-. exists s'. split; [reflexivity|]. split; assumption.
  - apply Forall_cons in Hall as [Hvalid Hrest].
    pose proof Hinv as (_ & Hn & _ & Hmax & _).
    rewrite play_cons, (DoApplyActions_valid s actions Hmax Hvalid) in Hplay.
    pose proof Hvalid as [Hlen Hrange]. rewrite Hn in Hlen.
    destruct actions as [|a [|b [|c l]]]; try discriminate Hlen.
    destruct (mirrored_step s s' a b Hinv Hwf' Hmir Hvalid) as (Hmir1 & Hinv1 & Hwf1).
    destruct (IH _ _ t Hinv1 Hwf1 Hmir1) as (t' & Hplay' & Hmir' & Hinv');
      [|exact Hplay|].
    { eapply Forall_impl; [exact Hrest|]. intros x Hx.
      apply (same_params_valid_actions s _ x (apply_result_same_params s [a; b])).
      exact Hx. }
    exists t'. split; [|split; assumption].
    rewrite fmap_cons, play_cons.
    change (reverse [a; b]) with [b; a].
    destruct Hmir as ((_ & Hn' & Ho' & _) & _).
    rewrite DoApplyActions_valid; [exact Hplay' | rewrite Ho'; exact Hmax |].
    split; [simpl; congruence|].
    intros [|[|p]] x; simpl; intros [= <-]; rewrite Ho'.
    + apply (Hrange 1%nat). reflexivity.
    + apply (Hrange 0%nat). reflexivity.
Qed.

Lemma mirrored_points_total (g : BertrandOligopolyGame) (s s' : BertrandOligopolyState)
    (p : nat) :
  two_player_inv s -> mirrored s s' -> g = game_ s -> (p < 2)%nat ->
  WritePointsTotal g s p = WritePointsTotal g s' (1 - p).
Proof.
  intros (Hwf & Hn & Hg & _) ((_ & Hn' & _) & Hpts & _) -> Hp.
  unfold WritePointsTotal. rewrite Hg, Hpts, Hn', Hn.
  destruct Hwf as (_ & Hlen & _). rewrite Hn in Hlen.
  destruct (points_ s) as [|x [|y [|z l]]]; try discriminate Hlen.
  destruct p as [|[|p]]; [reflexivity | reflexivity | lia].
Qed.

Lemma mirrored_win_sequence (o : BertrandOligopolyObserver) (g : BertrandOligopolyGame)
    (s s' : BertrandOligopolyState) (p : nat) :
  two_player_inv s -> mirrored s s' -> g = game_ s -> obs_egocentric_ o = true ->
  (p < 2)%nat ->
  WriteWinSequence o g s p = WriteWinSequence o g s' (1 - p).
Proof.
  intros (_ & _ & Hg & _ & Hrec & _) (_ & _ & Hws & _) -> Hego Hp.
  unfold WriteWinSequence. rewrite Hws, length_fmap.
  apply foldl_pointwise. intros out i Hi.
  apply elem_of_seq in Hi as [_ Hi]. simpl in Hi.
  destruct (lookup_lt_is_Some_2 (win_sequence_ s) i Hi) as [w Hw].
  rewrite (list_lookup_total_correct (other_player <$> win_sequence_ s) i (other_player w))
    by (rewrite list_lookup_fmap, Hw; reflexivity).
  rewrite (list_lookup_total_correct _ _ _ Hw).
  unfold one_hot_of. rewrite Hego, Hg.
  destruct (Hrec i w Hw) as [-> | Hrange]; [reflexivity|].
  assert (w = 0 \/ w = 1)%Z as [-> | ->] by lia;
    (destruct p as [|[|p]]; [reflexivity | reflexivity | lia]).
Qed.

Lemma mirrored_action_sequence (g : BertrandOligopolyGame) (s s' : BertrandOligopolyState)
    (p : nat) :
  two_player_inv s -> mirrored s s' -> (p < 2)%nat ->
  WritePlayerActionSequence g s p = WritePlayerActionSequence g s' (1 - p).
Proof.
  intros (_ & _ & _ & _ & _ & Hhist) (_ & _ & _ & Hah) Hp.
  unfold WritePlayerActionSequence. rewrite Hah, length_fmap.
  apply foldl_pointwise. intros out i Hi.
  apply elem_of_seq in Hi as [_ Hi]. simpl in Hi.
  destruct (lookup_lt_is_Some_2 (actions_history_ s) i Hi) as [acts Hacts].
  rewrite (list_lookup_total_correct (reverse <$> actions_history_ s) i (reverse acts))
    by (rewrite list_lookup_fmap, Hacts; reflexivity).
  rewrite (list_lookup_total_correct _ _ _ Hacts).
  pose proof (proj1 (Forall_lookup _ _) Hhist i acts Hacts) as Hlen. simpl in Hlen.
  destruct acts as [|a [|b [|c l]]]; try discriminate Hlen.
  destruct p as [|[|p]]; [reflexivity | reflexivity | lia].
Qed.

Lemma mirrored_tensor (o : BertrandOligopolyObserver) (s s' : BertrandOligopolyState)
    (p : nat) :
  two_player_inv s -> mirrored s s' -> obs_egocentric_ o = true -> (p < 2)%nat ->
  WriteTensor o s (Z.of_nat p) = WriteTensor o s' (Z.of_nat (1 - p)).
Proof.
  intros Hinv Hmir Hego Hp.
  pose proof Hinv as (_ & _ & Hg & _). pose proof Hmir as ((Hg' & _) & _).
  unfold WriteTensor. rewrite Hg', Hg, !Nat2Z.id.
  assert (H1 : (0 <=? Z.of_nat p)%Z = true) by (apply Z.leb_le; lia).
  assert (H2 : (0 <=? Z.of_nat (1 - p))%Z = true) by (apply Z.leb_le; lia).
  assert (H3 : (Z.of_nat p <? Z.of_nat 2)%Z = true) by (apply Z.ltb_lt; lia).
  assert (H4 : (Z.of_nat (1 - p) <? Z.of_nat 2)%Z = true) by (apply Z.ltb_lt; lia).
  rewrite H1, H2, H3, H4. cbn [negb].
  cbv zeta.
  rewrite <- (mirrored_points_total (game_ s) s s' p Hinv Hmir eq_refl Hp).
  rewrite <- (mirrored_win_sequence o (game_ s) s s' p Hinv Hmir eq_refl Hego Hp).
  rewrite <- (mirrored_action_sequence (game_ s) s s' p Hinv Hmir Hp).
  reflexivity.
Qed.

(** X20: in a two-player game with the egocentric view, let one run apply
    the valid joint actions of a history and another run apply the same
    joint actions with the two entries exchanged.  If the first run goes
    through, so does the second, and what InformationStateTensor and
    ObservationTensor give a player after the first run is exactly what they
    give the other player after the second: the tensors do not depend on the
    seat (the property EgocentricViewOfSymmetricActions tests). *)
Theorem egocentric_view_of_symmetric_actions
    (g : BertrandOligopolyGame) (history : list (list Action))
    (s0 s : BertrandOligopolyState) :
  g_num_players_ g = 2%nat -> g_egocentric_ g = true ->
  (g_num_options_ g <= INT_MAX)%Z ->
  NewInitialState g = Some s0 ->
  Forall (valid_actions s0) history ->
  play history s0 = (Some tt, s) ->
  exists s',
    play (reverse <$> history) s0 = (Some tt, s')
    /\ InformationStateTensor s 0 = InformationStateTensor s' 1
    /\ InformationStateTensor s 1 = InformationStateTensor s' 0
    /\ ObservationTensor s 0 = ObservationTensor s' 1
    /\ ObservationTensor s 1 = ObservationTensor s' 0.
Proof.
  intros Hn Hego Hmax H0 Hall Hplay.
  pose proof (NewInitialState_wf g s0 H0) as Hwf0.
  rewrite NewInitialState_eq in H0. destruct (1 <? g_num_options_ g)%Z; [|discriminate].
  injection H0 as <-.
  assert (Hinv0 : two_player_inv (initial_state g)).
  { split; [exact Hwf0|]. split; [exact Hn|]. split; [exact Hn|]. split; [exact Hmax|].
    split; [intros i w Hi; simpl in Hi; rewrite lookup_nil in Hi; discriminate|].
    apply Forall_nil_2. }
  assert (Hmir0 : mirrored (initial_state g) (initial_state g)).
  { split; [apply same_params_refl|]. simpl. rewrite Hn. repeat split. }
  destruct (mirrored_play history _ _ s Hinv0 Hwf0 Hmir0 Hall Hplay)
    as (s' & Hplay' & Hmir & Hinv).
  exists s'. split; [exact Hplay'|].
  pose proof Hmir as ((Hg' & _) & _).
  assert (Hg : game_ s = g).
  { pose proof (play_same_params history _ _ Hplay) as (Hgs & _). exact Hgs. }
  unfold InformationStateTensor, ObservationTensor. rewrite Hg', Hg.
  assert (Hi : obs_egocentric_ (info_state_observer_ g) = true) by exact Hego.
  assert (Hd : obs_egocentric_ (default_observer_ g) = true) by exact Hego.
  split; [exact (mirrored_tensor _ s s' 0 Hinv Hmir Hi ltac:(lia))|].
  split; [exact (mirrored_tensor _ s s' 1 Hinv Hmir Hi ltac:(lia))|].
  split; [exact (mirrored_tensor _ s s' 0 Hinv Hmir Hd ltac:(lia))|].
  exact (mirrored_tensor _ s s' 1 Hinv Hmir Hd ltac:(lia)).
Qed.

Lemma egocentric_view_of_symmetric_actions_witness :
  let g := egocentric_one_round_game in
  let s := apply_result (initial_state g) [0; 4]%Z in
  exists s',
    play (reverse <$> [[0; 4]%Z]) (initial_state g) = (Some tt, s')
    /\ InformationStateTensor s 0 = InformationStateTensor s' 1
    /\ InformationStateTensor s 1 = InformationStateTensor s' 0
    /\ ObservationTensor s 0 = ObservationTensor s' 1
    /\ ObservationTensor s 1 = ObservationTensor s' 0.
Proof.
  cbv zeta.
  apply (egocentric_view_of_symmetric_actions egocentric_one_round_game [[0; 4]%Z]
           (initial_state egocentric_one_round_game)).
  - reflexivity.
  - reflexivity.
  - cbv. discriminate.
  - reflexivity.
  - valid_by_check.
  - rewrite play_cons, DoApplyActions_run. reflexivity.
Defined.

(** ** The node kinds of a play *)

(** X21: every state of a play is a simultaneous node or the terminal node,
    never a chance node: CurrentPlayer is kSimultaneousPlayerId until the
    state is terminal and kTerminalPlayerId from then on; and in a game with
    at least one round the recorded history never holds more joint actions
    than MaxGameLength(). *)
Theorem play_has_no_chance_node (g : BertrandOligopolyGame) (s : BertrandOligopolyState) :
  reachable g s ->
  CurrentPlayer s = (if IsTerminal s then kTerminalPlayerId else kSimultaneousPlayerId)
  /\ CurrentPlayer s <> kChancePlayerId
  /\ ((1 <= g_num_turns_ g)%Z ->
      (Z.of_nat (length (actions_history_ s)) <= MaxGameLength g)%Z).
Proof.
  intros Hreach.
  destruct (reachable_rounds g s Hreach) as (_ & _ & _ & Ht & _ & Hlen & Hterm & Hopen).
  unfold CurrentPlayer, MaxGameLength.
  assert (Hcur : current_player_ s
                 = if IsTerminal s then kTerminalPlayerId else kSimultaneousPlayerId).
  { destruct (IsTerminal s) eqn:Hs.
    - unfold IsTerminal in Hs. apply Z.eqb_eq in Hs. exact Hs.
    - apply Hopen. reflexivity. }
  split; [exact Hcur|]. split.
  - rewrite Hcur. destruct (IsTerminal s); discriminate.
  - intros Hturns. rewrite Hlen, <- Ht. destruct (IsTerminal s) eqn:Hs.
    + rewrite (Hterm eq_refl). lia.
    + destruct (Hopen eq_refl) as [_ Hlt]. rewrite Ht in *. specialize (Hlt Hturns). lia.
Qed.

Lemma play_has_no_chance_node_witness :
  let s := apply_result (initial_state one_round_game) [0; 4]%Z in
  CurrentPlayer s = (if IsTerminal s then kTerminalPlayerId else kSimultaneousPlayerId)
  /\ CurrentPlayer s <> kChancePlayerId
  /\ ((1 <= g_num_turns_ one_round_game)%Z ->
      (Z.of_nat (length (actions_history_ s)) <= MaxGameLength one_round_game)%Z).
Proof.
  cbv zeta.
  destruct (one_round_run one_round_game [0; 4]%Z) as (_ & Hreach & _);
    [reflexivity | reflexivity | apply valid_pair; [reflexivity | simpl; lia | simpl; lia] |].
  exact (play_has_no_chance_node one_round_game _ Hreach).
Defined.

(** * The round profit on binary64 *)

Lemma overflow_Finite (x : R) : (- DBL_MAX <= x <= DBL_MAX)%R -> overflow x = Finite x.
Proof.
  intros [Hlo Hhi]. unfold overflow.
  destruct (Rlt_dec DBL_MAX x) as [H|_]; [lra|].
  destruct (Rlt_dec x (- DBL_MAX)) as [H|_]; [lra | reflexivity].
Qed.

Lemma overflow_Infinity (x : R) : (DBL_MAX < x)%R -> overflow x = Infinity false.
Proof.
  intros Hx. unfold overflow. destruct (Rlt_dec DBL_MAX x) as [_|H]; [reflexivity | lra].
Qed.

Lemma exp_INR (n : nat) : exp (INR n) = (exp 1 ^ n)%R.
Proof.
  induction n as [|n IH].
  - simpl. apply exp_0.
  - rewrite S_INR, exp_plus, IH. simpl. ring.
Qed.

Lemma exp_1_bounds : (2 <= exp 1 <= 3)%R.
Proof.
  split; [|apply exp_le_3].
  pose proof (exp_ineq1 1 ltac:(lra)). lra.
Qed.

Lemma exp_le_pow3 (x : R) (n : nat) : (x <= INR n)%R -> (exp x <= 3 ^ n)%R.
Proof.
  intros Hx. apply Rle_trans with (exp (INR n)).
  - destruct Hx as [Hlt | ->]; [left; apply exp_increasing; exact Hlt | right; reflexivity].
  - rewrite exp_INR. apply pow_incr. pose proof exp_1_bounds. lra.
Qed.

Lemma pow2_le_exp (x : R) (n : nat) : (INR n <= x)%R -> (2 ^ n <= exp x)%R.
Proof.
  intros Hx. apply Rle_trans with (exp (INR n)).
  - rewrite exp_INR. apply pow_incr. pose proof exp_1_bounds. lra.
  - destruct Hx as [Hlt | <-]; [left; apply exp_increasing; exact Hlt | right; reflexivity].
Qed.

Lemma DBL_MAX_room : (3 ^ 505 * 1000008 <= DBL_MAX)%R.
Proof.
  unfold DBL_MAX. rewrite pow_IZR, <- mult_IZR. apply IZR_le.
  apply Z.leb_le. vm_compute. reflexivity.
Qed.

Lemma DBL_MAX_below_pow2 : (DBL_MAX < 2 ^ 1024)%R.
Proof.
  unfold DBL_MAX. rewrite pow_IZR. apply IZR_lt.
  apply Z.ltb_lt. vm_compute. reflexivity.
Qed.

Lemma pow3_505_ge_1 : (1 <= 3 ^ 505)%R.
Proof. apply pow_R1_Rle. lra. Qed.

Lemma DBL_MAX_ge : (1000008 <= DBL_MAX)%R.
Proof. pose proof DBL_MAX_room. pose proof pow3_505_ge_1. nra. Qed.

(** A sum of non-negative doubles that stays below [DBL_MAX] is the real
    sum. *)
Lemma fold_d_add_Finite (f : nat -> R) (B : R) (l : list nat) :
  forall a : R,
    (0 <= a)%R -> (forall p, p ∈ l -> (0 <= f p <= B)%R) ->
    (a + INR (length l) * B <= DBL_MAX)%R ->
    foldl (fun d p => d_add d (Finite (f p))) (Finite a) l
    = Finite (foldl (fun d p => (d + f p)%R) a l).
Proof.
  induction l as [|p l IH]; intros a Ha Hf Hsum; [reflexivity|].
  assert (Hp : (0 <= f p <= B)%R) by (apply Hf; left).
  assert (Hl : (0 <= INR (length l) * B)%R).
  { apply Rmult_le_pos; [apply pos_INR | lra]. }
  cbn [foldl length] in *. rewrite S_INR in Hsum.
  pose proof DBL_MAX_ge.
  cbn [d_add]. rewrite overflow_Finite by nra.
  apply IH; [lra | intros q Hq; apply Hf; right; exact Hq | nra].
Qed.

Section Moderate.

Variable g : BertrandOligopolyGame.
Variable s : BertrandOligopolyState.
Hypothesis Hreach : reachable g s.
Hypothesis Hmod : moderate_parameters g.

Lemma moderate_state :
  (1 / 100 <= horizontal_differentiation_ s)%R
  /\ (-1000000 <= marginal_cost_ s <= 1000000)%Z
  /\ (-5 <= outside_good_ s <= 5)%Z
  /\ (Z.of_nat (num_players_ s) <= 1000000)%Z
  /\ vertical_differentiation_ s = replicate (num_players_ s) 2%R.
Proof.
  destruct Hmod as (Hh & _ & Hmc & Hog & Hn).
  destruct (reachable_same_params g s Hreach)
    as (_ & _ & Hns & _ & _ & _ & Hmcs & Hhs & _ & Hogs & _).
  simpl in Hns, Hmcs, Hhs, Hogs.
  destruct (reachable_wf g s Hreach) as (_ & _ & Hv).
  split; [rewrite Hhs; exact Hh|]. split; [rewrite Hmcs; exact Hmc|].
  split; [rewrite Hogs; exact Hog|]. split; [rewrite Hns; exact Hn | exact Hv].
Qed.

Lemma moderate_price (a : Action) :
  (0 <= a < num_options_ s)%Z ->
  (-3.05 <= price_of s a <= 7)%R /\ price_d s a = Finite (price_of s a).
Proof.
  intros Ha. destruct Hmod as (_ & [Hlo Hhi] & _).
  pose proof (reachable_price_range g s a Hreach Hlo Ha) as Hprice.
  destruct (reachable_grid g s Hreach) as (_ & _ & Hint & _).
  unfold g_interval_ in Hprice. cbn [fst snd] in Hprice.
  assert (Hfirst : (-3.05 <= (interval_ s).1 <= 7)%R).
  { rewrite Hint. unfold g_interval_. cbn [fst snd]. lra. }
  split; [lra|].
  pose proof DBL_MAX_ge.
  unfold price_d, d_of_int, price_of in *. cbn [d_mul].
  rewrite overflow_Finite by lra. cbn [d_add].
  rewrite overflow_Finite by lra. reflexivity.
Qed.

Lemma moderate_exp (x : R) :
  (- 1000 <= x <= 505)%R ->
  d_exp (Finite x) = Finite (exp x) /\ (0 < exp x <= 3 ^ 505)%R.
Proof.
  intros Hx. pose proof (exp_pos x) as Hpos.
  assert (Hle : (exp x <= 3 ^ 505)%R).
  { apply exp_le_pow3. replace (INR 505) with 505%R by (rewrite INR_IZR_INZ; reflexivity).
    lra. }
  split; [|lra]. cbn [d_exp]. apply overflow_Finite.
  pose proof DBL_MAX_room. pose proof pow3_505_ge_1. nra.
Qed.

Lemma moderate_quotient (x : R) :
  (-10 <= x <= 5.05)%R ->
  d_div (Finite x) (Finite (horizontal_differentiation_ s))
  = Finite (x / horizontal_differentiation_ s)
  /\ (-1000 <= x / horizontal_differentiation_ s <= 505)%R.
Proof.
  intros Hx. destruct moderate_state as (Hh & _).
  set (h := horizontal_differentiation_ s) in *.
  assert (Hq : (-1000 <= x / h <= 505)%R).
  { split.
    - apply (Rmult_le_reg_r h); [lra|].
      unfold Rdiv. rewrite Rmult_assoc, Rinv_l by lra. lra.
    - apply (Rmult_le_reg_r h); [lra|].
      unfold Rdiv. rewrite Rmult_assoc, Rinv_l by lra. lra. }
  split; [|exact Hq]. cbn [d_div].
  destruct (Req_dec_T h 0) as [H0|_]; [lra|].
  pose proof DBL_MAX_ge. apply overflow_Finite. lra.
Qed.

Lemma moderate_term (p : nat) (a : Action) :
  (p < num_players_ s)%nat -> (0 <= a < num_options_ s)%Z ->
  demand_term_d s p a = Finite (demand_term s p a)
  /\ (0 < demand_term s p a <= 3 ^ 505)%R.
Proof.
  intros Hp Ha. destruct moderate_state as (_ & _ & _ & _ & Hv).
  destruct (moderate_price a Ha) as [Hprice Hpd].
  unfold demand_term_d, demand_term. rewrite Hpd, Hv, lookup_total_replicate_2 by exact Hp.
  pose proof DBL_MAX_ge.
  unfold d_sub. cbn [d_neg d_add]. rewrite overflow_Finite by lra.
  change (2 + - price_of s a)%R with (2 - price_of s a)%R.
  destruct (moderate_quotient (2 - price_of s a)) as [Hq Hrange]; [lra|].
  rewrite Hq. apply moderate_exp. exact Hrange.
Qed.

Lemma moderate_outside :
  d_exp (d_div (d_of_int (outside_good_ s)) (Finite (horizontal_differentiation_ s)))
  = Finite (exp (IZR (outside_good_ s) / horizontal_differentiation_ s))
  /\ (0 < exp (IZR (outside_good_ s) / horizontal_differentiation_ s) <= 3 ^ 505)%R.
Proof.
  destruct moderate_state as (_ & _ & [Hlo Hhi] & _).
  apply IZR_le in Hlo, Hhi. unfold d_of_int.
  destruct (moderate_quotient (IZR (outside_good_ s))) as [Hq Hrange]; [lra|].
  rewrite Hq. apply moderate_exp. exact Hrange.
Qed.

Variable actions : list Action.
Hypothesis Hvalid : valid_actions s actions.

Lemma moderate_denominator :
  demand_denominator_d s actions = Finite (demand_denominator s actions).
Proof.
  destruct Hvalid as [Hlen Hrange].
  destruct moderate_state as (_ & _ & _ & Hn & _).
  destruct moderate_outside as [Hog [Hog0 HogB]].
  unfold demand_denominator_d, demand_denominator. rewrite Hog.
  rewrite (foldl_pointwise _
             (fun d p => d_add d (Finite (demand_term s p (actions !!! p))))).
  2:{ intros d p Hp. apply elem_of_seq in Hp as [_ Hp]. simpl in Hp.
      destruct (lookup_lt_is_Some_2 actions p Hp) as [a Ha].
      rewrite (list_lookup_total_correct _ _ _ Ha).
      rewrite (proj1 (moderate_term p a ltac:(lia) (Hrange p a Ha))). reflexivity. }
  apply (fold_d_add_Finite (fun p => demand_term s p (actions !!! p)) (3 ^ 505)).
  - lra.
  - intros p Hp. apply elem_of_seq in Hp as [_ Hp]. simpl in Hp.
    destruct (lookup_lt_is_Some_2 actions p Hp) as [a Ha].
    rewrite (list_lookup_total_correct _ _ _ Ha).
    destruct (moderate_term p a ltac:(lia) (Hrange p a Ha)) as [_ Hb]. lra.
  - rewrite length_seq, Hlen.
    assert (Hn' : (INR (num_players_ s) <= 1000000)%R).
    { rewrite INR_IZR_INZ. apply IZR_le. exact Hn. }
    pose proof (pos_INR (num_players_ s)).
    pose proof DBL_MAX_room. pose proof pow3_505_ge_1. nra.
Qed.

Lemma moderate_profit (p : nat) :
  (p < num_players_ s)%nat -> profit_d s actions p = Finite (profit s actions p).
Proof.
  intros Hp. destruct Hvalid as [Hlen Hrange].
  destruct moderate_state as (_ & [Hmlo Hmhi] & _).
  apply IZR_le in Hmlo, Hmhi.
  destruct (lookup_lt_is_Some_2 actions p) as [a Ha]; [lia|].
  destruct (moderate_price a (Hrange p a Ha)) as [Hprice Hpd].
  destruct (moderate_term p a Hp (Hrange p a Ha)) as [Htd [Ht0 HtB]].
  pose proof (demand_denominator_pos s actions) as HD.
  pose proof DBL_MAX_room. pose proof pow3_505_ge_1. pose proof DBL_MAX_ge.
  unfold profit_d, profit. rewrite moderate_denominator.
  rewrite (list_lookup_total_correct _ _ _ Ha), Hpd, Htd.
  unfold d_sub, d_of_int. cbn [d_neg d_add]. rewrite overflow_Finite by lra.
  change (price_of s a + - IZR (marginal_cost_ s))%R
    with (price_of s a - IZR (marginal_cost_ s))%R.
  set (margin := (price_of s a - IZR (marginal_cost_ s))%R) in *.
  assert (Hmargin : (-1000008 <= margin <= 1000008)%R) by (unfold margin; lra).
  cbn [d_mul]. rewrite overflow_Finite by nra.
  cbn [d_div]. destruct (Req_dec_T (demand_denominator s actions) 0) as [Hzero|_]; [lra|].
  apply overflow_Finite.
  pose proof (profit_between s actions p (-1000008) 1000008 ltac:(lia)) as Hb.
  rewrite (list_lookup_total_correct _ _ _ Ha) in Hb. fold margin in Hb.
  specialize (Hb Hmargin). unfold profit in Hb.
  rewrite (list_lookup_total_correct _ _ _ Ha) in Hb. fold margin in Hb.
  rewrite Rmin_right, Rmax_right in Hb by lra. lra.
Qed.

End Moderate.


Lemma default_parameters_moderate : moderate_parameters one_round_game.
Proof.
  unfold moderate_parameters. simpl.
  unfold kDefaultHorizontalDifferentiation, kDefaultIntervalSize, kDefaultMarginalCost,
    kDefaultOutsideGood, kDefaultNumPlayers.
  repeat split; try lra; try lia.
Qed.


(** In the steep game the exponential of the lowest price overflows. *)
Lemma steep_term_overflows (p : nat) :
  (p < 2)%nat -> demand_term_d (initial_state steep_game) p 0 = Infinity false.
Proof.
  intros Hp. pose proof DBL_MAX_ge.
  unfold demand_term_d, price_d, d_of_int.
  assert (Hv : vertical_differentiation_ (initial_state steep_game) !!! p = 2%R)
    by (destruct p as [|[|p]]; [reflexivity | reflexivity | lia]).
  rewrite Hv.
  cbn [initial_state steep_game step_size_ interval_ horizontal_differentiation_
       g_interval_size_ g_num_options_ g_horizontal_differentiation_ fst snd].
  unfold kDefaultIntervalSize. change (5 - 1)%Z with 4%Z.
  cbn [d_mul]. rewrite overflow_Finite by lra.
  cbn [d_add]. rewrite overflow_Finite by lra.
  unfold d_sub. cbn [d_neg d_add]. rewrite overflow_Finite by lra.
  cbn [d_div]. destruct (Req_dec_T 0.0005 0) as [H0|_]; [lra|].
  rewrite overflow_Finite by lra.
  cbn [d_exp]. apply overflow_Infinity.
  apply Rlt_le_trans with (2 ^ 1024)%R; [apply DBL_MAX_below_pow2|].
  apply pow2_le_exp. replace (INR 1024) with 1024%R by (rewrite INR_IZR_INZ; reflexivity).
  lra.
Qed.

Lemma steep_outside :
  d_exp (d_div (d_of_int (outside_good_ (initial_state steep_game)))
               (Finite (horizontal_differentiation_ (initial_state steep_game))))
  = Finite 1.
Proof.
  pose proof DBL_MAX_ge.
  cbn [initial_state steep_game outside_good_ horizontal_differentiation_
       g_outside_good_ g_horizontal_differentiation_].
  unfold kDefaultOutsideGood, d_of_int. cbn [d_div].
  destruct (Req_dec_T 0.0005 0) as [H0|_]; [lra|].
  replace (0 / 0.0005)%R with 0%R by lra.
  rewrite overflow_Finite by lra. cbn [d_exp]. rewrite exp_0.
  apply overflow_Finite. lra.
Qed.

Lemma steep_denominator :
  demand_denominator_d (initial_state steep_game) [0; 0]%Z = Infinity false.
Proof.
  unfold demand_denominator_d. cbn [length seq foldl].
  change ([0; 0]%Z !!! 0%nat) with 0%Z. change ([0; 0]%Z !!! 1%nat) with 0%Z.
  rewrite !steep_term_overflows by lia. rewrite steep_outside. reflexivity.
Qed.

Lemma steep_profit (p : nat) :
  (p < 2)%nat -> profit_d (initial_state steep_game) [0; 0]%Z p = NaN.
Proof.
  intros Hp. pose proof DBL_MAX_ge.
  unfold profit_d. rewrite steep_denominator.
  assert (Ha : [0; 0]%Z !!! p = 0%Z)
    by (destruct p as [|[|p]]; [reflexivity | reflexivity | lia]).
  rewrite Ha, (steep_term_overflows p Hp).
  unfold price_d, d_of_int.
  cbn [initial_state steep_game step_size_ interval_ marginal_cost_
       g_interval_size_ g_num_options_ g_marginal_cost_ fst snd].
  unfold kDefaultIntervalSize, kDefaultMarginalCost. change (5 - 1)%Z with 4%Z.
  cbn [d_mul]. rewrite overflow_Finite by lra.
  cbn [d_add]. rewrite overflow_Finite by lra.
  unfold d_sub. cbn [d_neg d_add]. rewrite overflow_Finite by lra.
  cbn [d_mul]. destruct (Req_dec_T _ 0) as [H0|_]; [lra | reflexivity].
Qed.

